(** * exec_command: a shallow embedding of Sources/CShim/exec_command.c

    The C file spawns a process: [exec_command] (the parent side) creates a
    sync pipe, blocks every signal, forks, and waits for the child's report;
    [child_handler] (the child side) renumbers the descriptor table, applies
    the requested attributes and replaces the program image.

    The embedding has three layers:
    - a small model of the kernel objects the code talks to (descriptor
      table, errno, signal mask, pipes), with one function per system call;
    - [child_handler], written in a state monad with a [goto fail] outcome;
    - [exec_command], which runs the forked child to the point where the
      parent's blocking [read] can return.

    C [int] values that are descriptor numbers, return values and errno codes
    are integers of [Z]; signed overflow has no defined result in C and no
    descriptor number comes near [INT_MAX], so no wrap-around is applied to
    them.  [uid_t] and [gid_t] are unsigned 32-bit and wrap. *)

From stdpp Require Import base option list gmap strings.
From Stdlib Require Import ZArith Lia.
Local Open Scope Z_scope.

(** ** Machine integers *)

(** Conversion of an integer to [uid_t] / [gid_t] (unsigned, 32 bits). *)
Definition to_uint32 (x : Z) : Z := x mod 2 ^ 32.

(** Value of a 32-bit pattern read as a (two's complement) [int]. *)
Definition to_int32 (x : Z) : Z := (x + 2 ^ 31) mod 2 ^ 32 - 2 ^ 31.

(** The object representation of an [int]: [sizeof(int)] = 4 bytes, least
    significant first (x86-64 and arm64 are little-endian). *)
Definition int_bytes (x : Z) : list Z :=
  [x mod 256; (x / 256) mod 256; (x / 65536) mod 256; (x / 16777216) mod 256].

Definition bytes_int (bs : list Z) : Z :=
  match bs with
  | [b0; b1; b2; b3] => to_int32 (b0 + 256 * b1 + 65536 * b2 + 16777216 * b3)
  | _ => 0
  end.

(** ** errno codes (Linux numbering) *)

Inductive errno_code :=
  | EPERM | ENOENT | ESRCH | EINTR | EIO | EBADF | ECHILD | EAGAIN
  | ENOMEM | EACCES | EINVAL | ENFILE | EMFILE | ENOTTY.

Definition errno_val (e : errno_code) : Z :=
  match e with
  | EPERM => 1 | ENOENT => 2 | ESRCH => 3 | EINTR => 4 | EIO => 5
  | EBADF => 9 | ECHILD => 10 | EAGAIN => 11 | ENOMEM => 12 | EACCES => 13
  | EINVAL => 22 | ENFILE => 23 | EMFILE => 24 | ENOTTY => 25
  end.

(** ** Kernel objects *)

(** An open file description: what a descriptor refers to.  Descriptors that
    were duplicated from one another share the description. *)
Inductive ofd :=
  | File (id : Z) (writable : bool)
  | PipeR (id : Z)
  | PipeW (id : Z).

#[global] Instance ofd_eq_dec : EqDecision ofd.
Proof. solve_decision. Defined.

(** One slot of the descriptor table: the description and the per-descriptor
    close-on-exec flag. *)
Record fdesc := { fd_ofd : ofd; fd_cloexec : bool }.

(** System calls whose failure depends on the world outside the descriptor
    table; [fault] below says which of them fail, and with which errno. *)
Inductive call :=
  | Calloc | Fork | Waitpid | Setsid | Setpgid | Ioctl | Getrlimit
  | Setgid | Setreuid | Chdir | Execve.

(** Effects that are not part of the descriptor table, recorded in order
    (newest first). *)
Inductive event :=
  | EvSigDfl (sig : Z)
  | EvSetsid
  | EvSetpgid (pid pgid : Z)
  | EvTiocsctty (fd : Z)
  | EvSetgid (gid : Z)
  | EvSetreuid (ruid euid : Z)
  | EvChdir (path : string)
  | EvExecve (path : string) (argv envp : list string)
  | EvRead (fd n : Z)
  | EvWaitpid (pid : Z)
  | EvPrintfSigmask (code : Z)
  | EvPrintfExecve (code : Z).

(** The state of one process as the code can observe or change it. *)
Record proc := {
  fds : gmap Z fdesc;                (* descriptor table *)
  errno : Z;
  sigmask : Z;                       (* blocked signals, one bit each *)
  rlim_cur : Z;                      (* RLIMIT_NOFILE soft limit *)
  heap_blocks : nat;                 (* live calloc blocks *)
  written : gmap Z (list Z);         (* bytes written, per file or pipe id *)
  next_obj : Z;                      (* id of the next kernel object *)
  self_pid : positive;
  next_pid : positive;               (* pid the next fork hands out *)
  fault : call -> option errno_code; (* environment: failing calls *)
  trace : list event
}.

Definition set_fds (m : gmap Z fdesc) (p : proc) : proc :=
  {| fds := m; errno := errno p; sigmask := sigmask p; rlim_cur := rlim_cur p;
     heap_blocks := heap_blocks p; written := written p; next_obj := next_obj p;
     self_pid := self_pid p; next_pid := next_pid p; fault := fault p;
     trace := trace p |}.

Definition set_errno (e : Z) (p : proc) : proc :=
  {| fds := fds p; errno := e; sigmask := sigmask p; rlim_cur := rlim_cur p;
     heap_blocks := heap_blocks p; written := written p; next_obj := next_obj p;
     self_pid := self_pid p; next_pid := next_pid p; fault := fault p;
     trace := trace p |}.

Definition set_sigmask (m : Z) (p : proc) : proc :=
  {| fds := fds p; errno := errno p; sigmask := m; rlim_cur := rlim_cur p;
     heap_blocks := heap_blocks p; written := written p; next_obj := next_obj p;
     self_pid := self_pid p; next_pid := next_pid p; fault := fault p;
     trace := trace p |}.

Definition set_heap_blocks (n : nat) (p : proc) : proc :=
  {| fds := fds p; errno := errno p; sigmask := sigmask p; rlim_cur := rlim_cur p;
     heap_blocks := n; written := written p; next_obj := next_obj p;
     self_pid := self_pid p; next_pid := next_pid p; fault := fault p;
     trace := trace p |}.

Definition set_written (w : gmap Z (list Z)) (p : proc) : proc :=
  {| fds := fds p; errno := errno p; sigmask := sigmask p; rlim_cur := rlim_cur p;
     heap_blocks := heap_blocks p; written := w; next_obj := next_obj p;
     self_pid := self_pid p; next_pid := next_pid p; fault := fault p;
     trace := trace p |}.

Definition set_next_obj (n : Z) (p : proc) : proc :=
  {| fds := fds p; errno := errno p; sigmask := sigmask p; rlim_cur := rlim_cur p;
     heap_blocks := heap_blocks p; written := written p; next_obj := n;
     self_pid := self_pid p; next_pid := next_pid p; fault := fault p;
     trace := trace p |}.

Definition set_pids (self next : positive) (p : proc) : proc :=
  {| fds := fds p; errno := errno p; sigmask := sigmask p; rlim_cur := rlim_cur p;
     heap_blocks := heap_blocks p; written := written p; next_obj := next_obj p;
     self_pid := self; next_pid := next; fault := fault p;
     trace := trace p |}.

Definition set_trace (t : list event) (p : proc) : proc :=
  {| fds := fds p; errno := errno p; sigmask := sigmask p; rlim_cur := rlim_cur p;
     heap_blocks := heap_blocks p; written := written p; next_obj := next_obj p;
     self_pid := self_pid p; next_pid := next_pid p; fault := fault p;
     trace := t |}.

Definition log (e : event) (p : proc) : proc := set_trace (e :: trace p) p.

(** ** System calls

    Each call returns its C return value and the new process state.  A
    failing call returns -1 and stores the error in [errno]; a successful
    call leaves [errno] alone. *)

Definition fails (e : errno_code) (p : proc) : Z * proc :=
  (-1, set_errno (errno_val e) p).

Definition FD_CLOEXEC : Z := 1.
Definition SIGKILL : Z := 9.
Definition SIGSTOP : Z := 19.
Definition SIGCANCEL : Z := 32.   (* kept by glibc for thread cancellation *)
Definition SIGSETXID : Z := 33.   (* kept by glibc for setuid and the like *)
Definition NSIG : Z := 65.

(** close(2): EBADF unless [fd] is open. *)
Definition sys_close (fd : Z) (p : proc) : Z * proc :=
  match fds p !! fd with
  | None => fails EBADF p
  | Some _ => (0, set_fds (delete fd (fds p)) p)
  end.

(** dup2(2): EBADF unless [oldfd] is open and [newfd] is in the range the
    descriptor limit allows; [newfd] is silently replaced, and the new
    descriptor has close-on-exec off.  With [oldfd = newfd] nothing changes. *)
Definition sys_dup2 (oldfd newfd : Z) (p : proc) : Z * proc :=
  match fds p !! oldfd with
  | None => fails EBADF p
  | Some d =>
      if (newfd <? 0) || (rlim_cur p <=? newfd) then fails EBADF p
      else if oldfd =? newfd then (newfd, p)
      else (newfd,
            set_fds (<[newfd := {| fd_ofd := fd_ofd d; fd_cloexec := false |}]> (fds p)) p)
  end.

(** fcntl(fd, F_SETFD, flags): EBADF unless [fd] is open. *)
Definition sys_fcntl_setfd (fd flags : Z) (p : proc) : Z * proc :=
  match fds p !! fd with
  | None => fails EBADF p
  | Some d =>
      (0, set_fds (<[fd := {| fd_ofd := fd_ofd d;
                              fd_cloexec := Z.testbit flags 0 |}]> (fds p)) p)
  end.

(** Where bytes written through a description end up, when it accepts
    writes at all. *)
Definition ofd_sink (o : ofd) : option Z :=
  match o with
  | File id true => Some id
  | PipeW id => Some id
  | File _ false | PipeR _ => None
  end.

(** write(2) of a short buffer: EBADF unless [fd] is open for writing;
    otherwise every byte is taken. *)
Definition sys_write (fd : Z) (buf : list Z) (p : proc) : Z * proc :=
  match fds p !! fd with
  | None => fails EBADF p
  | Some d =>
      match ofd_sink (fd_ofd d) with
      | None => fails EBADF p
      | Some id =>
          (Z.of_nat (length buf),
           set_written (<[id := default [] (written p !! id) ++ buf]> (written p)) p)
      end
  end.

(** The lowest descriptor number below the limit that is not open. *)
Fixpoint first_free (m : gmap Z fdesc) (k : Z) (n : nat) : option Z :=
  match n with
  | O => None
  | S n' =>
      match m !! k with
      | None => Some k
      | Some _ => first_free m (k + 1) n'
      end
  end.

Definition lowest_free (m : gmap Z fdesc) (lim : Z) : option Z :=
  first_free m 0 (Z.to_nat lim).

(** pipe(2): the two lowest free descriptors, read end first; EMFILE when
    the table has no room for both. *)
Definition sys_pipe (p : proc) : Z * option (Z * Z) * proc :=
  match lowest_free (fds p) (rlim_cur p) with
  | None => ((fails EMFILE p).1, None, (fails EMFILE p).2)
  | Some r =>
      let m1 := <[r := {| fd_ofd := PipeR (next_obj p); fd_cloexec := false |}]> (fds p) in
      match lowest_free m1 (rlim_cur p) with
      | None => ((fails EMFILE p).1, None, (fails EMFILE p).2)
      | Some w =>
          let m2 := <[w := {| fd_ofd := PipeW (next_obj p); fd_cloexec := false |}]> m1 in
          (0, Some (r, w),
           set_next_obj (next_obj p + 1)
             (set_written (<[next_obj p := []]> (written p)) (set_fds m2 p)))
      end
  end.

(** pthread_sigmask(SIG_SETMASK, &set, &old): stores the previous mask and
    installs the new one.  The call reports errors by a positive return
    value and has none for SIG_SETMASK. *)
Definition sys_pthread_sigmask (set : Z) (p : proc) : Z * Z * proc :=
  (0, sigmask p, set_sigmask set p).

Definition sigemptyset : Z := 0.
Definition sigfillset : Z := Z.ones 64.

(** sigaction(sig, &dfl, 0), the C library's: EINVAL for a number that is
    no signal, for the two signals whose disposition cannot change, and for
    the two signals glibc keeps for its own use. *)
Definition sys_sigaction_dfl (sig : Z) (p : proc) : Z * proc :=
  if (sig <=? 0) || (NSIG <=? sig) || (sig =? SIGKILL) || (sig =? SIGSTOP)
     || (sig =? SIGCANCEL) || (sig =? SIGSETXID)
  then fails EINVAL p
  else (0, log (EvSigDfl sig) p).

(** A call that touches nothing of the descriptor table: it fails as the
    environment says, and otherwise records its effect. *)
Definition env_call (c : call) (ret : Z) (ev : event) (p : proc) : Z * proc :=
  match fault p c with
  | Some e => fails e p
  | None => (ret, log ev p)
  end.

Definition sys_setsid (p : proc) : Z * proc :=
  env_call Setsid (Z.pos (self_pid p)) EvSetsid p.
Definition sys_setpgid (pid pgid : Z) (p : proc) : Z * proc :=
  env_call Setpgid 0 (EvSetpgid pid pgid) p.
Definition sys_ioctl_tiocsctty (fd : Z) (p : proc) : Z * proc :=
  env_call Ioctl 0 (EvTiocsctty fd) p.
Definition sys_setgid (g : Z) (p : proc) : Z * proc :=
  env_call Setgid 0 (EvSetgid g) p.
Definition sys_setreuid (r e : Z) (p : proc) : Z * proc :=
  env_call Setreuid 0 (EvSetreuid r e) p.
Definition sys_chdir (path : string) (p : proc) : Z * proc :=
  env_call Chdir 0 (EvChdir path) p.
Definition sys_waitpid (pid : Z) (p : proc) : Z * proc :=
  env_call Waitpid pid (EvWaitpid pid) p.

(** getrlimit(RLIMIT_NOFILE, &limits): the return value and [limits.rlim_cur]. *)
Definition sys_getrlimit (p : proc) : Z * Z * proc :=
  match fault p Getrlimit with
  | Some e => ((fails e p).1, 0, (fails e p).2)
  | None => (0, rlim_cur p, p)
  end.

(** calloc: [true] for a block, [false] for NULL. *)
Definition sys_calloc (p : proc) : bool * proc :=
  match fault p Calloc with
  | Some e => (false, set_errno (errno_val e) p)
  | None => (true, set_heap_blocks (S (heap_blocks p)) p)
  end.

Definition sys_free (p : proc) : proc :=
  set_heap_blocks (Nat.pred (heap_blocks p)) p.

(** execve(2) returns only when it fails.  On success the image is replaced:
    every close-on-exec descriptor is closed. *)
Definition exec_image (path : string) (argv envp : list string) (p : proc) : proc :=
  log (EvExecve path argv envp)
      (set_fds (filter (λ kv, fd_cloexec kv.2 = false) (fds p)) p).

Definition sys_execve (path : string) (argv envp : list string) (p : proc) : Z * proc :=
  match fault p Execve with
  | Some e => fails e p
  | None => (0, exec_image path argv envp p)
  end.

(** fork(2): -1 in the parent when it fails; otherwise the child's pid in
    the parent, and a child that starts as a copy of the parent sharing its
    open file descriptions. *)
Definition sys_fork (p : proc) : Z * proc * option proc :=
  match fault p Fork with
  | Some e => ((fails e p).1, (fails e p).2, None)
  | None =>
      (Z.pos (next_pid p),
       set_pids (self_pid p) (Pos.succ (next_pid p)) p,
       Some (set_trace [] (set_pids (next_pid p) (Pos.succ (next_pid p)) p)))
  end.

(** ** exec_command_attrs (include/exec_command.h) *)

Record exec_command_attrs := {
  setpgid : Z;   (* int *)
  pgid : Z;      (* pid_t *)
  setctty : Z;   (* int *)
  ctty : Z;      (* int *)
  setsid : Z;    (* int *)
  uid : Z;       (* uid_t *)
  gid : Z;       (* gid_t *)
  mask : Z       (* int *)
}.

(** [exec_command_attrs_init] assigns every field of [*attrs]. *)
Definition exec_command_attrs_init (attrs : exec_command_attrs) : exec_command_attrs :=
  {| setpgid := 0;
     pgid := 0;
     setsid := 0;
     setctty := 0;
     ctty := 0;
     mask := 0;
     uid := to_uint32 (-1);
     gid := to_uint32 (-1) |}.

Definition with_mask (m : Z) (a : exec_command_attrs) : exec_command_attrs :=
  {| setpgid := setpgid a; pgid := pgid a; setctty := setctty a; ctty := ctty a;
     setsid := setsid a; uid := uid a; gid := gid a; mask := m |}.

(** ** The child side: [child_handler]

    The function body is a sequence of calls, each followed by
    [goto fail] when it fails.  It is written in a state monad over the
    process and the locals the [fail] label reads ([fd_table], [syncfd]);
    [GotoFail] jumps to the label and keeps the state. *)

Record cstate := {
  cproc : proc;
  fd_index : Z;
  fd_table : option (list Z);   (* NULL, or the calloc'ed array *)
  syncfd : Z
}.

Definition set_cproc (p : proc) (s : cstate) : cstate :=
  {| cproc := p; fd_index := fd_index s; fd_table := fd_table s; syncfd := syncfd s |}.
Definition set_fd_index (k : Z) (s : cstate) : cstate :=
  {| cproc := cproc s; fd_index := k; fd_table := fd_table s; syncfd := syncfd s |}.
Definition set_fd_table (t : option (list Z)) (s : cstate) : cstate :=
  {| cproc := cproc s; fd_index := fd_index s; fd_table := t; syncfd := syncfd s |}.
Definition set_syncfd (k : Z) (s : cstate) : cstate :=
  {| cproc := cproc s; fd_index := fd_index s; fd_table := fd_table s; syncfd := k |}.

Inductive flow (A : Type) :=
  | Next (a : A)
  | GotoFail.
Arguments Next {A} a.
Arguments GotoFail {A}.

Definition C (A : Type) : Type := cstate -> flow A * cstate.

Definition ret {A} (a : A) : C A := fun s => (Next a, s).

Definition bind {A B} (m : C A) (k : A -> C B) : C B :=
  fun s =>
    match m s with
    | (Next a, s') => k a s'
    | (GotoFail, s') => (GotoFail, s')
    end.

Notation "x <- c1 ;; c2" := (bind c1 (fun x => c2))
  (at level 100, c1 at next level, right associativity).
Notation "c1 ;; c2" := (bind c1 (fun _ => c2))
  (at level 100, right associativity).

Definition goto_fail {A} : C A := fun s => (GotoFail, s).

(** [if (cond) goto fail;] *)
Definition fail_if (cond : bool) : C unit :=
  if cond then goto_fail else ret tt.

(** A system call made by the child. *)
Definition sys (f : proc -> Z * proc) : C Z :=
  fun s => (Next (f (cproc s)).1, set_cproc (f (cproc s)).2 s).

(** A call that also fills an output argument. *)
Definition sys_out {B} (f : proc -> Z * B * proc) : C (Z * B) :=
  fun s => (Next (f (cproc s)).1, set_cproc (f (cproc s)).2 s).

Definition get_errno : C Z := fun s => (Next (errno (cproc s)), s).
Definition get_fd_index : C Z := fun s => (Next (fd_index s), s).
Definition put_fd_index (k : Z) : C unit := fun s => (Next tt, set_fd_index k s).
Definition get_syncfd : C Z := fun s => (Next (syncfd s), s).
Definition put_syncfd (k : Z) : C unit := fun s => (Next tt, set_syncfd k s).

(** [a[i]] for an index inside the array. *)
Definition array_get (a : list Z) (i : Z) : Z := default 0 (a !! Z.to_nat i).

Definition load_fd_table (i : Z) : C Z :=
  fun s => (Next (array_get (default [] (fd_table s)) i), s).
Definition store_fd_table (i v : Z) : C unit :=
  fun s => (Next tt, set_fd_table ((λ t, <[Z.to_nat i := v]> t) <$> fd_table s) s).

(** [for (i = lo; i < hi; i++) body] *)
Fixpoint for_loop (n : nat) (i : Z) (body : Z -> C unit) : C unit :=
  match n with
  | O => ret tt
  | S n' => body i ;; for_loop n' (i + 1) body
  end.

Definition for_range (lo hi : Z) (body : Z -> C unit) : C unit :=
  for_loop (Z.to_nat (hi - lo)) lo body.

Arguments for_loop : simpl never.
Arguments for_range : simpl never.

(** [fd_table = calloc(n, sizeof(int))]: the pointer is NULL when the
    allocation fails, and the block is zeroed. *)
Definition calloc_fd_table (n : Z) : C bool :=
  fun s =>
    (Next (sys_calloc (cproc s)).1,
     set_fd_table (if (sys_calloc (cproc s)).1
                   then Some (replicate (Z.to_nat n) 0) else None)
       (set_cproc (sys_calloc (cproc s)).2 s)).

(** Lines 59-64: the scratch copy of the request list. *)
Definition alloc_fd_table (file_handle_count : Z) : C unit :=
  if 0 <? file_handle_count then
    ok <- calloc_fd_table file_handle_count ;;
    fail_if (negb ok)
  else ret tt.

(** Lines 66-83: close the parent's end, default dispositions, empty mask. *)
Definition reset_signals (sync_pipes : Z * Z) : C unit :=
  r <- sys (sys_close sync_pipes.1) ;;
  fail_if (r <? 0) ;;
  for_range 0 NSIG (fun i => _ <- sys (sys_sigaction_dfl i) ;; ret tt) ;;
  r <- sys_out (sys_pthread_sigmask sigemptyset) ;;
  fail_if (r.1 <? 0).

(** Lines 133-139: the highest requested descriptor, and the copy. *)
Definition find_highest (file_handles : list Z) (file_handle_count : Z) : C unit :=
  for_range 0 file_handle_count (fun i =>
    k <- get_fd_index ;;
    (if k <? array_get file_handles i
     then put_fd_index (array_get file_handles i) else ret tt) ;;
    store_fd_table i (array_get file_handles i)).

(** Lines 140-158: the sync pipe moves right above the highest one. *)
Definition move_syncfd : C unit :=
  k <- get_fd_index ;;
  put_fd_index (k + 1) ;;
  s <- get_syncfd ;;
  k <- get_fd_index ;;
  (if negb (s =? k) then
     r <- sys (sys_dup2 s k) ;;
     fail_if (r <? 0) ;;
     r <- sys (sys_close s) ;;
     fail_if (r <? 0) ;;
     put_syncfd k
   else ret tt) ;;
  k <- get_fd_index ;;
  put_fd_index (k + 1) ;;
  s <- get_syncfd ;;
  r <- sys (sys_fcntl_setfd s FD_CLOEXEC) ;;
  fail_if (r =? -1).

(** Lines 160-173: every source that is not in place moves above the pipe. *)
Definition lift_sources (file_handle_count : Z) : C unit :=
  for_range 0 file_handle_count (fun i =>
    v <- load_fd_table i ;;
    if v =? i then ret tt
    else
      k <- get_fd_index ;;
      r <- sys (sys_dup2 v k) ;;
      fail_if (r <? 0) ;;
      r <- sys (sys_fcntl_setfd k FD_CLOEXEC) ;;
      fail_if (r =? -1) ;;
      store_fd_table i k ;;
      put_fd_index (k + 1)).

(** Lines 175-187: the final table, position by position. *)
Definition place_sources (file_handle_count : Z) : C unit :=
  for_range 0 file_handle_count (fun i =>
    v <- load_fd_table i ;;
    (if negb (v =? i) then
       r <- sys (sys_dup2 v i) ;;
       fail_if (r <? 0)
     else ret tt) ;;
    r <- sys (sys_fcntl_setfd i 0) ;;
    fail_if (r =? -1)).

(** Lines 189-204: session, process group, controlling terminal. *)
Definition apply_session (attrs : exec_command_attrs) : C unit :=
  (if negb (setsid attrs =? 0) then
     r <- sys sys_setsid ;;
     fail_if (r =? -1)
   else ret tt) ;;
  (if negb (setpgid attrs =? 0) then
     r <- sys (sys_setpgid 0 (pgid attrs)) ;;
     fail_if (r <? 0)
   else ret tt) ;;
  (if negb (setctty attrs =? 0) then
     r <- sys (sys_ioctl_tiocsctty (ctty attrs)) ;;
     fail_if (negb (r =? 0))
   else ret tt).

(** Lines 206-215: close-on-exec from [file_handle_count] up to the limit,
    the limit included.  The test [i <= limits.rlim_cur] compares the [int]
    with an unsigned [rlim_t]: a negative [i] is taken for a number beyond
    every limit, so with a negative count the loop does not run. *)
Definition cloexec_rest (file_handle_count : Z) : C unit :=
  lim <- sys_out sys_getrlimit ;;
  fail_if (lim.1 <? 0) ;;
  if file_handle_count <? 0 then ret tt
  else
    for_range file_handle_count (lim.2 + 1) (fun i =>
      r <- sys (sys_fcntl_setfd i FD_CLOEXEC) ;;
      e <- get_errno ;;
      fail_if ((r =? -1) && negb (e =? errno_val EBADF))).

(** Lines 217-235: group id, then user id, then working directory. *)
Definition apply_identity (cwd : option string) (attrs : exec_command_attrs) : C unit :=
  (if negb (gid attrs =? to_uint32 (-1)) then
     r <- sys (sys_setgid (gid attrs)) ;;
     fail_if (negb (r =? 0))
   else ret tt) ;;
  (if negb (uid attrs =? to_uint32 (-1)) then
     r <- sys (sys_setreuid (uid attrs) (uid attrs)) ;;
     fail_if (negb (r =? 0))
   else ret tt) ;;
  match cwd with
  | Some dir =>
      r <- sys (sys_chdir dir) ;;
      fail_if (negb (r =? 0))
  | None => ret tt
  end.

(** Lines 59-158: the child up to the point where the sync pipe has moved. *)
Definition child_sync_moved (sync_pipes : Z * Z) (file_handles : list Z)
    (file_handle_count : Z) : C unit :=
  alloc_fd_table file_handle_count ;;
  reset_signals sync_pipes ;;
  find_highest file_handles file_handle_count ;;
  move_syncfd.

(** Lines 59-215: the child up to the end of the renumbering. *)
Definition child_renumbered (sync_pipes : Z * Z) (file_handles : list Z)
    (file_handle_count : Z) (attrs : exec_command_attrs) : C unit :=
  child_sync_moved sync_pipes file_handles file_handle_count ;;
  lift_sources file_handle_count ;;
  place_sources file_handle_count ;;
  apply_session attrs ;;
  cloexec_rest file_handle_count.

(** Lines 59-235, everything before [execve]. *)
Definition child_steps (sync_pipes : Z * Z) (file_handles : list Z)
    (file_handle_count : Z) (cwd : option string)
    (attrs : exec_command_attrs) : C unit :=
  child_renumbered sync_pipes file_handles file_handle_count attrs ;;
  apply_identity cwd attrs.

(** How the child leaves [child_handler]: in the new image, or in a call of
    [exit], or not at all.  [Exited status p]: [exit(status)] was called
    with the process in state [p]; what [exit] itself does before the
    process is gone (stdio buffers inherited from the parent are flushed,
    [atexit] handlers run) is the C library's and not part of [p]. *)
Inductive child_result :=
  | Execed (p : proc)               (* the new program image runs *)
  | Exited (status : Z) (p : proc)  (* exit(status) was called *)
  | Spinning (p : proc).            (* still in the write loop *)

Definition child_proc (c : child_result) : proc :=
  match c with Execed p | Exited _ p | Spinning p => p end.

(** Line 245: [while (write(fd, buf, n) < 0) ;], for at most [fuel] calls.
    [true]: the loop was left. *)
Fixpoint write_retry (fuel : nat) (fd : Z) (buf : list Z) (p : proc) : bool * proc :=
  match fuel with
  | O => (false, p)
  | S fuel' =>
      if (sys_write fd buf p).1 <? 0
      then write_retry fuel' fd buf (sys_write fd buf p).2
      else (true, (sys_write fd buf p).2)
  end.

(** Lines 238-248, the [fail] label, up to the call of [exit(127)]. *)
Definition child_fail (fuel : nat) (s : cstate) : child_result :=
  let p1 := match fd_table s with
            | Some _ => sys_free (cproc s)
            | None => cproc s
            end in
  let err := errno p1 in
  if negb (err =? 0) then
    match write_retry fuel (syncfd s) (int_bytes err) p1 with
    | (true, p2) => Exited 127 p2
    | (false, p2) => Spinning p2
    end
  else Exited 127 p1.

Definition child_entry (sync_pipes : Z * Z) (p : proc) : cstate :=
  {| cproc := p; fd_index := 0; fd_table := None; syncfd := sync_pipes.2 |}.

(** [child_handler] never returns: the child either runs the new image or
    leaves through the [fail] label, which [execve] falls into when it
    returns. *)
Definition child_handler (fuel : nat) (sync_pipes : Z * Z) (executable : string)
    (args environment : list string) (file_handles : list Z)
    (file_handle_count : Z) (cwd : option string) (old_mask : Z)
    (attrs : exec_command_attrs) (p : proc) : child_result :=
  match child_steps sync_pipes file_handles file_handle_count cwd attrs
          (child_entry sync_pipes p) with
  | (Next _, s) =>
      if (sys_execve executable args environment (cproc s)).1 <? 0
      then child_fail fuel
             (set_cproc (sys_execve executable args environment (cproc s)).2 s)
      else Execed (sys_execve executable args environment (cproc s)).2
  | (GotoFail, s) => child_fail fuel s
  end.

(** ** The parent side: [exec_command] *)

(** Whether the child still holds a descriptor of the description [o] once
    it has run: an exited process holds none. *)
Definition child_holds (o : ofd) (c : child_result) : bool :=
  match c with
  | Exited _ _ => false
  | Execed p | Spinning p =>
      bool_decide (map_Exists (λ _ d, fd_ofd d = o) (fds p))
  end.

(** The parent's blocking [read(fd, buf, count)] on the sync pipe, the child
    having run to [c].  It returns the bytes the child wrote, or 0 at end of
    file, which takes every write end to be closed: the parent has closed its
    own, so while the child still holds one and has written nothing the read
    does not return ([None]). *)
Definition sys_read_sync (fd : Z) (count : nat) (c : child_result) (p : proc)
    : option (Z * list Z * proc) :=
  match fds p !! fd with
  | None => Some ((fails EBADF p).1, [], (fails EBADF p).2)
  | Some d =>
      match fd_ofd d with
      | PipeR id =>
          match take count (default [] (written (child_proc c) !! id)) with
          | [] =>
              if child_holds (PipeW id) c then None
              else Some (0, [], log (EvRead fd 0) p)
          | got => Some (Z.of_nat (length got), got,
                         log (EvRead fd (Z.of_nat (length got))) p)
          end
      | PipeW _ => Some ((fails EBADF p).1, [], (fails EBADF p).2)
      | File _ _ => Some (0, [], log (EvRead fd 0) p)
      end
  end.

(** Lines 316-324, the [fail] label of [exec_command]: the return value,
    [*result] and the process. *)
Definition exec_command_fail (old_mask err result : Z) (p : proc) : Z * Z * proc :=
  let p1 := if (sys_pthread_sigmask old_mask p).1.1 <? 0
            then log (EvPrintfSigmask (errno p)) (sys_pthread_sigmask old_mask p).2
            else (sys_pthread_sigmask old_mask p).2 in
  if negb (err =? 0) then (-1, result, log (EvPrintfExecve err) p1)
  else (0, result, p1).

(** Lines 285-315, the parent after [fork].  [err] starts as 0 and [read]
    overwrites as many of its bytes as it returns. *)
Definition exec_command_parent (sync_pipe : Z * Z) (pid old_mask result : Z)
    (c : child_result) (p : proc) : option (Z * Z * proc) :=
  if (sys_close sync_pipe.2 p).1 <? 0
  then Some (exec_command_fail old_mask 0 result (sys_close sync_pipe.2 p).2)
  else
    match sys_read_sync sync_pipe.1 4 c (sys_close sync_pipe.2 p).2 with
    | None => None
    | Some (size, got, p2) =>
        let err := bytes_int (got ++ drop (length got) (int_bytes 0)) in
        let err' := if negb (size =? 4) then 0 else err in
        let p3 := if negb (size =? 4) then p2
                  else (sys_waitpid pid (set_errno err p2)).2 in
        if (sys_close sync_pipe.1 p3).1 <? 0
        then Some (exec_command_fail old_mask err' result (sys_close sync_pipe.1 p3).2)
        else if negb (err' =? 0)
        then Some (exec_command_fail old_mask err' result (sys_close sync_pipe.1 p3).2)
        else Some (exec_command_fail old_mask 0 pid (sys_close sync_pipe.1 p3).2)
    end.

(** What a call of [exec_command] leaves behind: in the calling process the
    return value, [*result] and the state ([None]: the call does not
    return), and the child when one was forked. *)
Record spawn := {
  parent : option (Z * Z * proc);
  child : option child_result
}.

(** [exec_command].  [old_mask] is the indeterminate initial content of the
    local [old_mask], [result] the content of [*result] before the call. *)
Definition exec_command (fuel : nat) (old_mask : Z) (result : Z)
    (executable : string) (args envp : list string) (file_handles : list Z)
    (file_handle_count : Z) (working_directory : option string)
    (attrs : exec_command_attrs) (p : proc) : spawn :=
  let err := 0 in
  let all := sigfillset in
  match sys_pipe p with
  | (_, None, p1) =>
      (* pipe() returned non-zero *)
      {| parent := Some (exec_command_fail old_mask err result p1); child := None |}
  | (_, Some sync_pipe, p1) =>
      if (sys_pthread_sigmask all p1).1.1 <? 0
      then {| parent := Some (exec_command_fail old_mask err result
                                (sys_pthread_sigmask all p1).2);
              child := None |}
      else
        let old_mask := (sys_pthread_sigmask all p1).1.2 in
        let p2 := (sys_pthread_sigmask all p1).2 in
        match sys_fork p2 with
        | (_, p3, None) =>
            (* pid == -1 *)
            let p4 := (sys_close sync_pipe.1 p3).2 in
            let p5 := (sys_close sync_pipe.2 p4).2 in
            {| parent := Some (exec_command_fail old_mask err result p5);
               child := None |}
        | (pid, p3, Some cp) =>
            (* pid == 0 in the child, which never leaves child_handler *)
            let c := child_handler fuel sync_pipe executable args envp
                       file_handles file_handle_count working_directory
                       old_mask attrs cp in
            {| parent := exec_command_parent sync_pipe pid old_mask result c p3;
               child := Some c |}
        end
  end.

(** ** Predicates used in the statements *)

(** [errno] holds the code of a failed call. *)
Definition errno_set (p : proc) : Prop := exists e, errno p = errno_val e.

(** What the child's calls leave alone: the bytes written so far, the
    descriptor limit and the environment.  [pframe_sig] adds the signal
    mask, [pframe_fds] is about the descriptor table and the mask. *)
Definition pframe (p p' : proc) : Prop :=
  written p' = written p /\ rlim_cur p' = rlim_cur p /\ fault p' = fault p.

Definition pframe_sig (p p' : proc) : Prop :=
  pframe p p' /\ sigmask p' = sigmask p.

Definition pframe_fds (p p' : proc) : Prop :=
  pframe_sig p p' /\ fds p' = fds p.

(** A relation between processes, read on the child's states. *)
Definition lift_rel (Rp : proc -> proc -> Prop) (s s' : cstate) : Prop :=
  Rp (cproc s) (cproc s').

(** [m] relates every state to the state it leaves, whether it falls
    through or jumps to [fail]. *)
Definition preserves {A} (R : cstate -> cstate -> Prop) (m : C A) : Prop :=
  forall s, R s (m s).2.

(** A jump to [fail] out of [m] finds the code of the failed call in
    [errno]. *)
Definition fails_with_errno {A} (m : C A) : Prop :=
  forall s s', m s = (GotoFail, s') -> errno_set (cproc s').

(** The convention of a system call: -1 and an errno code, or a result that
    is not negative ([posix0]: that is 0). *)
Definition posix (rp : Z * proc) : Prop :=
  (rp.1 = -1 /\ errno_set rp.2) \/ 0 <= rp.1.

Definition posix0 (rp : Z * proc) : Prop :=
  (rp.1 = -1 /\ errno_set rp.2) \/ rp.1 = 0.

(** The file or pipe that takes the bytes written to descriptor [fd]:
    [None] when [fd] is not open for writing. *)
Definition fd_sink (p : proc) (fd : Z) : option Z :=
  match fds p !! fd with
  | Some d => ofd_sink (fd_ofd d)
  | None => None
  end.

(** The bytes in pipe (or file) [id] once the child has run. *)
Definition pipe_data (id : Z) (c : child_result) : list Z :=
  default [] (written (child_proc c) !! id).

(** The process at the [fail] label once [fd_table] has been freed. *)
Definition released (s : cstate) : proc :=
  match fd_table s with
  | Some _ => sys_free (cproc s)
  | None => cproc s
  end.

(** The highest descriptor of a request list, 0 for the empty list: the
    value of [fd_index] after the loop of lines 134-139. *)
Definition max_fd (file_handles : list Z) : Z := foldr Z.max 0 file_handles.

(** No descriptor is open above the limit. *)
Definition within_limit (p : proc) : Prop :=
  forall k d, fds p !! k = Some d -> k <= rlim_cur p.

#[global] Instance within_limit_dec (p : proc) : Decision (within_limit p).
Proof.
  change (Decision (map_Forall (λ k (_ : fdesc), k <= rlim_cur p) (fds p))).
  apply _.
Defined.

(** A call keeps the descriptors within the limit. *)
Definition plimit (p p' : proc) : Prop := within_limit p -> within_limit p'.

(** Where the source [h] of position [i] is after the first pass (lines
    160-173), [v] being the entry of [fd_table]: still on [h], which is [i]
    itself, or copied to a close-on-exec descriptor above both [i] and the
    pipe.  [F0] is the table before the pass and [F] the table after it. *)
Definition lifted (F0 F : gmap Z fdesc) (M i h v : Z) : Prop :=
  (v = h /\ h = i) \/
  (exists d, i < v /\ M + 2 <= v /\ F0 !! h = Some d /\
             F !! v = Some {| fd_ofd := fd_ofd d; fd_cloexec := true |}).

(** ** Sample processes used by the examples *)

Definition no_fault : call -> option errno_code := fun _ => None.

Definition execve_enoent : call -> option errno_code :=
  fun c => match c with Execve => Some ENOENT | _ => None end.

Definition fork_eagain : call -> option errno_code :=
  fun c => match c with Fork => Some EAGAIN | _ => None end.

Definition fd_ro (id : Z) : fdesc := {| fd_ofd := File id false; fd_cloexec := false |}.
Definition fd_rw (id : Z) : fdesc := {| fd_ofd := File id true; fd_cloexec := false |}.

(** A process with a terminal on 0, 1 and 2 (0 read-only) and a file on 5;
    signals 1 and 3 are blocked. *)
Definition sample_proc (lim : Z) (f : call -> option errno_code) : proc :=
  {| fds := list_to_map [(0, fd_ro 100); (1, fd_rw 101); (2, fd_rw 101); (5, fd_rw 102)];
     errno := 0; sigmask := 5; rlim_cur := lim; heap_blocks := 0;
     written := ∅; next_obj := 200; self_pid := 10; next_pid := 11;
     fault := f; trace := [] |}.

(** The same process with exactly one free descriptor left under its limit. *)
Definition crowded_proc : proc := sample_proc 4 no_fault.

Definition sample_attrs : exec_command_attrs :=
  exec_command_attrs_init
    {| setpgid := 1; pgid := 1; setctty := 1; ctty := 1; setsid := 1;
       uid := 1; gid := 1; mask := 1 |}.

(** A child state at the [fail] label: ENOENT in [errno], the table
    allocated, the pipe's write end on descriptor 6. *)
Definition sample_fail_state : cstate :=
  {| cproc :=
       {| fds := list_to_map
                   [(0, fd_rw 102); (6, {| fd_ofd := PipeW 200; fd_cloexec := true |})];
          errno := errno_val ENOENT; sigmask := 0; rlim_cur := 32;
          heap_blocks := 1; written := {[ 200 := [] ]}; next_obj := 201;
          self_pid := 11; next_pid := 12; fault := execve_enoent; trace := [] |};
     fd_index := 8; fd_table := Some [7]; syncfd := 6 |}.

(** The child that [exec_command] forks in [sample_proc]: the pipe is on
    descriptors 3 and 4 and every signal is blocked. *)
Definition forked_child (p : proc) : proc :=
  match sys_pipe p with
  | (_, Some _, p1) =>
      match sys_fork (sys_pthread_sigmask sigfillset p1).2 with
      | (_, _, Some cp) => cp
      | _ => p
      end
  | _ => p
  end.

Definition sample_child : proc := forked_child (sample_proc 32 no_fault).

(** A child whose descriptor limit (16) was lowered below a descriptor it
    holds (20); the pipe is on 3 and 4. *)
Definition stretched_child : proc :=
  {| fds := list_to_map
              [(0, fd_ro 100); (1, fd_rw 101); (2, fd_rw 101); (5, fd_rw 102);
               (3, {| fd_ofd := PipeR 200; fd_cloexec := false |});
               (4, {| fd_ofd := PipeW 200; fd_cloexec := false |});
               (20, fd_rw 103)];
     errno := 0; sigmask := Z.ones 64; rlim_cur := 16; heap_blocks := 0;
     written := {[ 200 := [] ]}; next_obj := 201; self_pid := 11; next_pid := 12;
     fault := no_fault; trace := [] |}.

(** ** Predicates and samples for the further properties *)

(** The calls of lines 189-204 that the attributes ask for, in the order
    of the source, as the events they leave when they succeed. *)
Definition session_calls (attrs : exec_command_attrs) : list event :=
  (if setsid attrs =? 0 then [] else [EvSetsid]) ++
  (if setpgid attrs =? 0 then [] else [EvSetpgid 0 (pgid attrs)]) ++
  (if setctty attrs =? 0 then [] else [EvTiocsctty (ctty attrs)]).

(** The same for lines 217-235. *)
Definition identity_calls (cwd : option string) (attrs : exec_command_attrs)
    : list event :=
  (if gid attrs =? to_uint32 (-1) then [] else [EvSetgid (gid attrs)]) ++
  (if uid attrs =? to_uint32 (-1) then [] else [EvSetreuid (uid attrs) (uid attrs)]) ++
  match cwd with Some dir => [EvChdir dir] | None => [] end.

(** The call an event comes from. *)
Definition event_call (ev : event) : option call :=
  match ev with
  | EvSetsid => Some Setsid
  | EvSetpgid _ _ => Some Setpgid
  | EvTiocsctty _ => Some Ioctl
  | EvSetgid _ => Some Setgid
  | EvSetreuid _ _ => Some Setreuid
  | EvChdir _ => Some Chdir
  | EvExecve _ _ _ => Some Execve
  | EvWaitpid _ => Some Waitpid
  | EvSigDfl _ | EvRead _ _ | EvPrintfSigmask _ | EvPrintfExecve _ => None
  end.

(** [calls] were made in order on [p], all with success, leaving [p']. *)
Definition made_all (calls : list event) (p p' : proc) : Prop :=
  trace p' = rev calls ++ trace p /\
  errno p' = errno p /\
  Forall (fun ev => exists c, event_call ev = Some c /\ fault p c = None) calls.

(** [calls] were made in order on [p] up to the first one that failed,
    which left its code in [errno]; the calls after it were not made. *)
Definition stopped_in (calls : list event) (p p' : proc) : Prop :=
  exists done ev rest c e,
    calls = done ++ ev :: rest /\
    trace p' = rev done ++ trace p /\
    Forall (fun ev => exists c, event_call ev = Some c /\ fault p c = None) done /\
    event_call ev = Some c /\ fault p c = Some e /\
    errno p' = errno_val e.

(** A child whose group id is refused. *)
Definition setgid_eperm : call -> option errno_code :=
  fun c => match c with Setgid => Some EPERM | _ => None end.

Definition sample_identity : exec_command_attrs :=
  {| setpgid := 1; pgid := 0; setctty := 0; ctty := 0; setsid := 1;
     uid := 501; gid := 20; mask := 0 |}.

(** A new session with its own user and group; no process group is asked
    for, a session leader being the leader of its group already. *)
Definition sample_leader : exec_command_attrs :=
  {| setpgid := 0; pgid := 0; setctty := 0; ctty := 0; setsid := 1;
     uid := 501; gid := 20; mask := 0 |}.

Definition sample_state (f : call -> option errno_code) : cstate :=
  {| cproc := sample_proc 32 f; fd_index := 0; fd_table := None; syncfd := 4 |}.

(** The signals whose disposition [sigaction] sets: every number from 1 to
    [NSIG - 1] but SIGKILL, SIGSTOP and the two glibc keeps, in increasing
    order. *)
Definition settable_signals : list Z :=
  filter (fun sig => sig <> SIGKILL /\ sig <> SIGSTOP /\
                     sig <> SIGCANCEL /\ sig <> SIGSETXID)
    (seqZ 1 (NSIG - 1)).

(** A call leaves no event. *)
Definition pquiet (p p' : proc) : Prop := trace p' = trace p.

(** Every open descriptor is a number from 0 to the limit. *)
Definition in_range (p : proc) : Prop :=
  forall k d, fds p !! k = Some d -> 0 <= k <= rlim_cur p.

#[global] Instance in_range_dec (p : proc) : Decision (in_range p).
Proof.
  change (Decision (map_Forall (λ k (_ : fdesc), 0 <= k <= rlim_cur p) (fds p))).
  apply _.
Defined.

(** A call keeps the descriptors in range. *)
Definition prange (p p' : proc) : Prop := in_range p -> in_range p'.

(** A command leaves the local [syncfd] alone. *)
Definition keeps_syncfd {A} (m : C A) : Prop :=
  forall s, syncfd (m s).2 = syncfd s.

(** A jump to [fail] out of [m] finds EBADF in [errno]. *)
Definition fails_with_ebadf {A} (m : C A) : Prop :=
  forall s s', m s = (GotoFail, s') -> errno (cproc s') = errno_val EBADF.

(** How many sources of a request list are not already on their position,
    the list starting at position [i]: the copies the first pass makes. *)
Fixpoint moved_from (i : Z) (file_handles : list Z) : Z :=
  match file_handles with
  | [] => 0
  | h :: rest => (if h =? i then 0 else 1) + moved_from (i + 1) rest
  end.

Definition moved (file_handles : list Z) : Z := moved_from 0 file_handles.

(** Descriptor [syncfd] of the child takes the bytes of pipe [id]. *)
Definition sync_at (id : Z) (s : cstate) : Prop :=
  fd_sink (cproc s) (syncfd s) = Some id.

(** A call leaves what descriptor [fd] writes to as it is. *)
Definition psink_at (fd : Z) (p p' : proc) : Prop := fd_sink p' fd = fd_sink p fd.

(** The kernel object behind an open file description. *)
Definition ofd_id (o : ofd) : Z :=
  match o with File id _ | PipeR id | PipeW id => id end.

(** Every open description is an object that exists: the kernel numbers
    its objects from below [next_obj]. *)
Definition objects_known (p : proc) : Prop :=
  forall k d, fds p !! k = Some d -> ofd_id (fd_ofd d) < next_obj p.

#[global] Instance objects_known_dec (p : proc) : Decision (objects_known p).
Proof.
  change (Decision (map_Forall (λ (_ : Z) d, ofd_id (fd_ofd d) < next_obj p) (fds p))).
  apply _.
Defined.

(** No descriptor of [p] but [fd] refers to the write end of pipe [id]. *)
Definition writers_at (id fd : Z) (p : proc) : Prop :=
  forall k d, fds p !! k = Some d -> fd_ofd d = PipeW id -> k = fd.

(** A call makes no other descriptor than [fd] one of the write end. *)
Definition pwriters (id fd : Z) (p p' : proc) : Prop :=
  writers_at id fd p -> writers_at id fd p'.

(** The write end of pipe [id] is reachable through [syncfd] at most. *)
Definition only_sync (id : Z) (s : cstate) : Prop :=
  writers_at id (syncfd s) (cproc s).

(** A child whose [waitpid] would be refused: with SIGCHLD ignored the
    kernel reaps the children itself. *)
Definition enoent_echild : call -> option errno_code :=
  fun c => match c with Execve => Some ENOENT | Waitpid => Some ECHILD | _ => None end.

(** ** vminitd/Sources/LCShim/syscall2.c

    [syscall2] passes a system call number and two arguments to the C
    library's [syscall], which returns a [long], and returns that value as
    an [int]: on the 64-bit targets of the project the conversion keeps the
    low 32 bits.  The kernel is a parameter here: [syscall] is any function
    from the three numbers and the state of the world to a [long] and a new
    state. *)
Section LCShim.
Variable world : Type.
Variable syscall : Z -> Z -> Z -> world -> Z * world.

Definition syscall2 (number arg1 arg2 : Z) (w : world) : Z * world :=
  (to_int32 (syscall number arg1 arg2 w).1, (syscall number arg1 arg2 w).2).

End LCShim.

(** A kernel whose call returns its first argument. *)
Definition echo_kernel (number arg1 arg2 : Z) (w : unit) : Z * unit := (arg1, w).


(** * Results *)

(** ** exec_command_attrs_init *)

(** C7 (as stated, refuted): after [exec_command_attrs_init] the process
    group id and the controlling terminal descriptor are 0, not -1. *)
Lemma attrs_init_pgid_ctty_are_zero :
  pgid sample_attrs = 0 /\ ctty sample_attrs = 0 /\
  pgid sample_attrs <> -1 /\ ctty sample_attrs <> -1.
Proof. repeat split; discriminate. Qed.

(** C7 (amended): [exec_command_attrs_init] sets the three flags to 0
    (false), the process group id and the controlling terminal descriptor to
    0, the user id and the group id to [(uid_t)-1] = 4294967295, the value
    [child_handler] compares with -1, and the mask to 0. *)
Theorem attrs_init_defaults (a : exec_command_attrs) :
  setpgid (exec_command_attrs_init a) = 0 /\
  setsid (exec_command_attrs_init a) = 0 /\
  setctty (exec_command_attrs_init a) = 0 /\
  pgid (exec_command_attrs_init a) = 0 /\
  ctty (exec_command_attrs_init a) = 0 /\
  uid (exec_command_attrs_init a) = 4294967295 /\
  gid (exec_command_attrs_init a) = 4294967295 /\
  uid (exec_command_attrs_init a) = to_uint32 (-1) /\
  gid (exec_command_attrs_init a) = to_uint32 (-1) /\
  mask (exec_command_attrs_init a) = 0.
Proof. repeat split. Qed.

(** ** The parent side *)

Lemma exec_command_fail_eq old_mask err result p :
  exec_command_fail old_mask err result p =
  if negb (err =? 0)
  then (-1, result, log (EvPrintfExecve err) (set_sigmask old_mask p))
  else (0, result, set_sigmask old_mask p).
Proof. reflexivity. Qed.

Lemma exec_command_fail_sigmask old_mask err result p :
  sigmask (exec_command_fail old_mask err result p).2 = old_mask.
Proof. rewrite exec_command_fail_eq. by destruct (negb (err =? 0)). Qed.

Lemma first_free_spec m k n r :
  first_free m k n = Some r ->
  m !! r = None /\ k <= r < k + Z.of_nat n.
Proof.
  revert k. induction n as [|n IH]; intros k; simpl; [done|].
  destruct (m !! k) eqn:E.
  - intros H. apply IH in H as [? ?]. split; [done | lia].
  - intros [= <-]. split; [done | lia].
Qed.

(** What a successful [pipe] leaves: two distinct descriptors that were
    free, the read end and the write end of a fresh, empty pipe. *)
Lemma sys_pipe_ok p r rfd wfd p1 :
  sys_pipe p = (r, Some (rfd, wfd), p1) ->
  r = 0 /\ rfd <> wfd /\
  fds p !! rfd = None /\ fds p !! wfd = None /\
  fds p1 = <[wfd := {| fd_ofd := PipeW (next_obj p); fd_cloexec := false |}]>
             (<[rfd := {| fd_ofd := PipeR (next_obj p); fd_cloexec := false |}]> (fds p)) /\
  written p1 = <[next_obj p := []]> (written p) /\
  sigmask p1 = sigmask p /\ errno p1 = errno p /\ trace p1 = trace p /\
  fault p1 = fault p /\ next_pid p1 = next_pid p /\ rlim_cur p1 = rlim_cur p.
Proof.
  unfold sys_pipe, lowest_free.
  destruct (first_free (fds p) 0 _) as [r0|] eqn:E1; [|done].
  destruct (first_free (<[r0:=_]> (fds p)) 0 _) as [w0|] eqn:E2; [|done].
  intros [= <- <- <- <-].
  apply first_free_spec in E1 as [E1 _]. apply first_free_spec in E2 as [E2 _].
  apply lookup_insert_None in E2 as [E2 Hne].
  repeat split; done.
Qed.

Lemma sys_pipe_failed p r p1 :
  sys_pipe p = (r, None, p1) ->
  r = -1 /\ p1 = set_errno (errno_val EMFILE) p.
Proof.
  unfold sys_pipe.
  destruct (lowest_free (fds p) _) as [r0|]; [|by intros [= <- <-]].
  destruct (lowest_free (<[r0:=_]> (fds p)) _); [done | by intros [= <- <-]].
Qed.

Lemma sys_fork_ok p r p3 cp :
  sys_fork p = (r, p3, Some cp) ->
  fault p Fork = None /\ r = Z.pos (next_pid p) /\
  p3 = set_pids (self_pid p) (Pos.succ (next_pid p)) p /\
  cp = set_trace [] (set_pids (next_pid p) (Pos.succ (next_pid p)) p).
Proof.
  unfold sys_fork. destruct (fault p Fork) as [e|]; [done|].
  by intros [= <- <- <-].
Qed.

(** Every way out of the parent's half goes through the [fail] label, with
    [*result] untouched unless [err] is 0 and the child's pid is stored. *)
Lemma exec_command_parent_shape sync_pipe pid old_mask result c p out :
  exec_command_parent sync_pipe pid old_mask result c p = Some out ->
  exists err px,
    out = exec_command_fail old_mask err result px \/
    out = exec_command_fail old_mask 0 pid px.
Proof.
  unfold exec_command_parent.
  destruct (_ <? 0); [intros [= <-]; by eexists _, _; left|].
  destruct (sys_read_sync _ _ _ _) as [[[size got] p2]|]; [|done].
  destruct (_ <? 0); [intros [= <-]; by eexists _, _; left|].
  destruct (negb (_ =? 0)); intros [= <-];
    [eexists _, _; by left | eexists 0, _; by right].
Qed.

Lemma exec_command_shape fuel old_mask result exe args envp fh n wd attrs p out :
  parent (exec_command fuel old_mask result exe args envp fh n wd attrs p) = Some out ->
  exists om err px,
    out = exec_command_fail om err result px \/
    out = exec_command_fail om 0 (Z.pos (next_pid p)) px.
Proof.
  unfold exec_command.
  destruct (sys_pipe p) as [[r [sp|]] p1] eqn:Hpipe; simpl;
    [|intros [= <-]; by eexists _, _, _; left].
  destruct (sys_fork _) as [[pid p3] [cp|]] eqn:Hfork; simpl;
    [|intros [= <-]; by eexists _, _, _; left].
  intros H. apply exec_command_parent_shape in H as (err & px & H).
  apply sys_fork_ok in Hfork as (_ & -> & _ & _). simpl in H.
  destruct sp as [rfd wfd].
  apply sys_pipe_ok in Hpipe as (_ & _ & _ & _ & _ & _ & _ & _ & _ & _ & Hp & _).
  rewrite Hp in H.
  destruct H as [H|H]; [eexists _, _, _; left; exact H | eexists _, 0, _; right; exact H].
Qed.

(** C10: [exec_command] returns 0 or -1; when it returns -1 the content of
    [*result] is what it was before the call, and whenever [*result] has
    changed the return value is 0. *)
Theorem exec_command_result_written_only_on_success
    fuel old_mask result exe args envp fh n wd attrs p r result' p' :
  parent (exec_command fuel old_mask result exe args envp fh n wd attrs p)
    = Some (r, result', p') ->
  (r = -1 -> result' = result) /\
  (result' <> result -> r = 0) /\
  (r = 0 \/ r = -1).
Proof.
  intros H. apply exec_command_shape in H as (om & err & px & [H|H]);
    rewrite exec_command_fail_eq in H.
  - destruct (negb (err =? 0)); injection H as -> -> ->; naive_solver.
  - simpl in H. injection H as -> -> ->. naive_solver.
Qed.

(** A run in which the child reports ENOENT and the call returns -1. *)
Lemma exec_command_result_written_only_on_success_witness :
  exists p',
    parent (exec_command 1 0 77 "/bin/true" [] [] [5; 0; 1] 3 None sample_attrs
              (sample_proc 32 execve_enoent)) = Some (-1, 77, p') /\
    ((-1 = -1 -> 77 = 77) /\ (77 <> 77 -> -1 = 0) /\ (-1 = 0 \/ -1 = -1)).
Proof.
  eexists. split; [vm_compute; reflexivity|].
  eapply (exec_command_result_written_only_on_success
            1 0 77 "/bin/true" [] [] [5; 0; 1] 3 None sample_attrs
            (sample_proc 32 execve_enoent)).
  vm_compute. reflexivity.
Defined.

(** C2 (the code returns success): when [pipe] or [fork] fails,
    [exec_command] returns 0, not -1.  No child exists, [*result] is
    untouched and the descriptor table is the caller's again (in the fork
    case both ends of the pipe have been closed). *)
Theorem exec_command_setup_failure_returns_zero
    fuel old_mask result exe args envp fh n wd attrs p :
  (sys_pipe p).1.2 = None \/ fault p Fork <> None ->
  exists p',
    exec_command fuel old_mask result exe args envp fh n wd attrs p
      = {| parent := Some (0, result, p'); child := None |} /\
    fds p' = fds p.
Proof.
  intros Hfail. unfold exec_command.
  destruct (sys_pipe p) as [[r [[rfd wfd]|]] p1] eqn:Hpipe; simpl.
  - destruct Hfail as [Hfail|Hfail]; [done|].
    apply sys_pipe_ok in Hpipe
      as (_ & Hne & Hr & Hw & Hfds & _ & _ & _ & _ & Hfault & _).
    unfold sys_fork; simpl. rewrite Hfault.
    destruct (fault p Fork) as [e|]; [|done]. simpl.
    eexists. split; [reflexivity|]. simpl.
    unfold sys_close; simpl. rewrite Hfds.
    rewrite lookup_insert_ne, lookup_insert_eq by done. simpl.
    rewrite lookup_delete_ne, lookup_insert_eq by done. simpl.
    rewrite delete_insert_ne, delete_insert_eq by done.
    rewrite delete_insert_eq.
    rewrite (delete_id (fds p) rfd) by done. by rewrite delete_id.
  - apply sys_pipe_failed in Hpipe as [-> ->].
    eexists. split; reflexivity.
Qed.

Lemma exec_command_setup_failure_returns_zero_witness :
  ((sys_pipe crowded_proc).1.2 = None \/ fault crowded_proc Fork <> None) /\
  exists p',
    exec_command 1 0 77 "/bin/true" [] [] [0; 1; 2] 3 None sample_attrs crowded_proc
      = {| parent := Some (0, 77, p'); child := None |} /\
    fds p' = fds crowded_proc.
Proof.
  split; [left; vm_compute; reflexivity|].
  apply (exec_command_setup_failure_returns_zero
           1 0 77 "/bin/true" [] [] [0; 1; 2] 3 None sample_attrs crowded_proc).
  left. vm_compute. reflexivity.
Defined.

(** The same for a failing [fork]. *)
Example exec_command_fork_failure_returns_zero :
  exists p',
    exec_command 1 0 77 "/bin/true" [] [] [0; 1; 2] 3 None sample_attrs
      (sample_proc 32 fork_eagain)
      = {| parent := Some (0, 77, p'); child := None |} /\
    errno p' = errno_val EAGAIN.
Proof. eexists. split; vm_compute; reflexivity. Qed.

(** C4 (the code departs on one path): when [pipe] fails the [fail] label
    installs the local [old_mask], which nothing has assigned yet; the
    thread's mask becomes whatever that local held. *)
Theorem exec_command_pipe_failure_installs_unset_mask
    fuel old_mask result exe args envp fh n wd attrs p :
  (sys_pipe p).1.2 = None ->
  exists p',
    parent (exec_command fuel old_mask result exe args envp fh n wd attrs p)
      = Some (0, result, p') /\
    sigmask p' = old_mask.
Proof.
  intros Hfail. unfold exec_command.
  destruct (sys_pipe p) as [[r [sp|]] p1] eqn:Hpipe; simpl in *; [done|].
  eexists. split; reflexivity.
Qed.

(** The caller blocks signals 1 and 3 (mask 5), [pipe] fails with EMFILE,
    and the call returns with an empty mask because [old_mask] held 0. *)
Lemma exec_command_pipe_failure_installs_unset_mask_witness :
  (sys_pipe crowded_proc).1.2 = None /\
  sigmask crowded_proc = 5 /\
  exists p',
    parent (exec_command 1 0 77 "/bin/true" [] [] [0; 1; 2] 3 None sample_attrs
              crowded_proc) = Some (0, 77, p') /\
    sigmask p' = 0.
Proof.
  split; [vm_compute; reflexivity|]. split; [reflexivity|].
  apply (exec_command_pipe_failure_installs_unset_mask
           1 0 77 "/bin/true" [] [] [0; 1; 2] 3 None sample_attrs crowded_proc).
  vm_compute. reflexivity.
Defined.

(** ** Running the child monad *)

Lemma bind_next {A B} (m : C A) (k : A -> C B) s b s' :
  bind m k s = (Next b, s') ->
  exists a s1, m s = (Next a, s1) /\ k a s1 = (Next b, s').
Proof. unfold bind. destruct (m s) as [[a|] s1]; [eauto | done]. Qed.

Lemma bind_fail {A B} (m : C A) (k : A -> C B) s s' :
  bind m k s = (GotoFail, s') ->
  m s = (GotoFail, s') \/
  exists a s1, m s = (Next a, s1) /\ k a s1 = (GotoFail, s').
Proof.
  unfold bind. destruct (m s) as [[a|] s1]; simpl; intros H; [right; eauto|].
  injection H as ->. by left.
Qed.

Lemma fail_if_next b s u s' : fail_if b s = (Next u, s') -> b = false /\ s' = s.
Proof. destruct b; [done | by intros [= <-]]. Qed.

Lemma fail_if_fail b s s' : fail_if b s = (GotoFail, s') -> b = true /\ s' = s.
Proof. destruct b; [by intros [= <-] | done]. Qed.

Lemma for_loop_next (I : Z -> cstate -> Prop) n i body s u s' :
  I i s ->
  (forall j s1 s2, i <= j < i + Z.of_nat n ->
     I j s1 -> body j s1 = (Next tt, s2) -> I (j + 1) s2) ->
  for_loop n i body s = (Next u, s') -> I (i + Z.of_nat n) s'.
Proof.
  revert i s. induction n as [|n IH]; intros i s Hi Hstep; simpl.
  - intros [= <- <-]. by replace (i + Z.of_nat 0) with i by lia.
  - intros H. apply bind_next in H as ([] & s1 & H1 & H).
    replace (i + Z.of_nat (S n)) with ((i + 1) + Z.of_nat n) by lia.
    eapply IH; [| |exact H].
    + eapply Hstep; [|exact Hi|exact H1]. lia.
    + intros j s2 s3 Hj. apply Hstep. lia.
Qed.

Lemma for_range_next (I : Z -> cstate -> Prop) lo hi body s u s' :
  lo <= hi ->
  I lo s ->
  (forall j s1 s2, lo <= j < hi ->
     I j s1 -> body j s1 = (Next tt, s2) -> I (j + 1) s2) ->
  for_range lo hi body s = (Next u, s') -> I hi s'.
Proof.
  intros Hle Hlo Hstep H. unfold for_range in H.
  replace hi with (lo + Z.of_nat (Z.to_nat (hi - lo))) by lia.
  eapply for_loop_next; [exact Hlo| |exact H].
  intros j s1 s2 Hj. apply Hstep. lia.
Qed.

Lemma for_range_empty lo hi body s : hi <= lo -> for_range lo hi body s = (Next tt, s).
Proof. intros H. unfold for_range. by replace (Z.to_nat (hi - lo)) with O by lia. Qed.

(** A loop that jumps to [fail] does so from one of its iterations. *)
Lemma for_loop_fail n i body s s' :
  for_loop n i body s = (GotoFail, s') ->
  exists j s1, body j s1 = (GotoFail, s').
Proof.
  revert i s. induction n as [|n IH]; intros i s; simpl; [done|].
  intros H. apply bind_fail in H as [H|(? & s1 & _ & H)]; eauto.
Qed.

Lemma for_range_fail lo hi body s s' :
  for_range lo hi body s = (GotoFail, s') ->
  exists j s1, body j s1 = (GotoFail, s').
Proof. apply for_loop_fail. Qed.

(** A run through a command, whichever way it ends. *)
Lemma bind_run {A B} (m : C A) (k : A -> C B) s out s' :
  bind m k s = (out, s') ->
  (out = GotoFail /\ m s = (GotoFail, s')) \/
  exists a s1, m s = (Next a, s1) /\ k a s1 = (out, s').
Proof.
  unfold bind. destruct (m s) as [[a|] s1]; intros H; [right; eauto|].
  injection H as <- <-. by left.
Qed.

(** A loop with its invariant: it holds at the end of a loop that ran
    through, and at the start of the iteration that jumped to [fail]. *)
Lemma for_loop_run (I : Z -> cstate -> Prop) n i body s out s' :
  I i s ->
  (forall j s1 s2, i <= j < i + Z.of_nat n ->
     I j s1 -> body j s1 = (Next tt, s2) -> I (j + 1) s2) ->
  for_loop n i body s = (out, s') ->
  (out = Next tt /\ I (i + Z.of_nat n) s') \/
  (out = GotoFail /\
   exists j s1, i <= j < i + Z.of_nat n /\ I j s1 /\ body j s1 = (GotoFail, s')).
Proof.
  revert i s. induction n as [|n IH]; intros i s Hi Hstep; simpl.
  - intros [= <- <-]. left. by replace (i + Z.of_nat 0) with i by lia.
  - intros H. apply bind_run in H as [[-> H]|([] & s1 & H1 & H)].
    + right. split; [done|]. exists i, s. split; [lia|done].
    + replace (i + Z.of_nat (S n)) with ((i + 1) + Z.of_nat n) by lia.
      destruct (IH (i + 1) s1) as [?|(-> & j & s2 & Hj & ? & ?)]; [| |exact H| |].
      * eapply Hstep; [|exact Hi|exact H1]. lia.
      * intros j s2 s3 Hj. apply Hstep. lia.
      * by left.
      * right. split; [done|]. exists j, s2. split; [lia|done].
Qed.

Lemma for_range_run (I : Z -> cstate -> Prop) lo hi body s out s' :
  lo <= hi ->
  I lo s ->
  (forall j s1 s2, lo <= j < hi ->
     I j s1 -> body j s1 = (Next tt, s2) -> I (j + 1) s2) ->
  for_range lo hi body s = (out, s') ->
  (out = Next tt /\ I hi s') \/
  (out = GotoFail /\
   exists j s1, lo <= j < hi /\ I j s1 /\ body j s1 = (GotoFail, s')).
Proof.
  intros Hle Hlo Hstep H. unfold for_range in H.
  eapply for_loop_run in H; [|exact Hlo|].
  - replace (lo + Z.of_nat (Z.to_nat (hi - lo))) with hi in H by lia.
    destruct H as [?|(? & j & s1 & ? & ?)]; [by left|].
    right. split; [done|]. exists j, s1. split; [lia|done].
  - intros j s1 s2 Hj. apply Hstep. lia.
Qed.

(** ** Frame properties *)

Section Preserves.
Variable Rp : proc -> proc -> Prop.
Hypothesis Rp_refl : forall p, Rp p p.
Hypothesis Rp_trans : forall p1 p2 p3, Rp p1 p2 -> Rp p2 p3 -> Rp p1 p3.

Lemma preserves_ret {A} (a : A) : preserves (lift_rel Rp) (ret a).
Proof. intros s. apply Rp_refl. Qed.

Lemma preserves_goto_fail {A} : preserves (lift_rel Rp) (@goto_fail A).
Proof. intros s. apply Rp_refl. Qed.

Lemma preserves_bind {A B} (m : C A) (k : A -> C B) :
  preserves (lift_rel Rp) m -> (forall a, preserves (lift_rel Rp) (k a)) ->
  preserves (lift_rel Rp) (bind m k).
Proof.
  intros Hm Hk s. unfold bind. specialize (Hm s).
  destruct (m s) as [[a|] s1]; simpl in *; [|done].
  eapply Rp_trans; [exact Hm | apply Hk].
Qed.

Lemma preserves_fail_if b : preserves (lift_rel Rp) (fail_if b).
Proof. intros s. destruct b; apply Rp_refl. Qed.

Lemma preserves_if {A} (b : bool) (m1 m2 : C A) :
  preserves (lift_rel Rp) m1 -> preserves (lift_rel Rp) m2 ->
  preserves (lift_rel Rp) (if b then m1 else m2).
Proof. by destruct b. Qed.

Lemma preserves_for_loop n i body :
  (forall j, preserves (lift_rel Rp) (body j)) ->
  preserves (lift_rel Rp) (for_loop n i body).
Proof.
  intros Hbody. revert i. induction n as [|n IH]; intros i; simpl.
  - apply preserves_ret.
  - apply preserves_bind; auto.
Qed.

Lemma preserves_for_range lo hi body :
  (forall j, preserves (lift_rel Rp) (body j)) ->
  preserves (lift_rel Rp) (for_range lo hi body).
Proof. apply preserves_for_loop. Qed.

Lemma preserves_sys f : (forall p, Rp p (f p).2) -> preserves (lift_rel Rp) (sys f).
Proof. intros Hf s. apply Hf. Qed.

Lemma preserves_sys_out {B} (f : proc -> Z * B * proc) :
  (forall p, Rp p (f p).2) -> preserves (lift_rel Rp) (sys_out f).
Proof. intros Hf s. apply Hf. Qed.

Lemma preserves_calloc_fd_table n :
  (forall p, Rp p (sys_calloc p).2) -> preserves (lift_rel Rp) (calloc_fd_table n).
Proof. intros Hf s. apply Hf. Qed.

Lemma preserves_get_errno : preserves (lift_rel Rp) get_errno.
Proof. intros s. apply Rp_refl. Qed.
Lemma preserves_get_fd_index : preserves (lift_rel Rp) get_fd_index.
Proof. intros s. apply Rp_refl. Qed.
Lemma preserves_put_fd_index k : preserves (lift_rel Rp) (put_fd_index k).
Proof. intros s. apply Rp_refl. Qed.
Lemma preserves_get_syncfd : preserves (lift_rel Rp) get_syncfd.
Proof. intros s. apply Rp_refl. Qed.
Lemma preserves_put_syncfd k : preserves (lift_rel Rp) (put_syncfd k).
Proof. intros s. apply Rp_refl. Qed.
Lemma preserves_load_fd_table i : preserves (lift_rel Rp) (load_fd_table i).
Proof. intros s. apply Rp_refl. Qed.
Lemma preserves_store_fd_table i v : preserves (lift_rel Rp) (store_fd_table i v).
Proof. intros s. apply Rp_refl. Qed.

End Preserves.

(** From here on a loop is used through its lemmas only. *)
Opaque for_loop for_range.

Lemma preserves_weaken {A} (R R' : cstate -> cstate -> Prop) (m : C A) :
  (forall s s', R s s' -> R' s s') -> preserves R m -> preserves R' m.
Proof. intros HR Hm s. apply HR, Hm. Qed.

Lemma pframe_refl p : pframe p p.
Proof. by repeat split. Qed.

Lemma pframe_trans p1 p2 p3 : pframe p1 p2 -> pframe p2 p3 -> pframe p1 p3.
Proof. unfold pframe. intros (?&?&?) (?&?&?). repeat split; congruence. Qed.

Lemma pframe_sig_refl p : pframe_sig p p.
Proof. split; [apply pframe_refl | done]. Qed.

Lemma pframe_sig_trans p1 p2 p3 : pframe_sig p1 p2 -> pframe_sig p2 p3 -> pframe_sig p1 p3.
Proof. intros [? ?] [? ?]. split; [by eapply pframe_trans | congruence]. Qed.

Lemma pframe_fds_refl p : pframe_fds p p.
Proof. split; [apply pframe_sig_refl | done]. Qed.

Lemma pframe_fds_trans p1 p2 p3 : pframe_fds p1 p2 -> pframe_fds p2 p3 -> pframe_fds p1 p3.
Proof. intros [? ?] [? ?]. split; [by eapply pframe_sig_trans | congruence]. Qed.

Lemma sys_close_frame fd p : pframe_sig p (sys_close fd p).2.
Proof. unfold sys_close. destruct (fds p !! fd); by repeat split. Qed.

Lemma sys_dup2_frame o n p : pframe_sig p (sys_dup2 o n p).2.
Proof. unfold sys_dup2. repeat case_match; by repeat split. Qed.

Lemma sys_fcntl_setfd_frame fd fl p : pframe_sig p (sys_fcntl_setfd fd fl p).2.
Proof. unfold sys_fcntl_setfd. destruct (fds p !! fd); by repeat split. Qed.

Lemma env_call_frame c r ev p : pframe_fds p (env_call c r ev p).2.
Proof. unfold env_call. destruct (fault p c); by repeat split. Qed.

Lemma sys_sigaction_dfl_frame sig p : pframe_fds p (sys_sigaction_dfl sig p).2.
Proof. unfold sys_sigaction_dfl. case_match; by repeat split. Qed.

Lemma sys_getrlimit_frame p : pframe_fds p (sys_getrlimit p).2.
Proof. unfold sys_getrlimit. destruct (fault p Getrlimit); by repeat split. Qed.

Lemma sys_pthread_sigmask_frame m p : pframe p (sys_pthread_sigmask m p).2.
Proof. by repeat split. Qed.

Lemma sys_calloc_frame p : pframe_fds p (sys_calloc p).2.
Proof. unfold sys_calloc. destruct (fault p Calloc); by repeat split. Qed.

Lemma pframe_fds_sig p p' : pframe_fds p p' -> pframe_sig p p'.
Proof. by intros [? _]. Qed.

Lemma pframe_sig_frame p p' : pframe_sig p p' -> pframe p p'.
Proof. by intros [? _]. Qed.

Create HintDb frame.
#[local] Hint Resolve pframe_refl pframe_trans pframe_sig_refl pframe_sig_trans
  pframe_fds_refl pframe_fds_trans : frame.
#[local] Hint Resolve sys_close_frame sys_dup2_frame sys_fcntl_setfd_frame
  env_call_frame sys_sigaction_dfl_frame sys_getrlimit_frame sys_calloc_frame
  sys_pthread_sigmask_frame pframe_fds_sig pframe_sig_frame : frame.

(** Break a command into its calls; what is left is one goal per call. *)
Ltac frame_step :=
  lazymatch goal with
  | |- preserves _ (ret _) => apply preserves_ret
  | |- preserves _ goto_fail => apply preserves_goto_fail
  | |- preserves _ (fail_if _) => apply preserves_fail_if
  | |- preserves _ get_errno => apply preserves_get_errno
  | |- preserves _ get_fd_index => apply preserves_get_fd_index
  | |- preserves _ (put_fd_index _) => apply preserves_put_fd_index
  | |- preserves _ get_syncfd => apply preserves_get_syncfd
  | |- preserves _ (put_syncfd _) => apply preserves_put_syncfd
  | |- preserves _ (load_fd_table _) => apply preserves_load_fd_table
  | |- preserves _ (store_fd_table _ _) => apply preserves_store_fd_table
  | |- preserves _ (for_range _ _ _) => apply preserves_for_range
  | |- preserves _ (bind _ _) => apply preserves_bind
  | |- preserves _ (if _ then _ else _) => apply preserves_if
  | |- preserves _ (sys _) => apply preserves_sys
  | |- preserves _ (sys_out _) => apply preserves_sys_out
  | |- preserves _ (calloc_fd_table _) => apply preserves_calloc_fd_table
  | |- forall _, _ => intros ?
  end.

Ltac frame_steps := repeat frame_step; eauto with frame.

Lemma find_highest_frame fh n : preserves (lift_rel pframe_fds) (find_highest fh n).
Proof. unfold find_highest. frame_steps. Qed.

Lemma move_syncfd_frame : preserves (lift_rel pframe_sig) move_syncfd.
Proof. unfold move_syncfd. frame_steps. Qed.

Lemma lift_sources_frame n : preserves (lift_rel pframe_sig) (lift_sources n).
Proof. unfold lift_sources. frame_steps. Qed.

Lemma place_sources_frame n : preserves (lift_rel pframe_sig) (place_sources n).
Proof. unfold place_sources. frame_steps. Qed.

Lemma apply_session_frame attrs : preserves (lift_rel pframe_fds) (apply_session attrs).
Proof. unfold apply_session, sys_setsid, sys_setpgid, sys_ioctl_tiocsctty. frame_steps. Qed.

Lemma apply_identity_frame cwd attrs :
  preserves (lift_rel pframe_fds) (apply_identity cwd attrs).
Proof.
  unfold apply_identity, sys_setgid, sys_setreuid, sys_chdir.
  destruct cwd; frame_steps.
Qed.

Lemma cloexec_rest_frame n : preserves (lift_rel pframe_sig) (cloexec_rest n).
Proof. unfold cloexec_rest. frame_steps. Qed.

Lemma alloc_fd_table_frame n : preserves (lift_rel pframe_fds) (alloc_fd_table n).
Proof. unfold alloc_fd_table. frame_steps. Qed.

Lemma reset_signals_frame sp : preserves (lift_rel pframe) (reset_signals sp).
Proof. unfold reset_signals. frame_steps. Qed.

Lemma lift_rel_sig_frame s s' : lift_rel pframe_sig s s' -> lift_rel pframe s s'.
Proof. apply pframe_sig_frame. Qed.

Lemma lift_rel_fds_frame s s' : lift_rel pframe_fds s s' -> lift_rel pframe s s'.
Proof. intros H. by apply pframe_sig_frame, pframe_fds_sig. Qed.

(** Nothing the child does before [execve] writes a byte, moves the
    descriptor limit or changes the environment. *)
Lemma child_steps_frame sp fh n cwd attrs :
  preserves (lift_rel pframe) (child_steps sp fh n cwd attrs).
Proof.
  unfold child_steps, child_renumbered, child_sync_moved.
  repeat frame_step; try solve [eauto with frame];
    (eapply preserves_weaken;
     [|first [ apply alloc_fd_table_frame | apply reset_signals_frame
             | apply find_highest_frame | apply move_syncfd_frame
             | apply lift_sources_frame | apply place_sources_frame
             | apply apply_session_frame | apply cloexec_rest_frame
             | apply apply_identity_frame ]]);
    first [apply lift_rel_fds_frame | apply lift_rel_sig_frame | done].
Qed.

(** ** Where the child's jumps to [fail] come from *)

Lemma fails_errno_set e p : errno_set (fails e p).2.
Proof. by exists e. Qed.

Lemma posix0_posix rp : posix0 rp -> posix rp.
Proof. intros [?|E]; [by left | right; rewrite E; lia]. Qed.

Lemma sys_close_posix fd p : posix0 (sys_close fd p).
Proof.
  unfold sys_close. destruct (fds p !! fd); [by right|].
  left. split; [done | apply fails_errno_set].
Qed.

Lemma sys_dup2_posix o n p : posix (sys_dup2 o n p).
Proof.
  unfold sys_dup2. destruct (fds p !! o); [|left; split; [done | apply fails_errno_set]].
  destruct ((n <? 0) || (rlim_cur p <=? n)) eqn:E;
    [left; split; [done | apply fails_errno_set]|].
  apply orb_false_iff in E as [E _].
  destruct (o =? n); right; simpl; lia.
Qed.

Lemma sys_fcntl_setfd_posix fd fl p :
  ((sys_fcntl_setfd fd fl p).1 = -1 /\
   errno (sys_fcntl_setfd fd fl p).2 = errno_val EBADF) \/
  (sys_fcntl_setfd fd fl p).1 = 0.
Proof. unfold sys_fcntl_setfd. destruct (fds p !! fd); [by right | by left]. Qed.

Lemma env_call_posix c r ev p : 0 <= r -> posix (env_call c r ev p).
Proof.
  intros Hr. unfold env_call. destruct (fault p c); [|by right].
  left. split; [done | apply fails_errno_set].
Qed.

Lemma env_call_posix0 c ev p : posix0 (env_call c 0 ev p).
Proof.
  unfold env_call. destruct (fault p c); [|by right].
  left. split; [done | apply fails_errno_set].
Qed.

Lemma fails_with_errno_bind {A B} (m : C A) (k : A -> C B) :
  fails_with_errno m -> (forall a, fails_with_errno (k a)) ->
  fails_with_errno (bind m k).
Proof.
  intros Hm Hk s s' H. apply bind_fail in H as [H | (a & s1 & _ & H)].
  - by eapply Hm.
  - by eapply Hk.
Qed.

Lemma sys_next f s r s1 :
  sys f s = (Next r, s1) -> r = (f (cproc s)).1 /\ s1 = set_cproc (f (cproc s)).2 s.
Proof. by intros [= <- <-]. Qed.

Lemma sys_out_next {B} (f : proc -> Z * B * proc) s r s1 :
  sys_out f s = (Next r, s1) ->
  r = (f (cproc s)).1 /\ s1 = set_cproc (f (cproc s)).2 s.
Proof. by intros [= <- <-]. Qed.

(** Split a run that fell through ([next_inv]) or jumped to [fail]
    ([fail_inv]) into the calls it made. *)
Ltac next_inv H :=
  lazymatch type of H with
  | bind _ _ _ = (Next _, _) =>
      let H1 := fresh "Hc" in
      apply bind_next in H as (? & ? & H1 & H); next_inv H1; next_inv H
  | fail_if _ _ = (Next _, _) =>
      let Hb := fresh "Hok" in apply fail_if_next in H as [Hb ->]
  | sys _ _ = (Next _, _) => apply sys_next in H as [-> ->]
  | sys_out _ _ = (Next _, _) => apply sys_out_next in H as [-> ->]
  | (if ?b then _ else _) _ = (Next _, _) =>
      let Hb := fresh "Hif" in destruct b eqn:Hb; next_inv H
  | ret _ _ = (Next _, _) => injection H as <- <-
  | get_errno _ = (Next _, _) => injection H as <- <-
  | get_fd_index _ = (Next _, _) => injection H as <- <-
  | put_fd_index _ _ = (Next _, _) => injection H as <-
  | get_syncfd _ = (Next _, _) => injection H as <- <-
  | put_syncfd _ _ = (Next _, _) => injection H as <-
  | load_fd_table _ _ = (Next _, _) => injection H as <- <-
  | store_fd_table _ _ _ = (Next _, _) => injection H as <-
  | calloc_fd_table _ _ = (Next _, _) => injection H as <- <-
  | _ => idtac
  end.

Ltac fail_inv H :=
  lazymatch type of H with
  | bind _ _ _ = (GotoFail, _) =>
      let H1 := fresh "Hc" in
      apply bind_fail in H as [H | (? & ? & H1 & H)];
      [fail_inv H | next_inv H1; fail_inv H]
  | fail_if _ _ = (GotoFail, _) =>
      let Hb := fresh "Hbad" in apply fail_if_fail in H as [Hb ->]
  | (if ?b then _ else _) _ = (GotoFail, _) =>
      let Hb := fresh "Hif" in destruct b eqn:Hb; fail_inv H
  | for_range _ _ _ _ = (GotoFail, _) =>
      apply for_range_fail in H as (? & ? & H); fail_inv H
  | ret _ _ = (GotoFail, _) => discriminate H
  | sys _ _ = (GotoFail, _) => discriminate H
  | sys_out _ _ = (GotoFail, _) => discriminate H
  | get_errno _ = (GotoFail, _) => discriminate H
  | get_fd_index _ = (GotoFail, _) => discriminate H
  | put_fd_index _ _ = (GotoFail, _) => discriminate H
  | get_syncfd _ = (GotoFail, _) => discriminate H
  | put_syncfd _ _ = (GotoFail, _) => discriminate H
  | load_fd_table _ _ = (GotoFail, _) => discriminate H
  | store_fd_table _ _ _ = (GotoFail, _) => discriminate H
  | calloc_fd_table _ _ = (GotoFail, _) => discriminate H
  | _ => idtac
  end.

(** The failed call behind a jump: its errno code is in place. *)
Ltac failed_call :=
  simpl in *;
  match goal with
  | H : ((?f ?p).1 <? 0) = true |- errno_set (?f ?p).2 =>
      let E := fresh in
      assert (posix (f p)) as E
        by (first [ apply sys_dup2_posix | apply posix0_posix, sys_close_posix
                  | apply posix0_posix, env_call_posix0 | apply env_call_posix; lia ]);
      destruct E as [[_ ?]|?]; [done | lia]
  | H : ((?f ?p).1 =? -1) = true |- errno_set (?f ?p).2 =>
      let E := fresh in
      assert (posix (f p)) as E
        by (first [ apply sys_dup2_posix | apply posix0_posix, sys_close_posix
                  | apply posix0_posix, env_call_posix0 | apply env_call_posix; lia ]);
      destruct E as [[_ ?]|?]; [done | lia]
  | H : negb ((?f ?p).1 =? 0) = true |- errno_set (?f ?p).2 =>
      let E := fresh in
      assert (posix0 (f p)) as E
        by (first [apply sys_close_posix | apply env_call_posix0]);
      destruct E as [[_ ?]|E]; [done | by rewrite E in H]
  | H : ((sys_fcntl_setfd ?fd ?fl ?p).1 =? -1) = true
    |- errno_set (sys_fcntl_setfd ?fd ?fl ?p).2 =>
      destruct (sys_fcntl_setfd_posix fd fl p) as [[_ E]|E];
      [by exists EBADF | by rewrite E in H]
  end.

Lemma alloc_fd_table_fails n : fails_with_errno (alloc_fd_table n).
Proof.
  intros s s' H. unfold alloc_fd_table in H. fail_inv H.
  simpl. unfold sys_calloc in *. destruct (fault (cproc s) Calloc); simpl in *; [|done].
  by eexists.
Qed.

Lemma reset_signals_fails sp : fails_with_errno (reset_signals sp).
Proof.
  intros s s' H. unfold reset_signals in H. fail_inv H; try done.
  failed_call.
Qed.

Lemma move_syncfd_fails : fails_with_errno move_syncfd.
Proof. intros s s' H. unfold move_syncfd in H. fail_inv H; failed_call. Qed.

Lemma lift_sources_fails n : fails_with_errno (lift_sources n).
Proof. intros s s' H. unfold lift_sources in H. fail_inv H; failed_call. Qed.

Lemma place_sources_fails n : fails_with_errno (place_sources n).
Proof. intros s s' H. unfold place_sources in H. fail_inv H; failed_call. Qed.

Lemma find_highest_fails fh n : fails_with_errno (find_highest fh n).
Proof. intros s s' H. unfold find_highest in H. fail_inv H. Qed.

Lemma apply_session_fails attrs : fails_with_errno (apply_session attrs).
Proof.
  intros s s' H.
  unfold apply_session, sys_setsid, sys_setpgid, sys_ioctl_tiocsctty in H.
  fail_inv H; failed_call.
Qed.

Lemma cloexec_rest_fails n : fails_with_errno (cloexec_rest n).
Proof.
  intros s s' H. unfold cloexec_rest in H. fail_inv H.
  - simpl in *. unfold sys_getrlimit in *.
    destruct (fault (cproc s) Getrlimit); simpl in *; [by eexists | done].
  - simpl in *. apply andb_true_iff in Hbad as [Hr He].
    match goal with
    | Hr : ((sys_fcntl_setfd ?fd ?fl ?p).1 =? -1) = true |- _ =>
        destruct (sys_fcntl_setfd_posix fd fl p) as [[_ E]|E]
    end.
    + rewrite E in He. done.
    + rewrite E in Hr. done.
Qed.

Lemma apply_identity_fails cwd attrs : fails_with_errno (apply_identity cwd attrs).
Proof.
  intros s s' H.
  unfold apply_identity, sys_setgid, sys_setreuid, sys_chdir in H.
  destruct cwd; fail_inv H; failed_call.
Qed.

(** Every jump to [fail] follows a failed call. *)
Lemma child_steps_fails sp fh n cwd attrs :
  fails_with_errno (child_steps sp fh n cwd attrs).
Proof.
  unfold child_steps, child_renumbered, child_sync_moved.
  repeat lazymatch goal with
         | |- fails_with_errno (bind _ _) => apply fails_with_errno_bind
         | |- forall _, _ => intros ?
         end.
  - apply alloc_fd_table_fails.
  - apply reset_signals_fails.
  - apply find_highest_fails.
  - apply move_syncfd_fails.
  - apply lift_sources_fails.
  - apply place_sources_fails.
  - apply apply_session_fails.
  - apply cloexec_rest_fails.
  - apply apply_identity_fails.
Qed.

(** ** The child's [fail] label *)

Lemma sys_write_eq fd buf p :
  sys_write fd buf p =
  match fd_sink p fd with
  | Some id =>
      (Z.of_nat (length buf),
       set_written (<[id := default [] (written p !! id) ++ buf]> (written p)) p)
  | None => fails EBADF p
  end.
Proof. unfold sys_write, fd_sink. by destruct (fds p !! fd). Qed.

(** A write that succeeds ends the loop at once. *)
Lemma write_retry_ok fuel fd buf p id :
  fd_sink p fd = Some id ->
  write_retry (S fuel) fd buf p =
  (true, set_written (<[id := default [] (written p !! id) ++ buf]> (written p)) p).
Proof.
  intros Hs. simpl. rewrite sys_write_eq, Hs. simpl.
  by replace (Z.of_nat (length buf) <? 0) with false
    by (symmetry; apply Z.ltb_ge; lia).
Qed.

(** A descriptor that is not open for writing fails every write with
    EBADF, so the loop is never left. *)
Lemma write_retry_bad fuel fd buf p :
  fd_sink p fd = None ->
  write_retry fuel fd buf p =
  (false, match fuel with O => p | S _ => set_errno (errno_val EBADF) p end).
Proof.
  intros Hs. revert p Hs. induction fuel as [|fuel IH]; intros p Hs; [done|].
  simpl. rewrite sys_write_eq, Hs. simpl.
  rewrite IH by done. by destruct fuel.
Qed.

Lemma released_facts s :
  errno (released s) = errno (cproc s) /\ fds (released s) = fds (cproc s) /\
  written (released s) = written (cproc s) /\
  sigmask (released s) = sigmask (cproc s) /\
  heap_blocks (released s) =
    match fd_table s with
    | Some _ => Nat.pred (heap_blocks (cproc s))
    | None => heap_blocks (cproc s)
    end.
Proof. unfold released. by destruct (fd_table s). Qed.

Lemma fd_sink_released s fd : fd_sink (released s) fd = fd_sink (cproc s) fd.
Proof. unfold released. by destruct (fd_table s). Qed.

Lemma child_fail_eq fuel s :
  child_fail fuel s =
  if negb (errno (released s) =? 0) then
    match write_retry fuel (syncfd s) (int_bytes (errno (released s))) (released s) with
    | (true, p2) => Exited 127 p2
    | (false, p2) => Spinning p2
    end
  else Exited 127 (released s).
Proof. reflexivity. Qed.

Lemma errno_val_pos e : 0 < errno_val e < 2 ^ 31.
Proof. destruct e; simpl; lia. Qed.

Lemma errno_set_nonzero p : errno_set p -> errno p <> 0.
Proof. intros [e ->]. pose proof (errno_val_pos e). lia. Qed.

(** The [int] sent through the pipe arrives as it was. *)
Lemma bytes_int_int_bytes x :
  - 2 ^ 31 <= x < 2 ^ 31 -> bytes_int (int_bytes x) = x.
Proof.
  intros Hx. unfold bytes_int, int_bytes, to_int32.
  change (2 ^ 32) with 4294967296 in *. change (2 ^ 31) with 2147483648 in *.
  assert (x mod 256 + 256 * ((x / 256) mod 256) + 65536 * ((x / 65536) mod 256)
          + 16777216 * ((x / 16777216) mod 256) = x mod 4294967296) as ->.
  { assert (x / 65536 = x / 256 / 256) as ->
      by (rewrite Z.div_div by lia; done).
    assert (x / 16777216 = x / 256 / 256 / 256) as ->
      by (rewrite !Z.div_div by lia; done).
    assert (x mod 4294967296 = x - 4294967296 * (x / 256 / 256 / 256 / 256)) as ->
      by (rewrite Z.mod_eq by lia; rewrite !Z.div_div by lia; done).
    rewrite !Z.mod_eq by lia. lia. }
  rewrite Zplus_mod_idemp_l.
  rewrite Z.mod_small by lia. lia.
Qed.

(** The [fail] label, call by call: the child frees [fd_table] when it was
    allocated and reads [errno].  When [errno] is 0 it exits with status
    127 and writes nothing.  Otherwise it writes the four bytes of [errno]
    to whatever the descriptor numbered [syncfd] names by then: when that
    descriptor is open for writing the first [write] takes them and the
    child exits with status 127; when it is not (closed, or open
    read-only), every [write] fails with EBADF and the loop is not left.
    Every jump to the label follows a failed call, so [errno] is not 0
    there. *)
Lemma child_fail_spec (s : cstate) (fuel : nat) :
  heap_blocks (released s) =
    match fd_table s with
    | Some _ => Nat.pred (heap_blocks (cproc s))
    | None => heap_blocks (cproc s)
    end /\
  (errno (cproc s) = 0 -> child_fail fuel s = Exited 127 (released s)) /\
  (errno (cproc s) <> 0 ->
   forall id, fd_sink (cproc s) (syncfd s) = Some id ->
     child_fail (S fuel) s =
     Exited 127
       (set_written
          (<[id := default [] (written (cproc s) !! id)
                   ++ int_bytes (errno (cproc s))]> (written (cproc s)))
          (released s))) /\
  (errno (cproc s) <> 0 ->
   fd_sink (cproc s) (syncfd s) = None ->
   exists p', child_fail fuel s = Spinning p' /\ written p' = written (cproc s)) /\
  (forall sp fh n cwd attrs s0,
     child_steps sp fh n cwd attrs s0 = (GotoFail, s) -> errno (cproc s) <> 0).
Proof.
  destruct (released_facts s) as (He & Hf & Hw & _ & Hh).
  split; [exact Hh|].
  split; [intros H0; by rewrite child_fail_eq, He, H0|].
  split; [|split].
  - intros Hne id Hs. rewrite child_fail_eq, He.
    replace (negb (errno (cproc s) =? 0)) with true
      by (symmetry; apply negb_true_iff, Z.eqb_neq; done).
    erewrite write_retry_ok by (by rewrite fd_sink_released).
    by rewrite Hw.
  - intros Hne Hs. rewrite child_fail_eq, He.
    replace (negb (errno (cproc s) =? 0)) with true
      by (symmetry; apply negb_true_iff, Z.eqb_neq; done).
    rewrite write_retry_bad by (by rewrite fd_sink_released).
    eexists. split; [reflexivity|]. by destruct fuel.
  - intros sp fh n cwd attrs s0 H.
    by apply errno_set_nonzero, (child_steps_fails _ _ _ _ _ _ _ H).
Qed.

(** The label reached with ENOENT in [errno], an allocated table and the
    pipe's write end on descriptor 6. *)
Lemma child_fail_spec_witness :
  exists p',
    child_fail 1 sample_fail_state = Exited 127 p' /\
    written p' !! 200 = Some [2; 0; 0; 0] /\
    heap_blocks p' = 0%nat.
Proof.
  eexists. split.
  - apply (proj1 (proj2 (proj2 (child_fail_spec sample_fail_state 0)))
             ltac:(vm_compute; discriminate) 200).
    vm_compute. reflexivity.
  - split; vm_compute; reflexivity.
Defined.

Lemma exec_command_forked fuel om res exe args envp fh n wd attrs p r sp p1 pid p3 cp :
  sys_pipe p = (r, Some sp, p1) ->
  sys_fork (set_sigmask sigfillset p1) = (pid, p3, Some cp) ->
  exec_command fuel om res exe args envp fh n wd attrs p =
  {| parent := exec_command_parent sp pid (sigmask p1) res
                 (child_handler fuel sp exe args envp fh n wd (sigmask p1) attrs cp) p3;
     child := Some (child_handler fuel sp exe args envp fh n wd (sigmask p1) attrs cp) |}.
Proof.
  intros Hpipe Hfork. unfold exec_command. rewrite Hpipe. simpl.
  by rewrite Hfork.
Qed.

(** A child that reaches [execve], sees it fail and finds [syncfd] closed
    for writing is still in the write loop after any number of calls. *)
Lemma child_handler_spins fuel sp exe args env fh n cwd om attrs p s e :
  child_steps sp fh n cwd attrs (child_entry sp p) = (Next tt, s) ->
  fault (cproc s) Execve = Some e ->
  fd_sink (cproc s) (syncfd s) = None ->
  exists p', child_handler fuel sp exe args env fh n cwd om attrs p = Spinning p'.
Proof.
  intros Hsteps He Hs. unfold child_handler. rewrite Hsteps.
  unfold sys_execve. rewrite He. simpl.
  rewrite child_fail_eq.
  destruct (released_facts (set_cproc (set_errno (errno_val e) (cproc s)) s))
    as (Herr & _).
  rewrite Herr. simpl.
  replace (negb (errno_val e =? 0)) with true
    by (pose proof (errno_val_pos e); symmetry; apply negb_true_iff, Z.eqb_neq; lia).
  rewrite write_retry_bad; [by eexists|].
  by rewrite fd_sink_released.
Qed.

(** ** The signal mask in the child *)

Lemma preserves_run {A} R (m : C A) s out s' :
  preserves R m -> m s = (out, s') -> R s s'.
Proof. intros Hm H. specialize (Hm s). by rewrite H in Hm. Qed.

(** The frame of each phase of a run that is in the context. *)
Ltac note_frames :=
  repeat match goal with
  | H : alloc_fd_table _ _ = _ |- _ =>
      apply (preserves_run _ _ _ _ _ (alloc_fd_table_frame _)) in H
  | H : reset_signals _ _ = _ |- _ =>
      apply (preserves_run _ _ _ _ _ (reset_signals_frame _)) in H
  | H : find_highest _ _ _ = _ |- _ =>
      apply (preserves_run _ _ _ _ _ (find_highest_frame _ _)) in H
  | H : move_syncfd _ = _ |- _ =>
      apply (preserves_run _ _ _ _ _ move_syncfd_frame) in H
  | H : lift_sources _ _ = _ |- _ =>
      apply (preserves_run _ _ _ _ _ (lift_sources_frame _)) in H
  | H : place_sources _ _ = _ |- _ =>
      apply (preserves_run _ _ _ _ _ (place_sources_frame _)) in H
  | H : apply_session _ _ = _ |- _ =>
      apply (preserves_run _ _ _ _ _ (apply_session_frame _)) in H
  | H : cloexec_rest _ _ = _ |- _ =>
      apply (preserves_run _ _ _ _ _ (cloexec_rest_frame _)) in H
  | H : apply_identity _ _ _ = _ |- _ =>
      apply (preserves_run _ _ _ _ _ (apply_identity_frame _ _)) in H
  end.

(** Turn the frames into equations between fields. *)
Ltac open_frames :=
  unfold lift_rel, pframe_fds, pframe_sig, pframe in *;
  repeat match goal with H : _ /\ _ |- _ => destruct H end.

(** Line 81 installs the empty mask. *)
Lemma reset_signals_next sp s u s' :
  reset_signals sp s = (Next u, s') ->
  sigmask (cproc s') = sigemptyset /\
  is_Some (fds (cproc s) !! sp.1) /\
  fds (cproc s') = delete sp.1 (fds (cproc s)) /\
  fd_index s' = fd_index s /\ fd_table s' = fd_table s /\ syncfd s' = syncfd s.
Proof.
  intros H. unfold reset_signals in H.
  apply bind_next in H as (r & s1 & Hclose & H).
  apply sys_next in Hclose as [-> ->].
  apply bind_next in H as ([] & s2 & Hok & H).
  apply fail_if_next in Hok as [Hok ->].
  unfold sys_close in Hok, H.
  destruct (fds (cproc s) !! sp.1) eqn:E; [|discriminate Hok].
  clear Hok. simpl in H.
  apply bind_next in H as ([] & s3 & Hloop & H).
  apply bind_next in H as (r2 & s4 & Hmask & H).
  apply sys_out_next in Hmask as [-> ->].
  apply fail_if_next in H as [_ ->].
  set (Inv := fun (_ : Z) (t : cstate) =>
         fds (cproc t) = delete sp.1 (fds (cproc s)) /\
         fd_index t = fd_index s /\ fd_table t = fd_table s /\ syncfd t = syncfd s).
  assert (Inv NSIG s3) as (Hfds & Hi & Ht & Hsy).
  { assert (0 <= NSIG) as Hle by (unfold NSIG; lia).
    apply (fun a b => for_range_next Inv 0 NSIG _ _ _ _ Hle a b Hloop);
      [unfold Inv; repeat split; reflexivity|].
    clear Hloop. intros j t1 t2 _ (?&?&?&?) Hb.
    apply bind_next in Hb as (r' & t3 & Hsig & Hb).
    apply sys_next in Hsig as [-> ->]. injection Hb as <-.
    unfold Inv; simpl. unfold sys_sigaction_dfl. by case_match. }
  by repeat split.
Qed.

Lemma reset_signals_failed sp s s' :
  reset_signals sp s = (GotoFail, s') -> fds (cproc s) !! sp.1 = None.
Proof.
  intros H. unfold reset_signals in H. fail_inv H; [|done].
  simpl in *. unfold sys_close in *.
  by destruct (fds (cproc s) !! sp.1).
Qed.

Lemma alloc_fd_table_failed n s s' :
  alloc_fd_table n s = (GotoFail, s') -> 0 < n /\ fault (cproc s) Calloc <> None.
Proof.
  intros H. unfold alloc_fd_table in H. fail_inv H.
  simpl in *. unfold sys_calloc in *.
  split; [lia|]. by destruct (fault (cproc s) Calloc).
Qed.

(** Wherever the child stands once lines 59-83 are behind it, its blocked
    mask is empty; it jumps to [fail] earlier only when [calloc] or the
    close of the parent's end fails. *)
Lemma child_steps_sigmask sp fh n cwd attrs p out s :
  child_steps sp fh n cwd attrs (child_entry sp p) = (out, s) ->
  sigmask (cproc s) = sigemptyset \/
  (out = GotoFail /\
   ((0 < n /\ fault p Calloc <> None) \/ fds p !! sp.1 = None)).
Proof.
  intros H. unfold child_steps, child_renumbered, child_sync_moved in H.
  destruct out as [[]|].
  - left. next_inv H.
    match goal with
    | Hr : reset_signals _ _ = _ |- _ =>
        pose proof (reset_signals_next _ _ _ _ Hr) as (Hm & _)
    end.
    note_frames. open_frames. congruence.
  - fail_inv H;
      try match goal with
        | Hr : reset_signals _ ?s1 = (Next _, _) |- _ =>
            pose proof (reset_signals_next _ _ _ _ Hr) as (Hm & _)
        end.
    + right. split; [done|]. left. by apply alloc_fd_table_failed in H.
    + right. split; [done|]. right. apply reset_signals_failed in H.
      note_frames. open_frames. simpl in *. congruence.
    + left. note_frames. open_frames. congruence.
    + left. note_frames. open_frames. congruence.
    + left. note_frames. open_frames. congruence.
    + left. note_frames. open_frames. congruence.
    + left. note_frames. open_frames. congruence.
    + left. note_frames. open_frames. congruence.
    + left. note_frames. open_frames. congruence.
Qed.

Lemma child_handler_with_mask fuel sp exe args env fh n cwd om m attrs p :
  child_handler fuel sp exe args env fh n cwd om (with_mask m attrs) p =
  child_handler fuel sp exe args env fh n cwd om attrs p.
Proof. reflexivity. Qed.

(** C9: the [mask] field of the attributes has no effect on the child
    (a run with any other value of the field ends the same way), and the
    blocked mask of a child whose [execve] succeeds is empty, as it is at
    every point past line 83. *)
Theorem child_mask_empty_whatever_the_field
    fuel sp exe args env fh n cwd om attrs p :
  (forall m,
     child_handler fuel sp exe args env fh n cwd om (with_mask m attrs) p =
     child_handler fuel sp exe args env fh n cwd om attrs p) /\
  (forall m p',
     child_handler fuel sp exe args env fh n cwd om (with_mask m attrs) p = Execed p' ->
     sigmask p' = sigemptyset) /\
  (forall m out s,
     child_steps sp fh n cwd (with_mask m attrs) (child_entry sp p) = (out, s) ->
     sigmask (cproc s) = sigemptyset \/
     (out = GotoFail /\
      ((0 < n /\ fault p Calloc <> None) \/ fds p !! sp.1 = None))).
Proof.
  split; [intros m; apply child_handler_with_mask|].
  split; [|intros m out s; apply child_steps_sigmask].
  intros m p'. rewrite child_handler_with_mask. unfold child_handler.
  destruct (child_steps _ _ _ _ _ _) as [[[]|] s] eqn:Hs.
  - apply child_steps_sigmask in Hs as [Hs|[? _]]; [|done].
    unfold sys_execve. destruct (fault (cproc s) Execve); simpl.
    + rewrite child_fail_eq. repeat case_match; done.
    + by intros [= <-].
  - rewrite child_fail_eq. repeat case_match; done.
Qed.

(** The caller asks for mask 1 and blocks signals 1 and 3 itself; the
    program starts with nothing blocked. *)
Lemma child_mask_empty_whatever_the_field_witness :
  exists p',
    child_handler 1 (3, 4) "/bin/true" [] [] [5; 0; 1] 3 None 5
      (with_mask 1 sample_attrs) sample_child = Execed p' /\
    sigmask sample_child = Z.ones 64 /\
    sigmask p' = sigemptyset.
Proof.
  eexists. split; [vm_compute; reflexivity|]. split; [reflexivity|].
  eapply (proj1 (proj2 (child_mask_empty_whatever_the_field
                          1 (3, 4) "/bin/true" [] [] [5; 0; 1] 3 None 5
                          sample_attrs sample_child)) 1).
  vm_compute. reflexivity.
Defined.

(** ** The sync pipe moves (lines 133-158) *)

Lemma max_fd_snoc l h : max_fd (l ++ [h]) = Z.max (max_fd l) h.
Proof.
  unfold max_fd. induction l as [|a l IH]; simpl; [lia|]. rewrite IH. lia.
Qed.

Lemma max_fd_nonneg l : 0 <= max_fd l.
Proof. unfold max_fd. induction l as [|a l IH]; simpl; lia. Qed.

Lemma max_fd_ge l i h : l !! i = Some h -> h <= max_fd l.
Proof.
  unfold max_fd. revert i. induction l as [|a l IH]; intros [|i]; simpl; try done.
  - intros [= ->]. lia.
  - intros H. apply IH in H. lia.
Qed.

Lemma array_get_lookup (a : list Z) i :
  0 <= i < Z.of_nat (length a) -> a !! Z.to_nat i = Some (array_get a i).
Proof.
  intros Hi. unfold array_get.
  destruct (lookup_lt_is_Some_2 a (Z.to_nat i)) as [x ->]; [lia | done].
Qed.

Lemma alloc_fd_table_next n s u s' :
  alloc_fd_table n s = (Next u, s') ->
  fds (cproc s') = fds (cproc s) /\ fd_index s' = fd_index s /\
  syncfd s' = syncfd s /\
  (0 < n -> fd_table s' = Some (replicate (Z.to_nat n) 0)) /\
  (n <= 0 -> fd_table s' = fd_table s).
Proof.
  unfold alloc_fd_table. destruct (0 <? n) eqn:Hn.
  - intros H. apply bind_next in H as (ok & s1 & Hc & H).
    injection Hc as <- <-. apply fail_if_next in H as [Hok ->].
    apply negb_false_iff in Hok. simpl. rewrite Hok.
    unfold sys_calloc in *. destruct (fault (cproc s) Calloc); [done|].
    apply Z.ltb_lt in Hn. repeat split; try done. intros; exfalso; lia.
  - apply Z.ltb_ge in Hn. intros [= ? <-]. repeat split; try done.
    intros; exfalso; lia.
Qed.

(** Lines 134-139 leave [max_fd] in [fd_index] and the request list in
    [fd_table], and touch nothing else. *)
Lemma find_highest_next fh s u s' :
  fd_index s = 0 ->
  (0 < length fh -> exists t, fd_table s = Some t /\ length t = length fh)%nat ->
  find_highest fh (Z.of_nat (length fh)) s = (Next u, s') ->
  cproc s' = cproc s /\ syncfd s' = syncfd s /\ fd_index s' = max_fd fh /\
  ((0 < length fh)%nat -> fd_table s' = Some fh) /\
  (fh = [] -> fd_table s' = fd_table s).
Proof.
  intros Hidx Htab H. unfold find_highest in H.
  set (Inv := fun (i : Z) (t : cstate) =>
         cproc t = cproc s /\ syncfd t = syncfd s /\
         fd_index t = max_fd (take (Z.to_nat i) fh) /\
         ((0 < length fh)%nat ->
          exists l, fd_table t = Some l /\ length l = length fh /\
                    take (Z.to_nat i) l = take (Z.to_nat i) fh) /\
         (fh = [] -> fd_table t = fd_table s)).
  assert (Inv (Z.of_nat (length fh)) s') as (Hp & Hs & Hi & Ht & He).
  { assert (0 <= Z.of_nat (length fh)) as Hle by lia.
    apply (fun a b => for_range_next Inv 0 _ _ _ _ _ Hle a b H); clear H.
    - unfold Inv. repeat split; try done.
      intros Hpos. destruct (Htab Hpos) as (t & Ht & Hl). by exists t.
    - intros j s1 s2 Hj (Hp & Hs & Hi & Ht & He) Hb.
      apply bind_next in Hb as (k & s3 & Hk & Hb). injection Hk as <- <-.
      apply bind_next in Hb as ([] & s3 & Hput & Hb).
      injection Hb as <-.
      assert (0 < length fh)%nat as Hpos by lia.
      destruct (Ht Hpos) as (l & Hl & Hlen & Htake).
      pose proof (array_get_lookup fh j ltac:(lia)) as Hget.
      assert (cproc s3 = cproc s1 /\ syncfd s3 = syncfd s1 /\
              fd_table s3 = fd_table s1 /\
              fd_index s3 = Z.max (fd_index s1) (array_get fh j))
        as (Hp3 & Hs3 & Ht3 & Hi3).
      { destruct (fd_index s1 <? array_get fh j) eqn:Hlt;
          injection Hput as <-; simpl; repeat split; lia. }
      unfold Inv. simpl. rewrite Hp3, Hs3, Ht3, Hi3, Hl, Hi.
      replace (Z.to_nat (j + 1)) with (S (Z.to_nat j)) by lia.
      rewrite (take_S_r fh _ _ Hget), max_fd_snoc.
      repeat split; try done.
      + intros _. eexists. split; [reflexivity|].
        split; [by rewrite length_insert|].
        rewrite (take_S_r _ _ (array_get fh j)).
        * rewrite take_insert_ge by lia. by rewrite Htake.
        * apply list_lookup_insert_eq. lia.
      + intros ->. simpl in Hj. lia. }
  rewrite Nat2Z.id in Hi, Ht. rewrite firstn_all in Hi.
  repeat split; try done.
  intros Hpos. destruct (Ht Hpos) as (l & Hl & Hlen & Htake).
  rewrite Hl. f_equal.
  rewrite <-(firstn_all l), <-(firstn_all fh). by rewrite Hlen.
Qed.

Lemma sys_dup2_ok o n p :
  ((sys_dup2 o n p).1 <? 0) = false ->
  exists d,
    fds p !! o = Some d /\ 0 <= n < rlim_cur p /\
    fds (sys_dup2 o n p).2 =
      if decide (o = n) then fds p
      else <[n := {| fd_ofd := fd_ofd d; fd_cloexec := false |}]> (fds p).
Proof.
  unfold sys_dup2. destruct (fds p !! o) as [d|]; [|done].
  destruct ((n <? 0) || (rlim_cur p <=? n)) eqn:E; [done|].
  apply orb_false_iff in E as [E1 E2].
  apply Z.ltb_ge in E1. apply Z.leb_gt in E2.
  intros _. exists d. split; [done|]. split; [lia|].
  destruct (Z.eqb_spec o n); by case_decide.
Qed.

Lemma sys_close_ok fd p :
  ((sys_close fd p).1 <? 0) = false ->
  is_Some (fds p !! fd) /\ fds (sys_close fd p).2 = delete fd (fds p).
Proof. unfold sys_close. destruct (fds p !! fd); [by eauto | done]. Qed.

Lemma sys_fcntl_setfd_ok fd fl p :
  ((sys_fcntl_setfd fd fl p).1 =? -1) = false ->
  exists d,
    fds p !! fd = Some d /\
    fds (sys_fcntl_setfd fd fl p).2 =
      <[fd := {| fd_ofd := fd_ofd d; fd_cloexec := Z.testbit fl 0 |}]> (fds p).
Proof. unfold sys_fcntl_setfd. destruct (fds p !! fd); [by eauto | done]. Qed.

(** Lines 140-158: the pipe ends up on [fd_index + 1], close-on-exec, and
    its old descriptor is closed unless it was there already. *)
Lemma move_syncfd_next s u s' :
  move_syncfd s = (Next u, s') ->
  exists d,
    fds (cproc s) !! syncfd s = Some d /\
    syncfd s' = fd_index s + 1 /\ fd_index s' = fd_index s + 2 /\
    fd_table s' = fd_table s /\
    fds (cproc s') =
      <[fd_index s + 1 := {| fd_ofd := fd_ofd d; fd_cloexec := true |}]>
        (if decide (syncfd s = fd_index s + 1) then fds (cproc s)
         else delete (syncfd s) (fds (cproc s))).
Proof.
  intros H. unfold move_syncfd in H. next_inv H; subst; simpl in *.
  - apply negb_true_iff, Z.eqb_neq in Hif.
    apply sys_dup2_ok in Hok as (d & Hd & _ & Hdup).
    apply sys_close_ok in Hok0 as (_ & Hclose).
    apply sys_fcntl_setfd_ok in Hok1 as (d1 & Hd1 & Hset).
    rewrite Hset. rewrite Hclose, Hdup in Hd1 |- *.
    rewrite !decide_False in * by done.
    rewrite lookup_delete_ne, lookup_insert_eq in Hd1 by done.
    injection Hd1 as <-. simpl.
    exists d. repeat split; try done; try lia.
    rewrite delete_insert_ne by done. by rewrite insert_insert_eq.
  - apply negb_false_iff, Z.eqb_eq in Hif.
    apply sys_fcntl_setfd_ok in Hok as (d & Hd & Hset).
    rewrite Hset. rewrite <-Hif in *.
    exists d. rewrite decide_True by done.
    repeat split; try done; lia.
Qed.

Lemma is_Some_delete_ne (m : gmap Z fdesc) i j :
  is_Some (delete i m !! j) -> i <> j.
Proof. intros [d Hd] ->. by rewrite lookup_delete_eq in Hd. Qed.

(** Lines 59-158 from the child's entry: the parent's end is closed and the
    pipe's write end sits on [max_fd + 1]. *)
Lemma child_sync_moved_next sp fh p u s' :
  child_sync_moved sp fh (Z.of_nat (length fh)) (child_entry sp p) = (Next u, s') ->
  exists d,
    fds p !! sp.2 = Some d /\ sp.1 <> sp.2 /\ is_Some (fds p !! sp.1) /\
    syncfd s' = max_fd fh + 1 /\ fd_index s' = max_fd fh + 2 /\
    ((0 < length fh)%nat -> fd_table s' = Some fh) /\
    rlim_cur (cproc s') = rlim_cur p /\
    fds (cproc s') =
      <[max_fd fh + 1 := {| fd_ofd := fd_ofd d; fd_cloexec := true |}]>
        (if decide (sp.2 = max_fd fh + 1) then delete sp.1 (fds p)
         else delete sp.2 (delete sp.1 (fds p))).
Proof.
  intros H. unfold child_sync_moved in H.
  apply bind_next in H as ([] & s1 & Ha & H).
  apply bind_next in H as ([] & s2 & Hr & H).
  apply bind_next in H as ([] & s3 & Hf & H).
  pose proof (preserves_run _ _ _ _ _ (alloc_fd_table_frame _) Ha) as Fa.
  apply alloc_fd_table_next in Ha as (Ha1 & Ha2 & Ha3 & Ha4 & _).
  pose proof (preserves_run _ _ _ _ _ (reset_signals_frame _) Hr) as Fr.
  apply reset_signals_next in Hr as (_ & Hr0 & Hr1 & Hr2 & Hr3 & Hr4).
  pose proof (preserves_run _ _ _ _ _ move_syncfd_frame H) as Fm.
  apply find_highest_next in Hf as (Hf1 & Hf2 & Hf3 & Hf4 & _).
  - apply move_syncfd_next in H as (d & Hd & Hm1 & Hm2 & Hm3 & Hm4).
    rewrite Hf1, Hf2, Hf3, Hr1, Hr4, Ha1, Ha3 in *. simpl in *.
    rewrite Hm4, Hm1, Hm2, Hm3.
    assert (sp.1 <> sp.2) as Hne by (by apply (is_Some_delete_ne (fds p)); eauto).
    rewrite lookup_delete_ne in Hd by done.
    exists d. repeat split; try done; try lia.
    open_frames. simpl in *. congruence.
  - simpl in *. congruence.
  - intros Hpos. rewrite Hr3, Ha4 by lia.
    eexists. split; [done|]. rewrite length_replicate. lia.
Qed.

(** C8 (amended): the sync pipe's write end is moved to one plus the
    highest requested source descriptor (one plus 0 for an empty list) by
    [dup2] followed by a close of the original; the move is skipped only
    when the descriptor already has exactly that number; either way the
    descriptor is then marked close-on-exec.  Every requested source lies
    below it, and descriptors other than the target and the pipe's two
    original ones are as the parent left them. *)
Theorem syncfd_moves_to_max_plus_one sp fh p u s' :
  child_sync_moved sp fh (Z.of_nat (length fh)) (child_entry sp p) = (Next u, s') ->
  exists d,
    fds p !! sp.2 = Some d /\
    syncfd s' = max_fd fh + 1 /\
    (forall i h, fh !! i = Some h -> h < syncfd s') /\
    fds (cproc s') !! syncfd s' =
      Some {| fd_ofd := fd_ofd d; fd_cloexec := true |} /\
    (sp.2 <> max_fd fh + 1 -> fds (cproc s') !! sp.2 = None) /\
    (forall k, k <> max_fd fh + 1 -> k <> sp.1 -> k <> sp.2 ->
               fds (cproc s') !! k = fds p !! k).
Proof.
  intros H. apply child_sync_moved_next in H
    as (d & Hd & Hne & _ & Hs & _ & _ & _ & Hfds).
  exists d. rewrite Hs, Hfds. repeat split; try done.
  - intros i h Hh. apply max_fd_ge in Hh. lia.
  - apply lookup_insert_eq.
  - intros Hmv. rewrite lookup_insert_ne by done.
    rewrite decide_False by done. apply lookup_delete_eq.
  - intros k Hk1 Hk2 Hk3. rewrite lookup_insert_ne by done.
    case_decide; by rewrite ?lookup_delete_ne by done.
Qed.

(** The forked child of [sample_proc] has the pipe on 3 and 4; with
    sources 0 and 1 it moves the write end from 4 to 2. *)
Lemma syncfd_moves_to_max_plus_one_witness :
  exists s',
    child_sync_moved (3, 4) [0; 1] 2 (child_entry (3, 4) sample_child) = (Next tt, s') /\
    exists d,
      fds sample_child !! 4 = Some d /\
      syncfd s' = 2 /\
      (forall i h, [0; 1] !! i = Some h -> h < syncfd s') /\
      fds (cproc s') !! syncfd s' =
        Some {| fd_ofd := fd_ofd d; fd_cloexec := true |} /\
      (4 <> 2 -> fds (cproc s') !! 4 = None) /\
      (forall k, k <> 2 -> k <> 3 -> k <> 4 ->
                 fds (cproc s') !! k = fds sample_child !! k).
Proof.
  eexists. split; [vm_compute; reflexivity|].
  apply (syncfd_moves_to_max_plus_one (3, 4) [0; 1] sample_child tt).
  vm_compute. reflexivity.
Defined.

(** C8 (as stated, refuted): the write end is on descriptor 4, beyond
    one plus the highest source (2), and is moved all the same: afterwards
    it is on 2 and descriptor 4 is closed. *)
Lemma syncfd_beyond_target_is_moved :
  exists s',
    child_sync_moved (3, 4) [0; 1] 2 (child_entry (3, 4) sample_child) = (Next tt, s') /\
    max_fd [0; 1] + 1 = 2 /\ 2 < 4 /\
    fds sample_child !! 4 = Some {| fd_ofd := PipeW 200; fd_cloexec := false |} /\
    syncfd s' = 2 /\
    fds (cproc s') !! 4 = None /\
    fds (cproc s') !! 2 = Some {| fd_ofd := PipeW 200; fd_cloexec := true |}.
Proof.
  eexists. split; [vm_compute; reflexivity|].
  split_and!; vm_compute; reflexivity.
Qed.

(** C3 (amended): with an empty request list the sync pipe's write end is
    moved to descriptor 1 (by [dup2] and a close of the original, unless it
    is on 1 already) and marked close-on-exec; every descriptor other than
    1 and the pipe's two original ones is as the parent left it.
    Descriptor 1 itself is replaced by the pipe. *)
Theorem empty_request_moves_syncfd_to_one sp p u s' :
  child_sync_moved sp [] 0 (child_entry sp p) = (Next u, s') ->
  exists d,
    fds p !! sp.2 = Some d /\
    syncfd s' = 1 /\
    fds (cproc s') !! 1 = Some {| fd_ofd := fd_ofd d; fd_cloexec := true |} /\
    (sp.2 <> 1 -> fds (cproc s') !! sp.2 = None) /\
    (forall k, k <> 1 -> k <> sp.1 -> k <> sp.2 ->
               fds (cproc s') !! k = fds p !! k).
Proof.
  intros H. apply (child_sync_moved_next sp []) in H
    as (d & Hd & Hne & _ & Hs & _ & _ & _ & Hfds).
  change (max_fd [] + 1) with 1 in *.
  exists d. rewrite Hfds. repeat split; try done.
  - apply lookup_insert_eq.
  - intros Hmv. rewrite lookup_insert_ne by done.
    rewrite decide_False by done. apply lookup_delete_eq.
  - intros k Hk1 Hk2 Hk3. rewrite lookup_insert_ne by done.
    case_decide; by rewrite ?lookup_delete_ne by done.
Qed.

Lemma empty_request_moves_syncfd_to_one_witness :
  exists s',
    child_sync_moved (3, 4) [] 0 (child_entry (3, 4) sample_child) = (Next tt, s') /\
    exists d,
      fds sample_child !! 4 = Some d /\
      syncfd s' = 1 /\
      fds (cproc s') !! 1 = Some {| fd_ofd := fd_ofd d; fd_cloexec := true |} /\
      (4 <> 1 -> fds (cproc s') !! 4 = None) /\
      (forall k, k <> 1 -> k <> 3 -> k <> 4 ->
                 fds (cproc s') !! k = fds sample_child !! k).
Proof.
  eexists. split; [vm_compute; reflexivity|].
  apply (empty_request_moves_syncfd_to_one (3, 4) sample_child tt).
  vm_compute. reflexivity.
Defined.

(** C3 (as stated, refuted): descriptor 1 of the child, open on the
    terminal before the relocation, refers to the pipe after it. *)
Lemma empty_request_overwrites_descriptor_one :
  exists s',
    child_sync_moved (3, 4) [] 0 (child_entry (3, 4) sample_child) = (Next tt, s') /\
    fds sample_child !! 1 = Some (fd_rw 101) /\
    fds (cproc s') !! 1 = Some {| fd_ofd := PipeW 200; fd_cloexec := true |}.
Proof.
  eexists. split; [vm_compute; reflexivity|].
  split_and!; vm_compute; reflexivity.
Qed.

(** ** Descriptors stay within the limit *)

Lemma plimit_refl p : plimit p p.
Proof. intros H. exact H. Qed.

Lemma plimit_trans p1 p2 p3 : plimit p1 p2 -> plimit p2 p3 -> plimit p1 p3.
Proof. unfold plimit. auto. Qed.

Lemma pframe_fds_plimit p p' : pframe_fds p p' -> plimit p p'.
Proof.
  intros [[(_ & Hl & _) _] Hf] H k d. rewrite Hf, Hl. apply H.
Qed.

Lemma fails_plimit e p : plimit p (fails e p).2.
Proof. intros H. exact H. Qed.

Lemma sys_close_plimit fd p : plimit p (sys_close fd p).2.
Proof.
  unfold sys_close. destruct (fds p !! fd); [|apply fails_plimit].
  intros H k d Hk. simpl in *. apply lookup_delete_Some in Hk as [_ Hk]. by eapply H.
Qed.

Lemma sys_dup2_plimit o n p : plimit p (sys_dup2 o n p).2.
Proof.
  unfold sys_dup2. destruct (fds p !! o); [|apply fails_plimit].
  destruct ((n <? 0) || (rlim_cur p <=? n)) eqn:E; [apply fails_plimit|].
  destruct (o =? n); [apply plimit_refl|].
  apply orb_false_iff in E as [_ E]. apply Z.leb_gt in E.
  intros H k d Hk. simpl in *.
  apply lookup_insert_Some in Hk as [[<- _]|[_ Hk]]; [lia | by eapply H].
Qed.

Lemma sys_fcntl_setfd_plimit fd fl p : plimit p (sys_fcntl_setfd fd fl p).2.
Proof.
  unfold sys_fcntl_setfd. destruct (fds p !! fd) eqn:E; [|apply fails_plimit].
  intros H k d Hk. simpl in *.
  apply lookup_insert_Some in Hk as [[<- _]|[_ Hk]]; by eapply H.
Qed.

Lemma env_call_plimit c r ev p : plimit p (env_call c r ev p).2.
Proof. apply pframe_fds_plimit, env_call_frame. Qed.

Lemma sys_sigaction_dfl_plimit sig p : plimit p (sys_sigaction_dfl sig p).2.
Proof. apply pframe_fds_plimit, sys_sigaction_dfl_frame. Qed.

Lemma sys_getrlimit_plimit p : plimit p (sys_getrlimit p).2.
Proof. apply pframe_fds_plimit, sys_getrlimit_frame. Qed.

Lemma sys_calloc_plimit p : plimit p (sys_calloc p).2.
Proof. apply pframe_fds_plimit, sys_calloc_frame. Qed.

Lemma sys_pthread_sigmask_plimit m p : plimit p (sys_pthread_sigmask m p).2.
Proof. intros H. exact H. Qed.

#[local] Hint Resolve plimit_refl plimit_trans sys_close_plimit sys_dup2_plimit
  sys_fcntl_setfd_plimit env_call_plimit sys_sigaction_dfl_plimit
  sys_getrlimit_plimit sys_calloc_plimit sys_pthread_sigmask_plimit : frame.

Lemma child_renumbered_plimit sp fh n attrs :
  preserves (lift_rel plimit) (child_renumbered sp fh n attrs).
Proof.
  unfold child_renumbered, child_sync_moved, alloc_fd_table, reset_signals,
    find_highest, move_syncfd, lift_sources, place_sources, apply_session,
    cloexec_rest, sys_setsid, sys_setpgid, sys_ioctl_tiocsctty.
  frame_steps.
Qed.

(** ** The two passes over the request list (lines 160-187) *)

Lemma load_fd_table_eq s t i : fd_table s = Some t ->
  load_fd_table i s = (Next (array_get t i), s).
Proof. unfold load_fd_table. by intros ->. Qed.

Lemma lift_sources_next fh s u s' :
  ((0 < length fh)%nat -> fd_table s = Some fh) ->
  max_fd fh + 2 <= fd_index s ->
  lift_sources (Z.of_nat (length fh)) s = (Next u, s') ->
  (forall k, k <= max_fd fh + 1 -> fds (cproc s') !! k = fds (cproc s) !! k) /\
  syncfd s' = syncfd s /\
  exists t,
    ((0 < length fh)%nat -> fd_table s' = Some t) /\
    length t = length fh /\
    forall i h, fh !! i = Some h ->
      exists v, t !! i = Some v /\
        lifted (fds (cproc s)) (fds (cproc s')) (max_fd fh) (Z.of_nat i) h v.
Proof.
  intros Htab Hidx H. unfold lift_sources in H.
  destruct (decide (length fh = 0%nat)) as [Hz|Hnz].
  { rewrite Hz, for_range_empty in H by done. injection H as ? <-.
    repeat split; try done. exists (@nil Z).
    split; [intros; exfalso; lia|]. split; [done|].
    intros i h Hh. apply lookup_lt_Some in Hh. lia. }
  specialize (Htab ltac:(lia)).
  set (M := max_fd fh) in *.
  set (Inv := fun (j : Z) (st : cstate) =>
    M + 2 <= fd_index st /\ j < fd_index st /\ syncfd st = syncfd s /\
    (forall k, k <= M + 1 -> fds (cproc st) !! k = fds (cproc s) !! k) /\
    exists t, fd_table st = Some t /\ length t = length fh /\
      (forall i h, fh !! i = Some h -> j <= Z.of_nat i -> t !! i = Some h) /\
      (forall i h, fh !! i = Some h -> Z.of_nat i < j ->
         exists v, t !! i = Some v /\ v < fd_index st /\
           lifted (fds (cproc s)) (fds (cproc st)) M (Z.of_nat i) h v)).
  assert (Inv (Z.of_nat (length fh)) s') as (_ & _ & Hsy & Hlow & t & Ht & Hlen & _ & Hall).
  { assert (0 <= Z.of_nat (length fh)) as Hle by lia.
    apply (fun a b => for_range_next Inv 0 _ _ _ _ _ Hle a b H); clear H.
    - unfold Inv. pose proof (max_fd_nonneg fh). fold M in H.
      repeat split; try done; try lia.
      exists fh. repeat split; try done. intros i h _ ?. lia.
    - intros j s1 s2 Hj (Hi1 & Hi2 & Hsy & Hlow & t & Ht & Hlen & Hrest & Hdone) Hb.
      pose proof (array_get_lookup fh j ltac:(lia)) as Hget.
      pose proof (Hrest _ _ Hget ltac:(lia)) as Htj.
      pose proof (max_fd_ge _ _ _ Hget) as Hmax. fold M in Hmax.
      apply bind_next in Hb as (v & s3 & Hv & Hb).
      rewrite (load_fd_table_eq _ _ _ Ht) in Hv. injection Hv as <- <-.
      assert (array_get t j = array_get fh j) as Hv
        by (unfold array_get at 1; by rewrite Htj).
      rewrite Hv in Hb.
      destruct (array_get fh j =? j) eqn:Hsame.
      + apply Z.eqb_eq in Hsame. injection Hb as <-.
        unfold Inv. repeat split; try done; try lia.
        exists t. repeat split; try done.
        * intros i h Hh Hi. apply Hrest; [done | lia].
        * intros i h Hh Hi.
          destruct (decide (Z.of_nat i = j)) as [<-|Hne].
          -- rewrite Nat2Z.id in *. rewrite Hget in Hh. injection Hh as <-.
             exists (array_get fh (Z.of_nat i)). repeat split; try done; try lia.
             by left.
          -- apply Hdone; [done | lia].
      + apply Z.eqb_neq in Hsame. next_inv Hb; subst; simpl in *.
        apply sys_dup2_ok in Hok as (d & Hd & Hrange & Hdup).
        apply sys_fcntl_setfd_ok in Hok0 as (d1 & Hd1 & Hset).
        rewrite decide_False in Hdup by lia.
        rewrite Hdup, lookup_insert_eq in Hd1. injection Hd1 as <-.
        rewrite Hdup, insert_insert_eq in Hset. simpl in Hset.
        rewrite Hlow in Hd by lia.
        unfold Inv; simpl. rewrite Hset, Ht. simpl.
        split; [lia|]. split; [lia|]. split; [done|]. split.
        { intros k Hk. rewrite lookup_insert_ne by lia. by apply Hlow. }
        eexists. split; [reflexivity|]. split; [by rewrite length_insert|]. split.
        * intros i h Hh Hi. rewrite list_lookup_insert_ne by lia.
          apply Hrest; [done | lia].
        * intros i h Hh Hi.
          destruct (decide (Z.of_nat i = j)) as [<-|Hne].
          -- rewrite Nat2Z.id in *. rewrite Hget in Hh. injection Hh as <-.
             exists (fd_index s1). rewrite list_lookup_insert_eq by lia.
             split; [done|]. split; [lia|]. right. exists d.
             rewrite lookup_insert_eq. repeat split; try done; lia.
          -- destruct (Hdone i h Hh ltac:(lia)) as (v & Hv1 & Hv2 & Hv3).
             exists v. rewrite list_lookup_insert_ne by lia.
             split; [done|]. split; [lia|].
             destruct Hv3 as [?|(d' & ? & ? & ? & Hf)]; [by left|].
             right. exists d'. rewrite lookup_insert_ne by lia. done. }
  split; [done|]. split; [done|].
  exists t. split; [done|]. split; [done|].
  intros i h Hh. pose proof (lookup_lt_Some _ _ _ Hh).
  destruct (Hall i h Hh ltac:(lia)) as (v & ? & _ & ?). by exists v.
Qed.

Lemma place_sources_next fh t F0 s u s' :
  ((0 < length fh)%nat -> fd_table s = Some t) ->
  (forall k, k <= max_fd fh + 1 -> fds (cproc s) !! k = F0 !! k) ->
  (forall i h, fh !! i = Some h ->
     exists v, t !! i = Some v /\
       lifted F0 (fds (cproc s)) (max_fd fh) (Z.of_nat i) h v) ->
  place_sources (Z.of_nat (length fh)) s = (Next u, s') ->
  (forall i h, fh !! i = Some h ->
     exists d, F0 !! h = Some d /\
       fds (cproc s') !! Z.of_nat i =
         Some {| fd_ofd := fd_ofd d; fd_cloexec := false |}) /\
  (forall k, Z.of_nat (length fh) <= k ->
     fds (cproc s') !! k = fds (cproc s) !! k).
Proof.
  intros Htab Hlow Hlift H. unfold place_sources in H.
  destruct (decide (length fh = 0%nat)) as [Hz|Hnz].
  { rewrite Hz, for_range_empty in H by done. injection H as ? <-.
    split; [|done]. intros i h Hh. apply lookup_lt_Some in Hh. lia. }
  specialize (Htab ltac:(lia)).
  set (Inv := fun (j : Z) (st : cstate) =>
    fd_table st = Some t /\
    (forall k, j <= k -> fds (cproc st) !! k = fds (cproc s) !! k) /\
    (forall i h, fh !! i = Some h -> Z.of_nat i < j ->
       exists d, F0 !! h = Some d /\
         fds (cproc st) !! Z.of_nat i =
           Some {| fd_ofd := fd_ofd d; fd_cloexec := false |})).
  assert (Inv (Z.of_nat (length fh)) s') as (_ & Hhigh & Hall).
  { assert (0 <= Z.of_nat (length fh)) as Hle by lia.
    apply (fun a b => for_range_next Inv 0 _ _ _ _ _ Hle a b H); clear H.
    - unfold Inv. repeat split; try done. intros i h _ ?. lia.
    - intros j s1 s2 Hj (Ht & Hhigh & Hdone) Hb.
      pose proof (array_get_lookup fh j ltac:(lia)) as Hget.
      destruct (Hlift _ _ Hget) as (v & Hv & Hl).
      rewrite Z2Nat.id in Hl by lia.
      pose proof (max_fd_ge _ _ _ Hget) as Hmax.
      apply bind_next in Hb as (v' & s3 & Hv' & Hb).
      rewrite (load_fd_table_eq _ _ _ Ht) in Hv'. injection Hv' as <- <-.
      assert (array_get t j = v) as Hvj by (unfold array_get; by rewrite Hv).
      rewrite Hvj in Hb. clear Hvj.
      assert (forall i h, fh !! i = Some h -> Z.of_nat i < j + 1 ->
                Z.of_nat i <> j ->
                exists d, F0 !! h = Some d /\
                  fds (cproc s1) !! Z.of_nat i =
                    Some {| fd_ofd := fd_ofd d; fd_cloexec := false |})
        as Hdone' by (intros i h Hh ? ?; apply Hdone; [done | lia]).
      destruct (v =? j) eqn:Hsame; simpl in Hb.
      + apply Z.eqb_eq in Hsame. subst v.
        destruct Hl as [[Hvh _]|(d & ? & _)]; [|lia].
        next_inv Hb; subst; simpl in *.
        apply sys_fcntl_setfd_ok in Hok as (d & Hd & Hset).
        unfold Inv; simpl. rewrite Hset. split; [done|]. split.
        * intros k Hk. rewrite lookup_insert_ne by lia. apply Hhigh. lia.
        * intros i h Hh Hi.
          destruct (decide (Z.of_nat i = j)) as [<-|Hne].
          -- rewrite Nat2Z.id in Hget. rewrite Hget in Hh.
             injection Hh as <-. rewrite lookup_insert_eq.
             exists d. split; [|done].
             rewrite Hhigh in Hd by lia. rewrite Hlow in Hd by lia.
             by rewrite <-Hvh.
          -- rewrite lookup_insert_ne by done. by apply Hdone'.
      + apply Z.eqb_neq in Hsame.
        destruct Hl as [[? ?]|(d & Hjv & _ & HF0 & Hfv)]; [lia|].
        next_inv Hb; subst; simpl in *.
        apply sys_dup2_ok in Hok as (d0 & Hd0 & _ & Hdup).
        apply sys_fcntl_setfd_ok in Hok0 as (d1 & Hd1 & Hset).
        rewrite decide_False in Hdup by done.
        rewrite Hhigh, Hfv in Hd0 by lia. injection Hd0 as <-.
        rewrite Hdup, lookup_insert_eq in Hd1. injection Hd1 as <-.
        rewrite Hdup, insert_insert_eq in Hset. simpl in Hset.
        unfold Inv; simpl. rewrite Hset. split; [done|]. split.
        * intros k Hk. rewrite lookup_insert_ne by lia. apply Hhigh. lia.
        * intros i h Hh Hi.
          destruct (decide (Z.of_nat i = j)) as [<-|Hne].
          -- rewrite Nat2Z.id in Hget. rewrite Hget in Hh.
             injection Hh as <-. rewrite lookup_insert_eq.
             by exists d.
          -- rewrite lookup_insert_ne by done. by apply Hdone'. }
  split; [|done].
  intros i h Hh. pose proof (lookup_lt_Some _ _ _ Hh). apply (Hall i h Hh). lia.
Qed.

(** Lines 206-215: the descriptors below [n] are left alone, and every open
    one from [n] to the limit ends up close-on-exec. *)
Lemma cloexec_rest_next n s u s' :
  0 <= n ->
  cloexec_rest n s = (Next u, s') ->
  (forall k, k < n -> fds (cproc s') !! k = fds (cproc s) !! k) /\
  (forall k d, n <= k <= rlim_cur (cproc s) ->
     fds (cproc s') !! k = Some d -> fd_cloexec d = true).
Proof.
  intros Hn H. unfold cloexec_rest in H.
  apply bind_next in H as (lim & s1 & Hlim & H).
  apply sys_out_next in Hlim as [-> ->].
  apply bind_next in H as ([] & s2 & Hok & H).
  apply fail_if_next in Hok as [Hok ->].
  unfold sys_getrlimit in *.
  destruct (fault (cproc s) Getrlimit); [done|]. simpl in H. clear Hok.
  replace (n <? 0) with false in H by (symmetry; apply Z.ltb_ge; lia).
  replace (set_cproc (cproc s) s) with s in H by (by destruct s).
  destruct (decide (n <= rlim_cur (cproc s) + 1)) as [Hle|Hgt].
  2: { rewrite for_range_empty in H by lia. injection H as ? <-.
       split; [done|]. intros; lia. }
  set (Inv := fun (i : Z) (st : cstate) =>
    (forall k, k < n -> fds (cproc st) !! k = fds (cproc s) !! k) /\
    (forall k d, n <= k < i ->
       fds (cproc st) !! k = Some d -> fd_cloexec d = true)).
  assert (Inv (rlim_cur (cproc s) + 1) s') as (Hlow & Hhigh).
  { apply (fun a b => for_range_next Inv n _ _ _ _ _ Hle a b H); clear H.
    - unfold Inv. split; [done|]. intros; lia.
    - intros j s3 s4 Hj (Hlow & Hhigh) Hb.
      apply bind_next in Hb as (r & s5 & Hr & Hb).
      apply sys_next in Hr as [-> ->].
      apply bind_next in Hb as (e & s6 & He & Hb). injection He as <- <-.
      apply fail_if_next in Hb as [_ ->].
      unfold Inv, sys_fcntl_setfd; simpl.
      destruct (fds (cproc s3) !! j) as [dj|] eqn:Ej; simpl.
      + split.
        * intros k Hk. rewrite lookup_insert_ne by lia. by apply Hlow.
        * intros k d Hk. destruct (decide (k = j)) as [->|Hne].
          -- rewrite lookup_insert_eq. by intros [= <-].
          -- rewrite lookup_insert_ne by done. apply Hhigh. lia.
      + split; [done|].
        intros k d Hk. destruct (decide (k = j)) as [->|Hne].
        * by rewrite Ej.
        * apply Hhigh. lia. }
  split; [done|]. intros k d Hk. apply Hhigh. lia.
Qed.

(** A process that holds no descriptor above its descriptor limit (the
    kernel hands out none there, and nothing here lowers the limit): when
    the child gets through the renumbering, every source is on its
    position and every open descriptor from N upwards is close-on-exec. *)
Lemma renumbering_within_limit sp fh attrs p u s' :
  within_limit p ->
  child_renumbered sp fh (Z.of_nat (length fh)) attrs (child_entry sp p)
    = (Next u, s') ->
  (forall i h, fh !! i = Some h ->
     exists d, fds p !! h = Some d /\
       fds (cproc s') !! Z.of_nat i =
         Some {| fd_ofd := fd_ofd d; fd_cloexec := false |}) /\
  (forall k d, Z.of_nat (length fh) <= k ->
     fds (cproc s') !! k = Some d -> fd_cloexec d = true).
Proof.
  intros W H.
  pose proof (preserves_run _ _ _ _ _ (child_renumbered_plimit _ _ _ _) H W) as W'.
  unfold child_renumbered in H.
  apply bind_next in H as ([] & s4 & Hsync & H).
  apply bind_next in H as ([] & s5 & Hlift & H).
  apply bind_next in H as ([] & s6 & Hplace & H).
  apply bind_next in H as ([] & s7 & Hsess & H).
  apply child_sync_moved_next in Hsync
    as (d0 & _ & _ & _ & Hsy & Hidx & Htab & _ & Hfds4).
  apply lift_sources_next in Hlift as (Hlow5 & _ & t & Ht & Hlen & Hlifted);
    [|done|lia].
  apply (place_sources_next fh t (fds (cproc s4))) in Hplace
    as (Hplaced & _); [|done|done|done].
  pose proof (preserves_run _ _ _ _ _ (apply_session_frame _) Hsess) as Fs.
  pose proof (preserves_run _ _ _ _ _ (cloexec_rest_frame _) H) as Fc.
  apply cloexec_rest_next in H as (Hlow8 & Hce); [|lia].
  open_frames. split.
  - intros i h Hh. destruct (Hplaced i h Hh) as (d & Hd & Hi).
    pose proof (lookup_lt_Some _ _ _ Hh). pose proof (max_fd_ge _ _ _ Hh).
    exists d. split.
    + rewrite Hfds4, lookup_insert_ne in Hd by lia.
      case_decide; repeat (apply lookup_delete_Some in Hd as [_ Hd]); done.
    + rewrite Hlow8 by lia. congruence.
  - intros k d Hk Hd. apply (Hce k d); [|done].
    split; [done|]. specialize (W' k d Hd). simpl in W'. congruence.
Qed.

(** The parent's descriptors 5, 0 and 1 become 0, 1 and 2 of the child;
    0 and 1 are both a source and a target of another position. *)
Example renumbering_of_sample_child :
  exists s',
    child_renumbered (3, 4) [5; 0; 1] 3 sample_attrs (child_entry (3, 4) sample_child)
      = (Next tt, s') /\
    fds (cproc s') !! 0 = Some (fd_rw 102) /\
    fds (cproc s') !! 1 = Some (fd_ro 100) /\
    fds (cproc s') !! 2 = Some (fd_rw 101).
Proof. eexists. split_and!; vm_compute; reflexivity. Qed.

(** The loop of lines 211-215 stops at the limit: a descriptor held above
    it keeps its flag. *)
Example descriptor_above_limit_keeps_flag :
  exists s',
    child_renumbered (3, 4) [5; 0; 1] 3 sample_attrs
      (child_entry (3, 4) stretched_child) = (Next tt, s') /\
    fds (cproc s') !! 0 = Some (fd_rw 102) /\
    fds (cproc s') !! 20 = Some (fd_rw 103) /\
    rlim_cur (cproc s') = 16.
Proof. eexists. split_and!; vm_compute; reflexivity. Qed.

(** ** The handshake over the sync pipe *)

(** What the child leaves in a pipe that was empty when it started: nothing,
    or the four bytes of the errno code it exited on. *)
Lemma child_handler_report fuel sp exe args env fh n cwd om attrs p id :
  written p !! id = Some [] ->
  pipe_data id (child_handler fuel sp exe args env fh n cwd om attrs p) = [] \/
  exists e cp,
    child_handler fuel sp exe args env fh n cwd om attrs p = Exited 127 cp /\
    errno cp = errno_val e /\
    pipe_data id (child_handler fuel sp exe args env fh n cwd om attrs p)
      = int_bytes (errno_val e).
Proof.
  intros Hw. unfold child_handler.
  destruct (child_steps _ _ _ _ _ _) as [out s] eqn:Hs.
  pose proof (preserves_run _ _ _ _ _ (child_steps_frame _ _ _ _ _) Hs)
    as (Hwr & _ & _). simpl in Hwr.
  assert (forall s1, written (cproc s1) = written p -> errno_set (cproc s1) ->
            pipe_data id (child_fail fuel s1) = [] \/
            exists e cp, child_fail fuel s1 = Exited 127 cp /\
              errno cp = errno_val e /\
              pipe_data id (child_fail fuel s1) = int_bytes (errno_val e))
    as Hfail.
  { intros s1 Hw1 [e He]. rewrite child_fail_eq.
    destruct (released_facts s1) as (Her & _ & Hwr1 & _).
    rewrite Her, He.
    replace (negb (errno_val e =? 0)) with true
      by (pose proof (errno_val_pos e); symmetry;
          apply negb_true_iff, Z.eqb_neq; lia).
    destruct (fd_sink (released s1) (syncfd s1)) as [id'|] eqn:Hsink.
    - destruct fuel as [|fuel].
      + left. unfold pipe_data. simpl. by rewrite Hwr1, Hw1, Hw.
      + rewrite (write_retry_ok _ _ _ _ _ Hsink).
        destruct (decide (id' = id)) as [->|Hne].
        * right. exists e. eexists. split; [reflexivity|].
          split; [simpl; congruence|].
          unfold pipe_data. simpl. rewrite lookup_insert_eq. simpl.
          by rewrite Hwr1, Hw1, Hw.
        * left. unfold pipe_data. simpl. rewrite lookup_insert_ne by done.
          by rewrite Hwr1, Hw1, Hw.
    - rewrite (write_retry_bad _ _ _ _ Hsink). left.
      unfold pipe_data. destruct fuel; simpl; by rewrite Hwr1, Hw1, Hw. }
  destruct out as [[]|].
  - unfold sys_execve. destruct (fault (cproc s) Execve) as [e|]; simpl.
    + apply Hfail; [done | by exists e].
    + left. unfold pipe_data. simpl. by rewrite Hwr, Hw.
  - apply Hfail; [done|]. by apply (child_steps_fails _ _ _ _ _ _ _ Hs).
Qed.

(** The parent's half when the pipe is empty at end of file. *)
Lemma exec_command_parent_eof sp pid om res c p id dR dW :
  fds p !! sp.1 = Some dR -> fd_ofd dR = PipeR id ->
  fds p !! sp.2 = Some dW -> sp.1 <> sp.2 ->
  pipe_data id c = [] ->
  forall out, exec_command_parent sp pid om res c p = Some out ->
  out.1.1 = 0 /\ out.1.2 = pid /\ trace out.2 = EvRead sp.1 0 :: trace p.
Proof.
  intros HR HRo HW Hne Hdata out. unfold exec_command_parent, sys_close.
  rewrite HW. simpl. unfold sys_read_sync. simpl.
  rewrite lookup_delete_ne, HR, HRo by done.
  unfold pipe_data in Hdata. rewrite Hdata. simpl.
  destruct (child_holds _ _); [done|]. simpl.
  rewrite lookup_delete_ne, HR by done. simpl.
  intros [= <-]. by rewrite exec_command_fail_eq.
Qed.

(** The parent's half when the pipe holds the child's errno code. *)
Lemma exec_command_parent_report sp pid om res c p id dR dW e :
  fds p !! sp.1 = Some dR -> fd_ofd dR = PipeR id ->
  fds p !! sp.2 = Some dW -> sp.1 <> sp.2 ->
  pipe_data id c = int_bytes (errno_val e) ->
  exists p',
    exec_command_parent sp pid om res c p = Some (-1, res, p') /\
    trace p' =
      EvPrintfExecve (errno_val e) ::
      match fault p Waitpid with None => [EvWaitpid pid] | Some _ => [] end
      ++ EvRead sp.1 4 :: trace p /\
    (fault p Waitpid = None -> errno p' = errno_val e).
Proof.
  intros HR HRo HW Hne Hdata. unfold exec_command_parent, sys_close.
  rewrite HW. simpl. unfold sys_read_sync. simpl.
  rewrite lookup_delete_ne, HR, HRo by done.
  unfold pipe_data in Hdata. rewrite Hdata.
  cbn [take int_bytes length drop app Z.of_nat Pos.of_succ_nat Pos.succ].
  change (4 =? 4) with true. cbn [negb].
  fold (int_bytes (errno_val e)).
  rewrite bytes_int_int_bytes by (pose proof (errno_val_pos e); lia).
  unfold sys_waitpid, env_call. simpl.
  replace (negb (errno_val e =? 0)) with true
    by (pose proof (errno_val_pos e); symmetry;
        apply negb_true_iff, Z.eqb_neq; lia).
  destruct (fault p Waitpid) eqn:Hwait; simpl;
    rewrite lookup_delete_ne, HR by done; simpl;
    rewrite exec_command_fail_eq;
    replace (negb (errno_val e =? 0)) with true
      by (pose proof (errno_val_pos e); symmetry;
          apply negb_true_iff, Z.eqb_neq; lia);
    eexists; split; try reflexivity; split; try reflexivity; done.
Qed.

(** Once its [close] of the write end is done, the parent returns exactly
    when its [read] does: nothing after the read can block in the model. *)
Lemma exec_command_parent_returns sp pid om res c p dW :
  fds p !! sp.2 = Some dW ->
  exec_command_parent sp pid om res c p = None <->
  sys_read_sync sp.1 4 c (sys_close sp.2 p).2 = None.
Proof.
  intros HW. unfold exec_command_parent.
  replace ((sys_close sp.2 p).1 <? 0) with false
    by (unfold sys_close; by rewrite HW).
  destruct (sys_read_sync _ _ _ _) as [[[size got] p2]|]; [|done].
  split; [|done]. repeat case_match; done.
Qed.

(** A spawn that succeeds: the child runs the new image with the three
    requested descriptors and nothing else, its mask empty; the parent reads
    end of file and returns 0 with the child's pid, its own mask back. *)
Example exec_command_success :
  exists p' cp,
    exec_command 1 0 77 "/bin/true" [] [] [5; 0; 1] 3 None sample_attrs
      (sample_proc 32 no_fault)
      = {| parent := Some (0, 11, p'); child := Some (Execed cp) |} /\
    sigmask p' = 5 /\ fds p' = fds (sample_proc 32 no_fault) /\
    trace p' = [EvRead 3 0] /\
    fds cp = list_to_map [(0, fd_rw 102); (1, fd_ro 100); (2, fd_rw 101)] /\
    sigmask cp = 0.
Proof. eexists _, _. split_and!; vm_compute; reflexivity. Qed.

(** * Further properties *)

(** ** The caller's descriptor table *)

Lemma exec_command_fail_fds old_mask err result p :
  fds (exec_command_fail old_mask err result p).2 = fds p.
Proof. rewrite exec_command_fail_eq. by destruct (negb (err =? 0)). Qed.

Lemma exec_command_fail_errno old_mask err result p :
  errno (exec_command_fail old_mask err result p).2 = errno p.
Proof. rewrite exec_command_fail_eq. by destruct (negb (err =? 0)). Qed.

Lemma sys_read_sync_fds fd count c p out :
  sys_read_sync fd count c p = Some out -> fds out.2 = fds p.
Proof.
  unfold sys_read_sync. intros H.
  repeat case_match; simplify_eq; done.
Qed.

(** The parent's half closes both ends of the pipe. *)
Lemma exec_command_parent_fds sp pid om res c p dR dW out :
  fds p !! sp.1 = Some dR -> fds p !! sp.2 = Some dW -> sp.1 <> sp.2 ->
  exec_command_parent sp pid om res c p = Some out ->
  fds out.2 = delete sp.1 (delete sp.2 (fds p)).
Proof.
  intros HR HW Hne. unfold exec_command_parent, sys_close at 1 2 3.
  rewrite HW. simpl.
  destruct (sys_read_sync _ _ _ _) as [[[size got] p2]|] eqn:Hread; [|done].
  apply sys_read_sync_fds in Hread. simpl in Hread.
  set (p3 := if negb (size =? 4) then p2 else _).
  assert (fds p3 = delete sp.2 (fds p)) as H3.
  { subst p3. destruct (negb (size =? 4)); [done|].
    destruct (env_call_frame Waitpid pid (EvWaitpid pid)
                (set_errno (bytes_int (got ++ drop (length got) (int_bytes 0))) p2))
      as [_ Hf].
    unfold sys_waitpid. by rewrite Hf. }
  clearbody p3. unfold sys_close. rewrite H3, lookup_delete_ne, HR by done. simpl.
  destruct (negb (_ =? 0)); intros [= <-];
    by rewrite exec_command_fail_fds.
Qed.

Lemma delete_pair_insert_pair (m : gmap Z fdesc) r w R W :
  m !! r = None -> m !! w = None ->
  delete r (delete w (<[w:=W]> (<[r:=R]> m))) = m.
Proof.
  intros Hr Hw. apply map_eq. intros k.
  destruct (decide (k = r)) as [->|]; [by rewrite lookup_delete_eq|].
  rewrite lookup_delete_ne by done.
  destruct (decide (k = w)) as [->|]; [by rewrite lookup_delete_eq|].
  by rewrite lookup_delete_ne, !lookup_insert_ne.
Qed.

(** X1: whenever [exec_command] returns, whatever the path (the pipe could
    not be made, [fork] failed, the child reported an error or reached the
    new image), the caller's descriptor table is what it was before the
    call: both ends of the sync pipe have been closed again and no other
    descriptor was touched. *)
Theorem exec_command_keeps_descriptor_table
    fuel old_mask result exe args envp fh n wd attrs p out :
  parent (exec_command fuel old_mask result exe args envp fh n wd attrs p) = Some out ->
  fds out.2 = fds p.
Proof.
  unfold exec_command.
  destruct (sys_pipe p) as [[r [[rfd wfd]|]] p1] eqn:Hpipe; simpl.
  2: { intros [= <-]. rewrite exec_command_fail_fds.
       apply sys_pipe_failed in Hpipe as [_ ->]. done. }
  apply sys_pipe_ok in Hpipe as (_ & Hne & HfR & HfW & Hfds & _).
  assert (delete rfd (delete wfd (fds p1)) = fds p) as Hback
    by (rewrite Hfds; by apply delete_pair_insert_pair).
  assert (fds p1 !! rfd = Some {| fd_ofd := PipeR (next_obj p); fd_cloexec := false |})
    as HR by (rewrite Hfds, lookup_insert_ne, lookup_insert_eq; done).
  assert (fds p1 !! wfd = Some {| fd_ofd := PipeW (next_obj p); fd_cloexec := false |})
    as HW by (rewrite Hfds, lookup_insert_eq; done).
  destruct (sys_fork _) as [[pid p3] [cp|]] eqn:Hfork; simpl.
  - apply sys_fork_ok in Hfork as (_ & _ & -> & _).
    intros H.
    eapply (exec_command_parent_fds (rfd, wfd)) in H;
      [|exact HR|exact HW|exact Hne].
    rewrite H. exact Hback.
  - intros [= <-]. rewrite exec_command_fail_fds.
    unfold sys_fork in Hfork. simpl in Hfork.
    destruct (fault p1 Fork); [|done]. injection Hfork as _ <-.
    unfold sys_close at 2. simpl. rewrite HR. simpl.
    unfold sys_close. simpl. rewrite lookup_delete_ne, HW by done. simpl.
    by rewrite delete_delete.
Qed.

(** The child reports ENOENT; the caller is left with descriptors 0, 1, 2
    and 5 as before. *)
Lemma exec_command_keeps_descriptor_table_witness :
  exists out,
    parent (exec_command 1 0 77 "/bin/true" [] [] [5; 0; 1] 3 None sample_attrs
              (sample_proc 32 execve_enoent)) = Some out /\
    out.1.1 = -1 /\
    fds out.2 = fds (sample_proc 32 execve_enoent).
Proof.
  eexists. split; [vm_compute; reflexivity|]. split; [reflexivity|].
  apply (exec_command_keeps_descriptor_table
           1 0 77 "/bin/true" [] [] [5; 0; 1] 3 None sample_attrs
           (sample_proc 32 execve_enoent)).
  vm_compute. reflexivity.
Defined.

(** ** What the child writes *)

(** X3: whatever the request and however the child ends, the code of
    [child_handler] makes at most one [write] that takes effect: the four
    bytes of one errno code, by line 245 at the [fail] label, after which
    it calls [exit(127)]; a child that reaches the new image, or that is
    still retrying, has written nothing to any file or pipe.  [written] is
    read at the call of [exit]: what [exit] itself writes when it flushes
    the stdio buffers the child inherited is not counted here. *)
Theorem child_handler_writes_only_errno
    fuel sp exe args env fh n cwd om attrs p :
  written (child_proc (child_handler fuel sp exe args env fh n cwd om attrs p))
    = written p \/
  exists id e cp,
    child_handler fuel sp exe args env fh n cwd om attrs p = Exited 127 cp /\
    errno cp = errno_val e /\
    written cp =
      <[id := default [] (written p !! id) ++ int_bytes (errno_val e)]> (written p).
Proof.
  unfold child_handler.
  destruct (child_steps _ _ _ _ _ _) as [out s] eqn:Hs.
  pose proof (preserves_run _ _ _ _ _ (child_steps_frame _ _ _ _ _) Hs)
    as (Hwr & _ & _). simpl in Hwr.
  assert (forall s1, written (cproc s1) = written p -> errno_set (cproc s1) ->
            written (child_proc (child_fail fuel s1)) = written p \/
            exists id e cp, child_fail fuel s1 = Exited 127 cp /\
              errno cp = errno_val e /\
              written cp =
                <[id := default [] (written p !! id) ++ int_bytes (errno_val e)]>
                  (written p))
    as Hfail.
  { intros s1 Hw1 [e He]. rewrite child_fail_eq.
    destruct (released_facts s1) as (Her & _ & Hwr1 & _).
    rewrite Her, He.
    replace (negb (errno_val e =? 0)) with true
      by (pose proof (errno_val_pos e); symmetry;
          apply negb_true_iff, Z.eqb_neq; lia).
    destruct (fd_sink (released s1) (syncfd s1)) as [id'|] eqn:Hsink.
    - destruct fuel as [|fuel].
      + left. simpl. by rewrite Hwr1.
      + rewrite (write_retry_ok _ _ _ _ _ Hsink).
        right. exists id', e. eexists. split; [reflexivity|].
        split; [simpl; congruence|]. simpl. by rewrite Hwr1, Hw1.
    - rewrite (write_retry_bad _ _ _ _ Hsink). left.
      destruct fuel; simpl; by rewrite Hwr1. }
  destruct out as [[]|].
  - unfold sys_execve. destruct (fault (cproc s) Execve) as [e|]; simpl.
    + apply Hfail; [done | by exists e].
    + by left.
  - apply Hfail; [done|]. by apply (child_steps_fails _ _ _ _ _ _ _ Hs).
Qed.

(** ** Session and identity (lines 189-204 and 217-235) *)

Ltac stopped_at done :=
  exists done; eexists _, _, _, _;
  split_and!; [reflexivity | reflexivity | repeat constructor; eauto
              | reflexivity | eassumption | reflexivity].

(** X4: the child calls [setsid], then [setpgid(0, pgid)], then
    [ioctl(ctty, TIOCSCTTY)], each one only when its flag is not 0.  When
    they all succeed it goes on with [errno] untouched; the first one that
    fails sends it to the [fail] label with that call's code in [errno],
    and the calls after it are not made. *)
Theorem apply_session_calls attrs s out s' :
  apply_session attrs s = (out, s') ->
  (out = Next tt -> made_all (session_calls attrs) (cproc s) (cproc s')) /\
  (out = GotoFail -> stopped_in (session_calls attrs) (cproc s) (cproc s')).
Proof.
  unfold apply_session, session_calls, made_all, stopped_in, bind, sys, fail_if,
    sys_setsid, sys_setpgid, sys_ioctl_tiocsctty, env_call, fails, goto_fail, ret.
  destruct (setsid attrs =? 0), (setpgid attrs =? 0), (setctty attrs =? 0);
    destruct (fault (cproc s) Setsid) eqn:E1, (fault (cproc s) Setpgid) eqn:E2,
      (fault (cproc s) Ioctl) eqn:E3;
    simpl; rewrite ?E1, ?E2, ?E3; simpl; rewrite ?E1, ?E2, ?E3; simpl;
    rewrite ?E1, ?E2, ?E3; simpl; intros [= <- <-]; (split; [intros Ho|intros Ho]); try discriminate Ho;
    simpl;
    try (split_and!; [reflexivity | reflexivity | repeat constructor; eauto]);
    first [stopped_at (@nil event) | stopped_at [EvSetsid]
          | stopped_at [EvSetpgid 0 (pgid attrs)]
          | stopped_at [EvSetsid; EvSetpgid 0 (pgid attrs)]].
Qed.

(** A session leader in its own process group. *)
Lemma apply_session_calls_witness :
  exists s',
    apply_session sample_identity (sample_state no_fault) = (Next tt, s') /\
    trace (cproc s') = [EvSetpgid 0 0; EvSetsid] /\
    made_all (session_calls sample_identity) (cproc (sample_state no_fault)) (cproc s').
Proof.
  eexists. split; [vm_compute; reflexivity|]. split; [vm_compute; reflexivity|].
  apply (proj1 (apply_session_calls sample_identity (sample_state no_fault)
                  (Next tt) _ ltac:(vm_compute; reflexivity))).
  reflexivity.
Defined.

(** X5: the child calls [setgid(gid)], then [setreuid(uid, uid)], then
    [chdir(cwd)]: the group is changed while the process still has the
    identity it was forked with.  Each call is made only when it is asked
    for (an id other than [(uid_t)-1], a directory that is not NULL); the
    first one that fails sends the child to the [fail] label with that
    call's code in [errno], and the calls after it are not made. *)
Theorem apply_identity_calls cwd attrs s out s' :
  apply_identity cwd attrs s = (out, s') ->
  (out = Next tt -> made_all (identity_calls cwd attrs) (cproc s) (cproc s')) /\
  (out = GotoFail -> stopped_in (identity_calls cwd attrs) (cproc s) (cproc s')).
Proof.
  unfold apply_identity, identity_calls, made_all, stopped_in, bind, sys, fail_if,
    sys_setgid, sys_setreuid, sys_chdir, env_call, fails, goto_fail, ret.
  destruct (gid attrs =? to_uint32 (-1)), (uid attrs =? to_uint32 (-1)),
    cwd as [dir|];
    destruct (fault (cproc s) Setgid) eqn:E1, (fault (cproc s) Setreuid) eqn:E2,
      (fault (cproc s) Chdir) eqn:E3;
    simpl; rewrite ?E1, ?E2, ?E3; simpl; rewrite ?E1, ?E2, ?E3; simpl;
    rewrite ?E1, ?E2, ?E3; simpl; intros [= <- <-];
    (split; [intros Ho|intros Ho]); try discriminate Ho;
    simpl;
    try (split_and!; [reflexivity | reflexivity | repeat constructor; eauto]);
    first [stopped_at (@nil event) | stopped_at [EvSetgid (gid attrs)]
          | stopped_at [EvSetreuid (uid attrs) (uid attrs)]
          | stopped_at [EvSetgid (gid attrs); EvSetreuid (uid attrs) (uid attrs)]].
Qed.

(** [setgid] is refused: neither [setreuid] nor [chdir] is called. *)
Lemma apply_identity_calls_witness :
  exists s',
    apply_identity (Some "/tmp") sample_identity (sample_state setgid_eperm)
      = (GotoFail, s') /\
    trace (cproc s') = [] /\ errno (cproc s') = errno_val EPERM /\
    stopped_in (identity_calls (Some "/tmp") sample_identity)
      (cproc (sample_state setgid_eperm)) (cproc s').
Proof.
  eexists. split; [vm_compute; reflexivity|].
  split; [vm_compute; reflexivity|]. split; [vm_compute; reflexivity|].
  apply (proj2 (apply_identity_calls (Some "/tmp") sample_identity
                  (sample_state setgid_eperm) GotoFail _
                  ltac:(vm_compute; reflexivity))).
  reflexivity.
Defined.

(** X6: attributes that [exec_command_attrs_init] has set and that were
    not changed afterwards ask for nothing: with no working directory
    either, lines 189-204 and 217-235 make no call, cannot fail and leave
    the child as it was.  The ids are stored as [(uid_t)-1] and compare
    equal to the -1 of the two tests. *)
Theorem default_attrs_make_no_call (a : exec_command_attrs) (s : cstate) :
  apply_session (exec_command_attrs_init a) s = (Next tt, s) /\
  apply_identity None (exec_command_attrs_init a) s = (Next tt, s) /\
  session_calls (exec_command_attrs_init a) = [] /\
  identity_calls None (exec_command_attrs_init a) = [].
Proof. by destruct s. Qed.

(** ** More frames: events, descriptor range, the local [syncfd] *)

Lemma pquiet_refl p : pquiet p p.
Proof. done. Qed.

Lemma pquiet_trans p1 p2 p3 : pquiet p1 p2 -> pquiet p2 p3 -> pquiet p1 p3.
Proof. unfold pquiet. congruence. Qed.

Lemma fails_pquiet e p : pquiet p (fails e p).2.
Proof. done. Qed.

Lemma sys_close_pquiet fd p : pquiet p (sys_close fd p).2.
Proof. unfold sys_close. by destruct (fds p !! fd). Qed.

Lemma sys_dup2_pquiet o n p : pquiet p (sys_dup2 o n p).2.
Proof. unfold sys_dup2. by repeat case_match. Qed.

Lemma sys_fcntl_setfd_pquiet fd fl p : pquiet p (sys_fcntl_setfd fd fl p).2.
Proof. unfold sys_fcntl_setfd. by destruct (fds p !! fd). Qed.

Lemma sys_getrlimit_pquiet p : pquiet p (sys_getrlimit p).2.
Proof. unfold sys_getrlimit. by destruct (fault p Getrlimit). Qed.

Lemma sys_calloc_pquiet p : pquiet p (sys_calloc p).2.
Proof. unfold sys_calloc. by destruct (fault p Calloc). Qed.

Lemma sys_pthread_sigmask_pquiet m p : pquiet p (sys_pthread_sigmask m p).2.
Proof. done. Qed.

#[local] Hint Resolve pquiet_refl pquiet_trans sys_close_pquiet sys_dup2_pquiet
  sys_fcntl_setfd_pquiet sys_getrlimit_pquiet sys_calloc_pquiet
  sys_pthread_sigmask_pquiet : frame.

Lemma alloc_fd_table_quiet n : preserves (lift_rel pquiet) (alloc_fd_table n).
Proof. unfold alloc_fd_table. frame_steps. Qed.

Lemma find_highest_quiet fh n : preserves (lift_rel pquiet) (find_highest fh n).
Proof. unfold find_highest. frame_steps. Qed.

Lemma move_syncfd_quiet : preserves (lift_rel pquiet) move_syncfd.
Proof. unfold move_syncfd. frame_steps. Qed.

Lemma lift_sources_quiet n : preserves (lift_rel pquiet) (lift_sources n).
Proof. unfold lift_sources. frame_steps. Qed.

Lemma place_sources_quiet n : preserves (lift_rel pquiet) (place_sources n).
Proof. unfold place_sources. frame_steps. Qed.

Lemma cloexec_rest_quiet n : preserves (lift_rel pquiet) (cloexec_rest n).
Proof. unfold cloexec_rest. frame_steps. Qed.

Lemma prange_refl p : prange p p.
Proof. intros H. exact H. Qed.

Lemma prange_trans p1 p2 p3 : prange p1 p2 -> prange p2 p3 -> prange p1 p3.
Proof. unfold prange. auto. Qed.

Lemma pframe_fds_prange p p' : pframe_fds p p' -> prange p p'.
Proof.
  intros [[(_ & Hl & _) _] Hf] H k d. rewrite Hf, Hl. apply H.
Qed.

Lemma fails_prange e p : prange p (fails e p).2.
Proof. intros H. exact H. Qed.

Lemma sys_close_prange fd p : prange p (sys_close fd p).2.
Proof.
  unfold sys_close. destruct (fds p !! fd); [|apply fails_prange].
  intros H k d Hk. simpl in *. apply lookup_delete_Some in Hk as [_ Hk]. by eapply H.
Qed.

Lemma sys_dup2_prange o n p : prange p (sys_dup2 o n p).2.
Proof.
  unfold sys_dup2. destruct (fds p !! o); [|apply fails_prange].
  destruct ((n <? 0) || (rlim_cur p <=? n)) eqn:E; [apply fails_prange|].
  destruct (o =? n); [apply prange_refl|].
  apply orb_false_iff in E as [E1 E2]. apply Z.ltb_ge in E1. apply Z.leb_gt in E2.
  intros H k d Hk. simpl in *.
  apply lookup_insert_Some in Hk as [[<- _]|[_ Hk]]; [lia | by eapply H].
Qed.

Lemma sys_fcntl_setfd_prange fd fl p : prange p (sys_fcntl_setfd fd fl p).2.
Proof.
  unfold sys_fcntl_setfd. destruct (fds p !! fd) eqn:E; [|apply fails_prange].
  intros H k d Hk. simpl in *.
  apply lookup_insert_Some in Hk as [[<- _]|[_ Hk]]; by eapply H.
Qed.

Lemma env_call_prange c r ev p : prange p (env_call c r ev p).2.
Proof. apply pframe_fds_prange, env_call_frame. Qed.

Lemma sys_sigaction_dfl_prange sig p : prange p (sys_sigaction_dfl sig p).2.
Proof. apply pframe_fds_prange, sys_sigaction_dfl_frame. Qed.

Lemma sys_getrlimit_prange p : prange p (sys_getrlimit p).2.
Proof. apply pframe_fds_prange, sys_getrlimit_frame. Qed.

Lemma sys_calloc_prange p : prange p (sys_calloc p).2.
Proof. apply pframe_fds_prange, sys_calloc_frame. Qed.

Lemma sys_pthread_sigmask_prange m p : prange p (sys_pthread_sigmask m p).2.
Proof. intros H. exact H. Qed.

#[local] Hint Resolve prange_refl prange_trans sys_close_prange sys_dup2_prange
  sys_fcntl_setfd_prange env_call_prange sys_sigaction_dfl_prange
  sys_getrlimit_prange sys_calloc_prange sys_pthread_sigmask_prange : frame.

Lemma child_steps_prange sp fh n cwd attrs :
  preserves (lift_rel prange) (child_steps sp fh n cwd attrs).
Proof.
  unfold child_steps, child_renumbered, child_sync_moved, alloc_fd_table,
    reset_signals, find_highest, move_syncfd, lift_sources, place_sources,
    apply_session, cloexec_rest, apply_identity, sys_setsid, sys_setpgid,
    sys_ioctl_tiocsctty, sys_setgid, sys_setreuid, sys_chdir.
  destruct cwd; frame_steps.
Qed.

Lemma keeps_syncfd_bind {A B} (m : C A) (k : A -> C B) :
  keeps_syncfd m -> (forall a, keeps_syncfd (k a)) -> keeps_syncfd (bind m k).
Proof.
  intros Hm Hk s. unfold bind. specialize (Hm s).
  destruct (m s) as [[a|] s1]; [|done].
  rewrite <-Hm. apply Hk.
Qed.

Lemma keeps_syncfd_if {A} (b : bool) (m1 m2 : C A) :
  keeps_syncfd m1 -> keeps_syncfd m2 -> keeps_syncfd (if b then m1 else m2).
Proof. by destruct b. Qed.

Lemma keeps_syncfd_fail_if b : keeps_syncfd (fail_if b).
Proof. by destruct b. Qed.

Lemma keeps_syncfd_for_range lo hi body :
  (forall j, keeps_syncfd (body j)) -> keeps_syncfd (for_range lo hi body).
Proof.
  intros Hb s. destruct (decide (lo <= hi)) as [Hle|Hgt].
  2: { by rewrite for_range_empty by lia. }
  destruct (for_range lo hi body s) as [out s'] eqn:H.
  apply (for_range_run (fun _ t => syncfd t = syncfd s)) in H; [|done|done|].
  - destruct H as [[_ H]|(_ & j & s1 & _ & H1 & H2)]; [done|].
    simpl. rewrite <-H1. specialize (Hb j s1). by rewrite H2 in Hb.
  - intros j s1 s2 _ H1 H2. rewrite <-H1. specialize (Hb j s1). by rewrite H2 in Hb.
Qed.

(** Break a command into its steps; only [put_syncfd] is refused. *)
Ltac syncfd_step :=
  lazymatch goal with
  | |- keeps_syncfd (bind _ _) => apply keeps_syncfd_bind
  | |- keeps_syncfd (if _ then _ else _) => apply keeps_syncfd_if
  | |- keeps_syncfd (match _ with Some _ => _ | None => _ end) => case_match
  | |- keeps_syncfd (fail_if _) => apply keeps_syncfd_fail_if
  | |- keeps_syncfd (for_range _ _ _) => apply keeps_syncfd_for_range
  | |- keeps_syncfd (put_syncfd _) => fail
  | |- keeps_syncfd _ => by intros ?
  | |- forall _, _ => intros ?
  end.

Lemma alloc_fd_table_syncfd n : keeps_syncfd (alloc_fd_table n).
Proof. unfold alloc_fd_table. repeat syncfd_step. Qed.

Lemma reset_signals_syncfd sp : keeps_syncfd (reset_signals sp).
Proof. unfold reset_signals. repeat syncfd_step. Qed.

Lemma find_highest_syncfd fh n : keeps_syncfd (find_highest fh n).
Proof. unfold find_highest. repeat syncfd_step. Qed.

Lemma lift_sources_syncfd n : keeps_syncfd (lift_sources n).
Proof. unfold lift_sources. repeat syncfd_step. Qed.

Lemma place_sources_syncfd n : keeps_syncfd (place_sources n).
Proof. unfold place_sources. repeat syncfd_step. Qed.

Lemma apply_session_syncfd attrs : keeps_syncfd (apply_session attrs).
Proof. unfold apply_session. repeat syncfd_step. Qed.

Lemma cloexec_rest_syncfd n : keeps_syncfd (cloexec_rest n).
Proof. unfold cloexec_rest. repeat syncfd_step. Qed.

Lemma apply_identity_syncfd cwd attrs : keeps_syncfd (apply_identity cwd attrs).
Proof. unfold apply_identity. repeat syncfd_step. Qed.

Lemma keeps_syncfd_run {A} (m : C A) s out s' :
  keeps_syncfd m -> m s = (out, s') -> syncfd s' = syncfd s.
Proof. intros Hm H. specialize (Hm s). by rewrite H in Hm. Qed.

(** ** Signal dispositions (lines 66-83) *)

Lemma settable_signals_upto :
  filter (fun sig => 0 < sig /\ sig <> SIGKILL /\ sig <> SIGSTOP /\
                     sig <> SIGCANCEL /\ sig <> SIGSETXID) (seqZ 0 NSIG)
  = settable_signals.
Proof. vm_compute. reflexivity. Qed.

Lemma reset_signals_trace sp s u s' :
  reset_signals sp s = (Next u, s') ->
  trace (cproc s') = rev (EvSigDfl <$> settable_signals) ++ trace (cproc s).
Proof.
  intros H. unfold reset_signals in H.
  apply bind_next in H as (r & s1 & Hclose & H).
  apply sys_next in Hclose as [-> ->].
  apply bind_next in H as ([] & s2 & Hok & H).
  apply fail_if_next in Hok as [Hok ->].
  unfold sys_close in Hok, H.
  destruct (fds (cproc s) !! sp.1) eqn:E; [|discriminate Hok].
  clear Hok. simpl in H.
  apply bind_next in H as ([] & s3 & Hloop & H).
  apply bind_next in H as (r2 & s4 & Hmask & H).
  apply sys_out_next in Hmask as [-> ->].
  apply fail_if_next in H as [_ ->].
  rewrite <-settable_signals_upto.
  change (trace (cproc s3) =
          rev (EvSigDfl <$>
               filter (fun sig => 0 < sig /\ sig <> SIGKILL /\ sig <> SIGSTOP /\
                                  sig <> SIGCANCEL /\ sig <> SIGSETXID)
                 (seqZ 0 NSIG)) ++ trace (cproc s)).
  set (P := fun sig => 0 < sig /\ sig <> SIGKILL /\ sig <> SIGSTOP /\
                       sig <> SIGCANCEL /\ sig <> SIGSETXID).
  set (Inv := fun (j : Z) (t : cstate) =>
         trace (cproc t) = rev (EvSigDfl <$> filter P (seqZ 0 j)) ++ trace (cproc s)).
  assert (0 <= NSIG) as Hle by (unfold NSIG; lia).
  apply (fun a b => for_range_next Inv 0 NSIG _ _ _ _ Hle a b Hloop);
    [reflexivity|].
  clear Hloop. intros j t1 t2 Hj Ht Hb.
  apply bind_next in Hb as (r' & t3 & Hsig & Hb).
  apply sys_next in Hsig as [-> ->]. injection Hb as <-.
  unfold Inv in *; simpl.
  rewrite (seqZ_app 0 j 1), filter_app, fmap_app, rev_app_distr by lia.
  rewrite <-app_assoc, <-Ht. change (seqZ (0 + j) 1) with [0 + j].
  rewrite Z.add_0_l, filter_cons, filter_nil.
  unfold sys_sigaction_dfl.
  destruct ((j <=? 0) || (NSIG <=? j) || (j =? SIGKILL) || (j =? SIGSTOP)
            || (j =? SIGCANCEL) || (j =? SIGSETXID)) eqn:Eb.
  - rewrite decide_False; [done|]. unfold P.
    repeat (apply orb_true_iff in Eb as [Eb|Eb]); lia.
  - rewrite decide_True; [done|]. unfold P.
    repeat (apply orb_false_iff in Eb as [Eb ?]); lia.
Qed.



(** ** What the new image inherits (lines 133-237) *)

(** The two passes done: every source was open, is neither end of the sync
    pipe, and its description is on its position. *)
Lemma renumbered_sources sp fh p u4 s4 u5 s5 u6 s6 :
  child_sync_moved sp fh (Z.of_nat (length fh)) (child_entry sp p) = (Next u4, s4) ->
  lift_sources (Z.of_nat (length fh)) s4 = (Next u5, s5) ->
  place_sources (Z.of_nat (length fh)) s5 = (Next u6, s6) ->
  forall i h, fh !! i = Some h ->
    exists d, fds p !! h = Some d /\ h <> sp.1 /\ h <> sp.2 /\
      fds (cproc s6) !! Z.of_nat i =
        Some {| fd_ofd := fd_ofd d; fd_cloexec := false |}.
Proof.
  intros Hsync Hlift Hplace.
  apply child_sync_moved_next in Hsync
    as (d0 & _ & _ & _ & Hsy & Hidx & Htab & _ & Hfds4).
  apply lift_sources_next in Hlift as (Hlow5 & _ & t & Ht & Hlen & Hlifted);
    [|done|lia].
  apply (place_sources_next fh t (fds (cproc s4))) in Hplace
    as (Hplaced & _); [|done|done|done].
  intros i h Hh. destruct (Hplaced i h Hh) as (d & Hd & Hi).
  pose proof (max_fd_ge _ _ _ Hh).
  exists d. rewrite Hfds4, lookup_insert_ne in Hd by lia.
  case_decide.
  - apply lookup_delete_Some in Hd as [? Hd]. split_and!; [done|done|lia|done].
  - apply lookup_delete_Some in Hd as [? Hd].
    apply lookup_delete_Some in Hd as [? Hd]. by split_and!.
Qed.

(** The renumbering done (lines 59-215). *)
Lemma child_renumbered_next sp fh attrs p u s' :
  child_renumbered sp fh (Z.of_nat (length fh)) attrs (child_entry sp p)
    = (Next u, s') ->
  (forall i h, fh !! i = Some h ->
     exists d, fds p !! h = Some d /\ h <> sp.1 /\ h <> sp.2 /\
       fds (cproc s') !! Z.of_nat i =
         Some {| fd_ofd := fd_ofd d; fd_cloexec := false |}) /\
  (forall k d, Z.of_nat (length fh) <= k <= rlim_cur p ->
     fds (cproc s') !! k = Some d -> fd_cloexec d = true) /\
  rlim_cur (cproc s') = rlim_cur p.
Proof.
  intros H.
  pose proof (preserves_run _ _ _ _ _ (child_renumbered_plimit _ _ _ _) H) as W'.
  unfold child_renumbered in H.
  apply bind_next in H as (u4 & s4 & Hsync & H).
  apply bind_next in H as (u5 & s5 & Hlift & H).
  apply bind_next in H as (u6 & s6 & Hplace & H).
  apply bind_next in H as ([] & s7 & Hsess & H).
  pose proof (renumbered_sources _ _ _ _ _ _ _ _ _ Hsync Hlift Hplace) as Hsrc.
  pose proof (preserves_run _ _ _ _ _ (apply_session_frame _) Hsess) as Fs.
  pose proof (preserves_run _ _ _ _ _ (cloexec_rest_frame _) H) as Fc.
  apply cloexec_rest_next in H as (Hlow8 & Hce); [|lia].
  apply child_sync_moved_next in Hsync as (_ & _ & _ & _ & _ & _ & _ & Hlim4 & _).
  note_frames. open_frames.
  assert (rlim_cur (cproc s7) = rlim_cur p) as Hlim7 by congruence.
  split_and!.
  - intros i h Hh. destruct (Hsrc i h Hh) as (d & ? & ? & ? & Hi).
    pose proof (lookup_lt_Some _ _ _ Hh).
    exists d. split_and!; try done. rewrite Hlow8 by lia. congruence.
  - intros k d Hk. apply Hce. by rewrite Hlim7.
  - congruence.
Qed.

Lemma child_fail_not_execed fuel s cp : child_fail fuel s <> Execed cp.
Proof.
  rewrite child_fail_eq. destruct (negb _); [|done].
  by destruct (write_retry _ _ _ _) as [[] ?].
Qed.

(** A child that runs the new image went through every step. *)
Lemma child_handler_execed fuel sp exe args env fh n cwd om attrs p cp :
  child_handler fuel sp exe args env fh n cwd om attrs p = Execed cp ->
  exists s,
    child_steps sp fh n cwd attrs (child_entry sp p) = (Next tt, s) /\
    fault (cproc s) Execve = None /\
    cp = exec_image exe args env (cproc s).
Proof.
  unfold child_handler.
  destruct (child_steps _ _ _ _ _ _) as [[[]|] s] eqn:Hs.
  - unfold sys_execve. destruct (fault (cproc s) Execve) eqn:E; simpl.
    + intros H. by apply child_fail_not_execed in H.
    + intros [= <-]. by exists s.
  - intros H. by apply child_fail_not_execed in H.
Qed.

(** The descriptor table of the new image. *)
Lemma execed_image_table fuel sp exe args env fh cwd om attrs p cp :
  in_range p ->
  child_handler fuel sp exe args env fh (Z.of_nat (length fh)) cwd om attrs p
    = Execed cp ->
  (forall i h, fh !! i = Some h ->
     exists d, fds p !! h = Some d /\ h <> sp.1 /\ h <> sp.2 /\
       fds cp !! Z.of_nat i = Some {| fd_ofd := fd_ofd d; fd_cloexec := false |}) /\
  (forall k, k < 0 \/ Z.of_nat (length fh) <= k -> fds cp !! k = None).
Proof.
  intros Hr H.
  apply child_handler_execed in H as (s & Hs & _ & ->).
  pose proof (preserves_run _ _ _ _ _ (child_steps_prange _ _ _ _ _) Hs Hr) as Hr'.
  unfold child_steps in Hs.
  apply bind_next in Hs as ([] & s1 & Hren & Hid).
  apply child_renumbered_next in Hren as (Hsrc & Hce & Hlim).
  pose proof (preserves_run _ _ _ _ _ (apply_identity_frame _ _) Hid) as Fi.
  open_frames. simpl. split.
  - intros i h Hh. destruct (Hsrc i h Hh) as (d & Hd & ? & ? & Hi).
    exists d. split_and!; try done.
    apply map_lookup_filter_Some. split; [congruence | done].
  - intros k Hk. apply map_lookup_filter_None.
    destruct (fds (cproc s) !! k) as [d|] eqn:Ek; [right|by left].
    intros d' [= <-]. simpl.
    specialize (Hr' k d Ek). simpl in Hr'.
    destruct Hk as [Hk|Hk]; [lia|].
    rewrite (Hce k d); [done| |congruence]. split; [done|]. lia.
Qed.

(** X8: when the child reaches the new image, the program that runs has
    exactly the requested descriptors: descriptor [i] is the open file
    description of source [fh[i]], with close-on-exec off, for every
    position of the list, and no other descriptor is open; neither end of
    the sync pipe, no temporary copy and no descriptor the parent held
    beside the requested ones gets through.  The process is taken to
    start with its descriptors between 0 and its descriptor limit. *)
Theorem execed_image_descriptors fuel sp exe args env fh cwd om attrs p cp :
  in_range p ->
  child_handler fuel sp exe args env fh (Z.of_nat (length fh)) cwd om attrs p
    = Execed cp ->
  (forall i h, fh !! i = Some h ->
     exists d, fds p !! h = Some d /\
       fds cp !! Z.of_nat i = Some {| fd_ofd := fd_ofd d; fd_cloexec := false |}) /\
  (forall k, k < 0 \/ Z.of_nat (length fh) <= k -> fds cp !! k = None).
Proof.
  intros Hr H.
  destruct (execed_image_table _ _ _ _ _ _ _ _ _ _ _ Hr H) as [Hsrc Hnone].
  split; [|done].
  intros i h Hh. destruct (Hsrc i h Hh) as (d & ? & _ & _ & ?). by exists d.
Qed.

(** Descriptors 5, 0 and 1 of the parent are 0, 1 and 2 of the new image,
    which holds nothing else. *)
Lemma execed_image_descriptors_witness :
  exists cp,
    child_handler 1 (3, 4) "/bin/true" [] [] [5; 0; 1] 3 None 5 sample_attrs
      sample_child = Execed cp /\
    fds cp = list_to_map [(0, fd_rw 102); (1, fd_ro 100); (2, fd_rw 101)] /\
    (forall i h, [5; 0; 1] !! i = Some h ->
       exists d, fds sample_child !! h = Some d /\
         fds cp !! Z.of_nat i = Some {| fd_ofd := fd_ofd d; fd_cloexec := false |}) /\
    (forall k, k < 0 \/ 3 <= k -> fds cp !! k = None).
Proof.
  eexists. split; [vm_compute; reflexivity|]. split; [vm_compute; reflexivity|].
  apply (execed_image_descriptors 1 (3, 4) "/bin/true" [] [] [5; 0; 1] None 5
           sample_attrs sample_child).
  - apply (bool_decide_unpack (in_range sample_child)). vm_compute. exact I.
  - vm_compute. reflexivity.
Defined.

(** ** The calls of a child that reaches the new image *)

Lemma apply_session_trace attrs s u s' :
  apply_session attrs s = (Next u, s') ->
  trace (cproc s') = rev (session_calls attrs) ++ trace (cproc s).
Proof.
  unfold apply_session, session_calls, bind, sys, fail_if,
    sys_setsid, sys_setpgid, sys_ioctl_tiocsctty, env_call, fails, goto_fail, ret.
  destruct (setsid attrs =? 0), (setpgid attrs =? 0), (setctty attrs =? 0);
    destruct (fault (cproc s) Setsid) eqn:E1, (fault (cproc s) Setpgid) eqn:E2,
      (fault (cproc s) Ioctl) eqn:E3;
    simpl; rewrite ?E1, ?E2, ?E3; simpl; rewrite ?E1, ?E2, ?E3; simpl;
    rewrite ?E1, ?E2, ?E3; simpl; by intros [= <- <-].
Qed.

Lemma apply_identity_trace cwd attrs s u s' :
  apply_identity cwd attrs s = (Next u, s') ->
  trace (cproc s') = rev (identity_calls cwd attrs) ++ trace (cproc s).
Proof.
  unfold apply_identity, identity_calls, bind, sys, fail_if,
    sys_setgid, sys_setreuid, sys_chdir, env_call, fails, goto_fail, ret.
  destruct (gid attrs =? to_uint32 (-1)), (uid attrs =? to_uint32 (-1)),
    cwd as [dir|];
    destruct (fault (cproc s) Setgid) eqn:E1, (fault (cproc s) Setreuid) eqn:E2,
      (fault (cproc s) Chdir) eqn:E3;
    simpl; rewrite ?E1, ?E2, ?E3; simpl; rewrite ?E1, ?E2, ?E3; simpl;
    rewrite ?E1, ?E2, ?E3; simpl; by intros [= <- <-].
Qed.

(** X9: a child that reaches the new image has made these calls and no
    other that leaves a trace, in this order: the default disposition for
    every signal that can have one, then (after the renumbering) [setsid],
    [setpgid] and the controlling terminal as far as they were asked for,
    then [setgid], [setreuid] and [chdir] as far as they were asked for,
    and [execve] last, so that the program path is looked up with the new
    identity and from the new working directory. *)
Theorem child_execed_calls fuel sp exe args env fh n cwd om attrs p cp :
  child_handler fuel sp exe args env fh n cwd om attrs p = Execed cp ->
  trace cp =
    EvExecve exe args env ::
    rev (identity_calls cwd attrs) ++ rev (session_calls attrs) ++
    rev (EvSigDfl <$> settable_signals) ++ trace p.
Proof.
  intros H. apply child_handler_execed in H as (s & Hs & _ & ->).
  unfold child_steps, child_renumbered, child_sync_moved in Hs.
  apply bind_next in Hs as ([] & s5 & Hs & Hid).
  apply bind_next in Hs as ([] & s1 & Hs & H4).
  apply bind_next in H4 as ([] & s2 & Hlift & H4).
  apply bind_next in H4 as ([] & s3 & Hplace & H4).
  apply bind_next in H4 as ([] & s4 & Hsess & Hce).
  apply bind_next in Hs as ([] & t1 & Halloc & Hs).
  apply bind_next in Hs as ([] & t2 & Hsig & Hs).
  apply bind_next in Hs as ([] & t3 & Hhigh & Hmove).
  apply apply_identity_trace in Hid. apply apply_session_trace in Hsess.
  apply reset_signals_trace in Hsig.
  apply (preserves_run _ _ _ _ _ (alloc_fd_table_quiet _)) in Halloc.
  apply (preserves_run _ _ _ _ _ (find_highest_quiet _ _)) in Hhigh.
  apply (preserves_run _ _ _ _ _ move_syncfd_quiet) in Hmove.
  apply (preserves_run _ _ _ _ _ (lift_sources_quiet _)) in Hlift.
  apply (preserves_run _ _ _ _ _ (place_sources_quiet _)) in Hplace.
  apply (preserves_run _ _ _ _ _ (cloexec_rest_quiet _)) in Hce.
  unfold lift_rel, pquiet in *. simpl in *.
  rewrite Hid, Hce, Hsess, Hplace, Hlift, Hmove, Hhigh, Hsig, Halloc.
  reflexivity.
Qed.

(** A session leader with another group and user, started in /tmp: sixty
    dispositions, [setsid], [setgid], [setreuid], [chdir], [execve]. *)
Lemma child_execed_calls_witness :
  exists cp,
    child_handler 1 (3, 4) "/bin/true" [] [] [5; 0; 1] 3 (Some "/tmp") 5
      sample_leader sample_child = Execed cp /\
    length (trace cp) = 65%nat /\
    trace cp =
      EvExecve "/bin/true" [] [] ::
      [EvChdir "/tmp"; EvSetreuid 501 501; EvSetgid 20] ++
      [EvSetsid] ++
      rev (EvSigDfl <$> settable_signals) ++ [].
Proof.
  eexists. split; [vm_compute; reflexivity|]. split; [vm_compute; reflexivity|].
  apply (child_execed_calls 1 (3, 4) "/bin/true" [] [] [5; 0; 1] 3 (Some "/tmp") 5
           sample_leader sample_child).
  vm_compute. reflexivity.
Defined.

(** ** Requests that cannot be served *)

Lemma sys_close_ebadf fd p :
  ((sys_close fd p).1 <? 0) = true -> errno (sys_close fd p).2 = errno_val EBADF.
Proof. unfold sys_close. by destruct (fds p !! fd). Qed.

Lemma sys_dup2_ebadf o n p :
  ((sys_dup2 o n p).1 <? 0) = true -> errno (sys_dup2 o n p).2 = errno_val EBADF.
Proof.
  unfold sys_dup2. destruct (fds p !! o); [|done].
  destruct ((n <? 0) || (rlim_cur p <=? n)) eqn:E; [done|].
  apply orb_false_iff in E as [E _].
  destruct (o =? n); simpl; intros H; apply Z.ltb_lt in H; apply Z.ltb_ge in E; lia.
Qed.

Lemma sys_fcntl_setfd_ebadf fd fl p :
  ((sys_fcntl_setfd fd fl p).1 =? -1) = true ->
  errno (sys_fcntl_setfd fd fl p).2 = errno_val EBADF.
Proof. unfold sys_fcntl_setfd. by destruct (fds p !! fd). Qed.

Ltac failed_ebadf :=
  simpl in *;
  match goal with
  | H : ((sys_close ?fd ?p).1 <? 0) = true |- _ => exact (sys_close_ebadf _ _ H)
  | H : ((sys_dup2 ?o ?n ?p).1 <? 0) = true |- _ => exact (sys_dup2_ebadf _ _ _ H)
  | H : ((sys_fcntl_setfd ?fd ?fl ?p).1 =? -1) = true |- _ =>
      exact (sys_fcntl_setfd_ebadf _ _ _ H)
  end.

Lemma reset_signals_ebadf sp : fails_with_ebadf (reset_signals sp).
Proof.
  intros s s' H. unfold reset_signals in H. fail_inv H; try done. failed_ebadf.
Qed.

Lemma move_syncfd_ebadf : fails_with_ebadf move_syncfd.
Proof. intros s s' H. unfold move_syncfd in H. fail_inv H; failed_ebadf. Qed.

Lemma lift_sources_ebadf n : fails_with_ebadf (lift_sources n).
Proof. intros s s' H. unfold lift_sources in H. fail_inv H; failed_ebadf. Qed.

Lemma place_sources_ebadf n : fails_with_ebadf (place_sources n).
Proof. intros s s' H. unfold place_sources in H. fail_inv H; failed_ebadf. Qed.

Lemma find_highest_runs fh n s s' : find_highest fh n s <> (GotoFail, s').
Proof. intros H. unfold find_highest in H. fail_inv H. Qed.

Lemma reset_signals_failed_trace sp s s' :
  reset_signals sp s = (GotoFail, s') -> trace (cproc s') = trace (cproc s).
Proof.
  intros H. unfold reset_signals in H. fail_inv H; [|done].
  simpl. apply sys_close_pquiet.
Qed.

Lemma alloc_fd_table_failed_errno n s s' :
  alloc_fd_table n s = (GotoFail, s') ->
  exists e, fault (cproc s) Calloc = Some e /\ errno (cproc s') = errno_val e.
Proof.
  intros H. unfold alloc_fd_table in H. fail_inv H.
  simpl in *. unfold sys_calloc in *.
  destruct (fault (cproc s) Calloc) as [e|]; [by exists e | done].
Qed.

(** X10: when one of the requested sources is not an open descriptor of
    the child, the child never runs the new image: it jumps to [fail]
    during the renumbering with EBADF in [errno] (or already at [calloc],
    with its code), before any of [setsid], [setpgid], [ioctl], [setgid],
    [setreuid], [chdir] and [execve] has been called. *)
Theorem closed_source_is_refused fuel sp exe args env fh cwd om attrs p i h :
  fh !! i = Some h -> fds p !! h = None ->
  exists s,
    child_steps sp fh (Z.of_nat (length fh)) cwd attrs (child_entry sp p)
      = (GotoFail, s) /\
    child_handler fuel sp exe args env fh (Z.of_nat (length fh)) cwd om attrs p
      = child_fail fuel s /\
    (errno (cproc s) = errno_val EBADF \/
     exists e, fault p Calloc = Some e /\ errno (cproc s) = errno_val e) /\
    (trace (cproc s) = trace p \/
     trace (cproc s) = rev (EvSigDfl <$> settable_signals) ++ trace p).
Proof.
  intros Hh Hclosed.
  destruct (child_steps sp fh (Z.of_nat (length fh)) cwd attrs (child_entry sp p))
    as [out s] eqn:Hs.
  exists s.
  assert (out = GotoFail /\
          (errno (cproc s) = errno_val EBADF \/
           exists e, fault p Calloc = Some e /\ errno (cproc s) = errno_val e) /\
          (trace (cproc s) = trace p \/
           trace (cproc s) = rev (EvSigDfl <$> settable_signals) ++ trace p))
    as (-> & Herr & Htr).
  2: { split; [done|]. split; [|done]. unfold child_handler. by rewrite Hs. }
  clear fuel exe args env om.
  unfold child_steps in Hs.
  apply bind_run in Hs as [[-> Hs]|(u & s1 & Hren & _)].
  2: { apply child_renumbered_next in Hren as (Hsrc & _).
       destruct (Hsrc i h Hh) as (d & Hd & _). congruence. }
  split; [done|].
  unfold child_renumbered in Hs.
  apply bind_fail in Hs as [Hs|(u4 & s4 & Hsync & Hs)].
  - (* lines 59-158 *)
    unfold child_sync_moved in Hs.
    apply bind_fail in Hs as [Hs|(? & t1 & Halloc & Hs)].
    { pose proof (preserves_run _ _ _ _ _ (alloc_fd_table_quiet _) Hs) as Q.
      apply alloc_fd_table_failed_errno in Hs as (e & ? & ?).
      split; [right; by exists e | by left]. }
    pose proof (preserves_run _ _ _ _ _ (alloc_fd_table_quiet _) Halloc) as Q1.
    apply bind_fail in Hs as [Hs|(? & t2 & Hsig & Hs)].
    { pose proof (reset_signals_failed_trace _ _ _ Hs) as Q.
      apply reset_signals_ebadf in Hs.
      split; [by left | left]. unfold lift_rel, pquiet in *. simpl in *. congruence. }
    apply reset_signals_trace in Hsig.
    apply bind_fail in Hs as [Hs|(? & t3 & Hhigh & Hs)];
      [by apply find_highest_runs in Hs|].
    pose proof (preserves_run _ _ _ _ _ (find_highest_quiet _ _) Hhigh) as Q3.
    pose proof (preserves_run _ _ _ _ _ move_syncfd_quiet Hs) as Q4.
    apply move_syncfd_ebadf in Hs.
    split; [by left | right]. unfold lift_rel, pquiet in *. simpl in *. congruence.
  - (* the sync pipe has moved *)
    assert (trace (cproc s4) = rev (EvSigDfl <$> settable_signals) ++ trace p) as T4.
    { unfold child_sync_moved in Hsync.
      apply bind_next in Hsync as ([] & t1 & Halloc & Hsync).
      apply bind_next in Hsync as ([] & t2 & Hsig & Hsync).
      apply bind_next in Hsync as ([] & t3 & Hhigh & Hmove).
      apply reset_signals_trace in Hsig.
      apply (preserves_run _ _ _ _ _ (alloc_fd_table_quiet _)) in Halloc.
      apply (preserves_run _ _ _ _ _ (find_highest_quiet _ _)) in Hhigh.
      apply (preserves_run _ _ _ _ _ move_syncfd_quiet) in Hmove.
      unfold lift_rel, pquiet in *. simpl in *. congruence. }
    apply bind_fail in Hs as [Hs|(u5 & s5 & Hlift & Hs)].
    { pose proof (preserves_run _ _ _ _ _ (lift_sources_quiet _) Hs) as Q.
      apply lift_sources_ebadf in Hs.
      split; [by left | right]. unfold lift_rel, pquiet in *. congruence. }
    apply bind_fail in Hs as [Hs|(u6 & s6 & Hplace & Hs)].
    { pose proof (preserves_run _ _ _ _ _ (lift_sources_quiet _) Hlift) as Q5.
      pose proof (preserves_run _ _ _ _ _ (place_sources_quiet _) Hs) as Q.
      apply place_sources_ebadf in Hs.
      split; [by left | right]. unfold lift_rel, pquiet in *. congruence. }
    destruct (renumbered_sources _ _ _ _ _ _ _ _ _ Hsync Hlift Hplace i h Hh)
      as (d & Hd & _). congruence.
Qed.

(** Descriptor 7 is not open in the sample child. *)
Lemma closed_source_is_refused_witness :
  [0; 7] !! 1%nat = Some 7 /\ fds sample_child !! 7 = None /\
  exists s,
    child_steps (3, 4) [0; 7] 2 None sample_attrs (child_entry (3, 4) sample_child)
      = (GotoFail, s) /\
    child_handler 1 (3, 4) "/bin/true" [] [] [0; 7] 2 None 5 sample_attrs sample_child
      = child_fail 1 s /\
    (errno (cproc s) = errno_val EBADF \/
     exists e, fault sample_child Calloc = Some e /\ errno (cproc s) = errno_val e) /\
    (trace (cproc s) = trace sample_child \/
     trace (cproc s) = rev (EvSigDfl <$> settable_signals) ++ trace sample_child).
Proof.
  split; [reflexivity|]. split; [reflexivity|].
  apply (closed_source_is_refused 1 (3, 4) "/bin/true" [] [] [0; 7] None 5
           sample_attrs sample_child 1 7); reflexivity.
Defined.

(** ** The descriptor numbers the renumbering needs *)

Lemma moved_from_nonneg i l : 0 <= moved_from i l.
Proof. revert i. induction l as [|h l IH]; intros i; simpl; [done|].
  specialize (IH (i + 1)). destruct (h =? i); lia. Qed.

Lemma moved_from_snoc i l h :
  moved_from i (l ++ [h]) =
  moved_from i l + (if h =? i + Z.of_nat (length l) then 0 else 1).
Proof.
  revert i. induction l as [|x l IH]; intros i.
  - replace (i + Z.of_nat (length (@nil Z))) with i by (simpl; lia).
    simpl. destruct (h =? i); lia.
  - simpl moved_from. simpl app. simpl moved_from.
    rewrite IH. replace (i + 1 + Z.of_nat (length l))
      with (i + Z.of_nat (length (x :: l))) by (simpl length; lia).
    destruct (x =? i), (h =? _); lia.
Qed.

(** The first pass takes the numbers from [fd_index] on, one for each
    source it moves, and each of them is below the limit. *)
Lemma lift_sources_index fh s u s' :
  ((0 < length fh)%nat -> fd_table s = Some fh) ->
  lift_sources (Z.of_nat (length fh)) s = (Next u, s') ->
  fd_index s' = fd_index s + moved fh /\
  (0 < moved fh -> fd_index s' <= rlim_cur (cproc s)).
Proof.
  intros Htab H. unfold lift_sources in H.
  destruct (decide (length fh = 0%nat)) as [Hz|Hnz].
  { rewrite Hz, for_range_empty in H by done. injection H as ? <-.
    destruct fh; [|done]. unfold moved. simpl. split; lia. }
  specialize (Htab ltac:(lia)).
  set (Inv := fun (j : Z) (st : cstate) =>
    rlim_cur (cproc st) = rlim_cur (cproc s) /\
    fd_index st = fd_index s + moved (take (Z.to_nat j) fh) /\
    (0 < moved (take (Z.to_nat j) fh) -> fd_index st <= rlim_cur (cproc s)) /\
    exists t, fd_table st = Some t /\
      (forall i, j <= Z.of_nat i -> t !! i = fh !! i)).
  assert (Inv (Z.of_nat (length fh)) s') as (_ & Hi & Hb & _).
  { assert (0 <= Z.of_nat (length fh)) as Hle by lia.
    apply (fun a b => for_range_next Inv 0 _ _ _ _ _ Hle a b H); clear H.
    - unfold Inv, moved. simpl. split; [done|]. split; [lia|]. split; [lia|].
      by exists fh.
    - intros j s1 s2 Hj (Hlim & Hi & Hb & t & Ht & Hrest) Hbody.
      pose proof (array_get_lookup fh j ltac:(lia)) as Hget.
      assert (t !! Z.to_nat j = Some (array_get fh j)) as Htj
        by (rewrite Hrest by lia; done).
      assert (take (Z.to_nat (j + 1)) fh = take (Z.to_nat j) fh ++ [array_get fh j])
        as Htake.
      { replace (Z.to_nat (j + 1)) with (S (Z.to_nat j)) by lia.
        by apply take_S_r. }
      assert (moved (take (Z.to_nat (j + 1)) fh) =
              moved (take (Z.to_nat j) fh) + (if array_get fh j =? j then 0 else 1))
        as Hmv.
      { rewrite Htake. unfold moved. rewrite moved_from_snoc, length_take.
        replace (0 + Z.of_nat (Z.to_nat j `min` length fh)) with j by lia. done. }
      pose proof (moved_from_nonneg 0 (take (Z.to_nat j) fh)) as Hnn.
      fold (moved (take (Z.to_nat j) fh)) in Hnn.
      apply bind_next in Hbody as (v & s3 & Hv & Hbody).
      rewrite (load_fd_table_eq _ _ _ Ht) in Hv. injection Hv as <- <-.
      assert (array_get t j = array_get fh j) as Hv
        by (unfold array_get at 1; by rewrite Htj).
      rewrite Hv in Hbody. unfold Inv. rewrite Hmv.
      destruct (array_get fh j =? j) eqn:Hsame.
      + injection Hbody as <-. rewrite Z.add_0_r.
        split; [done|]. split; [done|]. split; [done|].
        exists t. split; [done|]. intros i Hi'. apply Hrest. lia.
      + next_inv Hbody; subst; simpl in *.
        apply sys_dup2_ok in Hok as (d & Hd & Hrange & Hdup).
        pose proof (sys_fcntl_setfd_frame (fd_index s1) FD_CLOEXEC
                      (sys_dup2 (array_get fh j) (fd_index s1) (cproc s1)).2)
          as [(_ & Hl1 & _) _].
        pose proof (sys_dup2_frame (array_get fh j) (fd_index s1) (cproc s1))
          as [(_ & Hl2 & _) _].
        split; [congruence|]. split; [lia|]. split; [intros _; lia|].
        rewrite Ht. simpl. eexists. split; [reflexivity|].
        intros i Hi'. rewrite list_lookup_insert_ne by lia. apply Hrest. lia. }
  rewrite Nat2Z.id, take_ge in Hi, Hb by done. done.
Qed.

Lemma move_syncfd_room s u s' :
  move_syncfd s = (Next u, s') ->
  syncfd s <> fd_index s + 1 -> fd_index s + 1 < rlim_cur (cproc s).
Proof.
  intros H Hne. unfold move_syncfd in H. next_inv H; subst; simpl in *.
  - apply sys_dup2_ok in Hok as (d & _ & Hrange & _). lia.
  - apply negb_false_iff, Z.eqb_eq in Hif. lia.
Qed.

(** X11: the renumbering takes descriptor numbers above the highest
    source: the next one for the sync pipe, unless the pipe is there
    already, and one more for every source that is not already on its
    position.  A child that gets through it therefore found all of them
    below its descriptor limit; with a limit that is too low for them,
    [dup2] fails and the child goes to [fail]. *)
Theorem renumbering_needs_room sp fh attrs p u s' :
  child_renumbered sp fh (Z.of_nat (length fh)) attrs (child_entry sp p)
    = (Next u, s') ->
  (sp.2 <> max_fd fh + 1 -> max_fd fh + 1 < rlim_cur p) /\
  (0 < moved fh -> max_fd fh + 1 + moved fh < rlim_cur p).
Proof.
  intros H. unfold child_renumbered in H.
  apply bind_next in H as (u4 & s4 & Hsync & H).
  apply bind_next in H as (u5 & s5 & Hlift & _).
  pose proof Hsync as Hsync'.
  apply child_sync_moved_next in Hsync'
    as (_ & _ & _ & _ & _ & Hidx & Htab & Hlim & _).
  split.
  - intros Hne. unfold child_sync_moved in Hsync.
    apply bind_next in Hsync as ([] & t1 & Ha & Hsync).
    apply bind_next in Hsync as ([] & t2 & Hr & Hsync).
    apply bind_next in Hsync as ([] & t3 & Hf & Hm).
    pose proof (preserves_run _ _ _ _ _ (alloc_fd_table_frame _) Ha) as Fa.
    pose proof (preserves_run _ _ _ _ _ (reset_signals_frame _) Hr) as Fr.
    pose proof (preserves_run _ _ _ _ _ (find_highest_frame _ _) Hf) as Ff.
    apply alloc_fd_table_next in Ha as (_ & Ha2 & Ha3 & Ha4 & _).
    apply reset_signals_next in Hr as (_ & _ & _ & Hr2 & Hr3 & Hr4).
    apply find_highest_next in Hf as (_ & Hf2 & Hf3 & _).
    + apply move_syncfd_room in Hm.
      * open_frames. simpl in *. rewrite Hf3 in Hm. congruence.
      * rewrite Hf2, Hf3, Hr4, Ha3. done.
    + simpl in *. congruence.
    + intros Hpos. rewrite Hr3, Ha4 by lia.
      eexists. split; [done|]. rewrite length_replicate. lia.
  - intros Hpos. apply lift_sources_index in Hlift as (Hi & Hb); [|done].
    specialize (Hb Hpos). lia.
Qed.

(** Sources 5, 0 and 1 for positions 0, 1 and 2: the pipe goes to 6 and
    the three copies to 7, 8 and 9, all below the limit of 32. *)
Lemma renumbering_needs_room_witness :
  exists s',
    child_renumbered (3, 4) [5; 0; 1] 3 sample_attrs (child_entry (3, 4) sample_child)
      = (Next tt, s') /\
    max_fd [5; 0; 1] = 5 /\ moved [5; 0; 1] = 3 /\ rlim_cur sample_child = 32 /\
    ((3, 4).2 <> max_fd [5; 0; 1] + 1 -> max_fd [5; 0; 1] + 1 < rlim_cur sample_child) /\
    (0 < moved [5; 0; 1] ->
     max_fd [5; 0; 1] + 1 + moved [5; 0; 1] < rlim_cur sample_child).
Proof.
  eexists. split; [vm_compute; reflexivity|].
  split; [reflexivity|]. split; [reflexivity|]. split; [reflexivity|].
  eapply (renumbering_needs_room (3, 4) [5; 0; 1] sample_attrs sample_child tt).
  vm_compute. reflexivity.
Defined.

(** ** The sync pipe stays within reach *)

Lemma fd_sink_fcntl fd' fl p fd :
  fd_sink (sys_fcntl_setfd fd' fl p).2 fd = fd_sink p fd.
Proof.
  unfold sys_fcntl_setfd, fd_sink.
  destruct (fds p !! fd') as [d|] eqn:E; [|done]. simpl.
  destruct (decide (fd = fd')) as [->|Hne].
  - by rewrite lookup_insert_eq, E.
  - by rewrite lookup_insert_ne.
Qed.

Lemma fd_sink_close_ne fd' p fd :
  fd <> fd' -> fd_sink (sys_close fd' p).2 fd = fd_sink p fd.
Proof.
  intros Hne. unfold sys_close, fd_sink.
  destruct (fds p !! fd'); [|done]. simpl. by rewrite lookup_delete_ne.
Qed.

Lemma fd_sink_close_failed fd' p fd :
  ((sys_close fd' p).1 <? 0) = true -> fd_sink (sys_close fd' p).2 fd = fd_sink p fd.
Proof. unfold sys_close, fd_sink. by destruct (fds p !! fd'). Qed.

Lemma fd_sink_dup2_ne o n p fd :
  fd <> n -> fd_sink (sys_dup2 o n p).2 fd = fd_sink p fd.
Proof.
  intros Hne. unfold sys_dup2, fd_sink.
  destruct (fds p !! o); [|done].
  destruct ((n <? 0) || (rlim_cur p <=? n)); [done|].
  destruct (o =? n); [done|]. simpl. by rewrite lookup_insert_ne.
Qed.

Lemma fd_sink_dup2_eq o n p :
  ((sys_dup2 o n p).1 <? 0) = false ->
  fd_sink (sys_dup2 o n p).2 n = fd_sink p o.
Proof.
  intros H. apply sys_dup2_ok in H as (d & Hd & _ & Hf).
  unfold fd_sink. rewrite Hf, Hd.
  case_decide; [by subst; rewrite Hd | by rewrite lookup_insert_eq].
Qed.

Lemma pframe_fds_sink p p' fd : pframe_fds p p' -> fd_sink p' fd = fd_sink p fd.
Proof. intros [_ Hf]. unfold fd_sink. by rewrite Hf. Qed.

Lemma psink_at_refl fd p : psink_at fd p p.
Proof. done. Qed.

Lemma psink_at_trans fd p1 p2 p3 :
  psink_at fd p1 p2 -> psink_at fd p2 p3 -> psink_at fd p1 p3.
Proof. unfold psink_at. congruence. Qed.

Lemma sys_fcntl_setfd_psink fd fd' fl p : psink_at fd p (sys_fcntl_setfd fd' fl p).2.
Proof. apply fd_sink_fcntl. Qed.

Lemma sys_close_psink fd fd' p : fd <> fd' -> psink_at fd p (sys_close fd' p).2.
Proof. apply fd_sink_close_ne. Qed.

Lemma env_call_psink fd c r ev p : psink_at fd p (env_call c r ev p).2.
Proof. apply pframe_fds_sink, env_call_frame. Qed.

Lemma sys_sigaction_dfl_psink fd sig p : psink_at fd p (sys_sigaction_dfl sig p).2.
Proof. apply pframe_fds_sink, sys_sigaction_dfl_frame. Qed.

Lemma sys_getrlimit_psink fd p : psink_at fd p (sys_getrlimit p).2.
Proof. apply pframe_fds_sink, sys_getrlimit_frame. Qed.

Lemma sys_calloc_psink fd p : psink_at fd p (sys_calloc p).2.
Proof. apply pframe_fds_sink, sys_calloc_frame. Qed.

Lemma sys_pthread_sigmask_psink fd m p : psink_at fd p (sys_pthread_sigmask m p).2.
Proof. done. Qed.

#[local] Hint Resolve psink_at_refl psink_at_trans sys_fcntl_setfd_psink
  sys_close_psink env_call_psink sys_sigaction_dfl_psink sys_getrlimit_psink
  sys_calloc_psink sys_pthread_sigmask_psink : frame.

Lemma alloc_fd_table_sink fd n : preserves (lift_rel (psink_at fd)) (alloc_fd_table n).
Proof. unfold alloc_fd_table. frame_steps. Qed.

Lemma reset_signals_sink fd sp :
  fd <> sp.1 -> preserves (lift_rel (psink_at fd)) (reset_signals sp).
Proof. intros Hne. unfold reset_signals. frame_steps. Qed.

Lemma find_highest_sink fd fh n : preserves (lift_rel (psink_at fd)) (find_highest fh n).
Proof. unfold find_highest. frame_steps. Qed.

Lemma apply_session_sink fd attrs : preserves (lift_rel (psink_at fd)) (apply_session attrs).
Proof.
  unfold apply_session, sys_setsid, sys_setpgid, sys_ioctl_tiocsctty. frame_steps.
Qed.

Lemma cloexec_rest_sink fd n : preserves (lift_rel (psink_at fd)) (cloexec_rest n).
Proof. unfold cloexec_rest. frame_steps. Qed.

Lemma apply_identity_sink fd cwd attrs :
  preserves (lift_rel (psink_at fd)) (apply_identity cwd attrs).
Proof.
  unfold apply_identity, sys_setgid, sys_setreuid, sys_chdir.
  destruct cwd; frame_steps.
Qed.

Lemma sync_at_eq id s s' :
  syncfd s' = syncfd s -> psink_at (syncfd s) (cproc s) (cproc s') ->
  sync_at id s -> sync_at id s'.
Proof. unfold sync_at, psink_at. intros -> ->. done. Qed.

(** Lines 140-158: the pipe is reachable through [syncfd] before, during
    and after the move. *)
Lemma move_syncfd_sync id s out s' :
  move_syncfd s = (out, s') -> sync_at id s -> sync_at id s'.
Proof.
  unfold sync_at. intros H Hs. destruct out as [[]|].
  - apply move_syncfd_next in H as (d & Hd & Hsy & _ & _ & Hf).
    unfold fd_sink in *. rewrite Hd in Hs.
    by rewrite Hsy, Hf, lookup_insert_eq.
  - unfold move_syncfd in H. fail_inv H; subst; simpl in *.
    + apply negb_true_iff, Z.eqb_neq in Hif.
      by rewrite fd_sink_dup2_ne.
    + apply negb_true_iff, Z.eqb_neq in Hif.
      rewrite fd_sink_close_failed, fd_sink_dup2_ne; done.
    + apply negb_true_iff, Z.eqb_neq in Hif.
      rewrite fd_sink_fcntl, fd_sink_close_ne, fd_sink_dup2_eq; done.
    + by rewrite fd_sink_fcntl.
Qed.

(** Lines 160-173: the copies go above the pipe. *)
Lemma lift_sources_sync id n s out s' :
  lift_sources n s = (out, s') ->
  sync_at id s -> syncfd s < fd_index s -> sync_at id s'.
Proof.
  intros H Hs Hlt. unfold lift_sources in H.
  destruct (decide (0 <= n)) as [Hle|Hgt].
  2: { rewrite for_range_empty in H by lia. by injection H as _ <-. }
  set (Inv := fun (_ : Z) (t : cstate) => sync_at id t /\ syncfd t < fd_index t).
  assert (forall j s1 o s2,
    (fun i : Z =>
       v <- load_fd_table i ;;
       if v =? i then ret tt
       else
         k <- get_fd_index ;;
         r <- sys (sys_dup2 v k) ;;
         fail_if (r <? 0) ;;
         r <- sys (sys_fcntl_setfd k FD_CLOEXEC) ;;
         fail_if (r =? -1) ;;
         store_fd_table i k ;;
         put_fd_index (k + 1)) j s1 = (o, s2) ->
    Inv j s1 -> Inv (j + 1) s2) as Hbody.
  { intros j s1 o s2 Hb [H1 H2]. unfold Inv, sync_at in *. cbv beta in Hb.
    destruct o as [u|].
    - next_inv Hb; subst; simpl in *; [done|].
      rewrite fd_sink_fcntl, fd_sink_dup2_ne by lia. split; [done | lia].
    - fail_inv Hb; subst; simpl in *.
      + rewrite fd_sink_dup2_ne by lia. done.
      + rewrite fd_sink_fcntl, fd_sink_dup2_ne by lia. done. }
  apply (for_range_run Inv) in H; [|done|done|].
  - destruct H as [[_ [? _]]|(_ & j & s1 & _ & Hi & Hb)]; [done|].
    by apply Hbody in Hb as [? _].
  - intros j s1 s2 _ Hi Hb. by apply Hbody in Hb.
Qed.

(** Lines 175-187: the targets are below the pipe when the pipe is not
    below the length of the list. *)
Lemma place_sources_sync id n s out s' :
  place_sources n s = (out, s') ->
  sync_at id s -> n <= syncfd s -> sync_at id s'.
Proof.
  intros H Hs Hlt. unfold place_sources in H.
  destruct (decide (0 <= n)) as [Hle|Hgt].
  2: { rewrite for_range_empty in H by lia. by injection H as _ <-. }
  set (Inv := fun (_ : Z) (t : cstate) => sync_at id t /\ n <= syncfd t).
  assert (forall j s1 o s2, j < n ->
    (fun i : Z =>
       v <- load_fd_table i ;;
       (if negb (v =? i) then
          r <- sys (sys_dup2 v i) ;;
          fail_if (r <? 0)
        else ret tt) ;;
       r <- sys (sys_fcntl_setfd i 0) ;;
       fail_if (r =? -1)) j s1 = (o, s2) ->
    Inv j s1 -> Inv (j + 1) s2) as Hbody.
  { intros j s1 o s2 Hj Hb [H1 H2]. unfold Inv, sync_at in *. cbv beta in Hb.
    destruct o as [u|].
    - next_inv Hb; subst; simpl in *.
      + rewrite fd_sink_fcntl, fd_sink_dup2_ne by lia. done.
      + rewrite fd_sink_fcntl. done.
    - fail_inv Hb; subst; simpl in *.
      + rewrite fd_sink_dup2_ne by lia. done.
      + rewrite fd_sink_fcntl, fd_sink_dup2_ne by lia. done.
      + rewrite fd_sink_fcntl. done. }
  apply (for_range_run Inv) in H; [|done|done|].
  - destruct H as [[_ [? _]]|(_ & j & s1 & Hj & Hi & Hb)]; [done|].
    apply Hbody in Hb as [? _]; [done | lia | done].
  - intros j s1 s2 Hj Hi Hb. apply Hbody in Hb; [done | lia | done].
Qed.

(** A command that leaves [syncfd] and what it writes to alone. *)
Lemma sync_at_step {A} id (m : C A) s out s' :
  m s = (out, s') ->
  keeps_syncfd m -> preserves (lift_rel (psink_at (syncfd s))) m ->
  sync_at id s -> sync_at id s'.
Proof.
  intros H Hk Hp. apply sync_at_eq.
  - by eapply keeps_syncfd_run.
  - by apply (preserves_run _ _ _ _ _ Hp H).
Qed.

Lemma child_sync_moved_sync id sp fh n p out s :
  child_sync_moved sp fh n (child_entry sp p) = (out, s) ->
  fd_sink p sp.2 = Some id -> sp.1 <> sp.2 -> sync_at id s.
Proof.
  intros H Hs Hne. unfold child_sync_moved in H.
  assert (sync_at id (child_entry sp p)) as H0 by done.
  apply bind_run in H as [[_ H]|(? & s1 & H1 & H)].
  { eapply sync_at_step;
      [exact H | apply alloc_fd_table_syncfd | apply alloc_fd_table_sink | done]. }
  eapply sync_at_step in H0;
    [|exact H1 | apply alloc_fd_table_syncfd | apply alloc_fd_table_sink].
  pose proof (keeps_syncfd_run _ _ _ _ (alloc_fd_table_syncfd _) H1) as E1.
  apply bind_run in H as [[_ H]|(? & s2 & H2 & H)].
  { eapply sync_at_step;
      [exact H | apply reset_signals_syncfd | apply reset_signals_sink | done].
    rewrite E1. simpl. done. }
  eapply sync_at_step in H0;
    [|exact H2 | apply reset_signals_syncfd
     | apply reset_signals_sink; rewrite E1; simpl; done].
  apply bind_run in H as [[_ H]|(? & s3 & H3 & H)].
  { eapply sync_at_step;
      [exact H | apply find_highest_syncfd | apply find_highest_sink | done]. }
  eapply sync_at_step in H0;
    [|exact H3 | apply find_highest_syncfd | apply find_highest_sink].
  by eapply move_syncfd_sync.
Qed.

Lemma child_renumbered_sync id sp fh attrs p out s :
  child_renumbered sp fh (Z.of_nat (length fh)) attrs (child_entry sp p) = (out, s) ->
  fd_sink p sp.2 = Some id -> sp.1 <> sp.2 ->
  Z.of_nat (length fh) <= max_fd fh + 1 ->
  sync_at id s /\ (forall u, out = Next u -> syncfd s = max_fd fh + 1).
Proof.
  intros H Hs Hne Hlen. unfold child_renumbered in H.
  apply bind_run in H as [[-> H]|(? & s4 & H4 & H)].
  { split; [by eapply child_sync_moved_sync | done]. }
  pose proof (child_sync_moved_sync _ _ _ _ _ _ _ H4 Hs Hne) as H0.
  apply child_sync_moved_next in H4 as (_ & _ & _ & _ & Hsy & Hidx & _).
  apply bind_run in H as [[-> H]|(? & s5 & H5 & H)].
  { split; [|done]. eapply lift_sources_sync; [exact H | done | lia]. }
  eapply lift_sources_sync in H0; [|exact H5 | lia].
  pose proof (keeps_syncfd_run _ _ _ _ (lift_sources_syncfd _) H5) as E5.
  apply bind_run in H as [[-> H]|(? & s6 & H6 & H)].
  { split; [|done]. eapply place_sources_sync; [exact H | done | lia]. }
  eapply place_sources_sync in H0; [|exact H6 | lia].
  pose proof (keeps_syncfd_run _ _ _ _ (place_sources_syncfd _) H6) as E6.
  apply bind_run in H as [[-> H]|(? & s7 & H7 & H)].
  { split; [|done]. eapply sync_at_step;
      [exact H | apply apply_session_syncfd | apply apply_session_sink | done]. }
  eapply sync_at_step in H0;
    [|exact H7 | apply apply_session_syncfd | apply apply_session_sink].
  pose proof (keeps_syncfd_run _ _ _ _ (apply_session_syncfd _) H7) as E7.
  pose proof (keeps_syncfd_run _ _ _ _ (cloexec_rest_syncfd _) H) as E8.
  split; [|intros; congruence].
  eapply sync_at_step;
    [exact H | apply cloexec_rest_syncfd | apply cloexec_rest_sink | done].
Qed.

(** Wherever the child stands in lines 59-235, the write end of the sync
    pipe is what [syncfd] names, when the list is not longer than its
    highest source plus one. *)
Lemma child_steps_sync id sp fh cwd attrs p out s :
  child_steps sp fh (Z.of_nat (length fh)) cwd attrs (child_entry sp p) = (out, s) ->
  fd_sink p sp.2 = Some id -> sp.1 <> sp.2 ->
  Z.of_nat (length fh) <= max_fd fh + 1 ->
  sync_at id s.
Proof.
  intros H Hs Hne Hlen. unfold child_steps in H.
  apply bind_run in H as [[-> H]|(? & s1 & H1 & H)].
  { by eapply child_renumbered_sync. }
  eapply child_renumbered_sync in H1 as [H0 _]; [|done..].
  eapply sync_at_step;
    [exact H | apply apply_identity_syncfd | apply apply_identity_sink | done].
Qed.

(** A list of distinct descriptor numbers is not longer than its highest
    member plus one. *)
Lemma distinct_sources_fit fh :
  NoDup fh -> (forall h, h ∈ fh -> 0 <= h) ->
  Z.of_nat (length fh) <= max_fd fh + 1.
Proof.
  intros Hnd Hpos.
  assert (fh ⊆+ seqZ 0 (max_fd fh + 1)) as Hsub.
  { apply NoDup_submseteq; [done|]. intros h Hh. apply elem_of_seqZ.
    split; [by apply Hpos|].
    apply list_elem_of_lookup in Hh as [i Hi].
    pose proof (max_fd_ge _ _ _ Hi). lia. }
  apply submseteq_length in Hsub. rewrite length_seqZ in Hsub.
  pose proof (max_fd_nonneg fh). lia.
Qed.

(** ** The outcome of a spawn *)

(** With the sync pipe within reach the child either runs the new image or
    reports its errno code and exits: it is never left retrying. *)
Lemma child_handler_settles fuel sp exe args env fh cwd om attrs p id :
  fd_sink p sp.2 = Some id -> sp.1 <> sp.2 ->
  Z.of_nat (length fh) <= max_fd fh + 1 ->
  (exists cp,
     child_handler (S fuel) sp exe args env fh (Z.of_nat (length fh)) cwd om attrs p
       = Execed cp /\ written cp = written p) \/
  (exists cp e,
     child_handler (S fuel) sp exe args env fh (Z.of_nat (length fh)) cwd om attrs p
       = Exited 127 cp /\
     errno cp = errno_val e /\
     written cp =
       <[id := default [] (written p !! id) ++ int_bytes (errno_val e)]> (written p)).
Proof.
  intros Hsink Hne Hlen. unfold child_handler.
  destruct (child_steps _ _ _ _ _ _) as [out s] eqn:Hs.
  pose proof (preserves_run _ _ _ _ _ (child_steps_frame _ _ _ _ _) Hs)
    as (Hwr & _ & _). simpl in Hwr.
  pose proof (child_steps_sync _ _ _ _ _ _ _ _ Hs Hsink Hne Hlen) as Hsync.
  assert (forall s1, written (cproc s1) = written p -> errno_set (cproc s1) ->
            sync_at id s1 ->
            exists cp e, child_fail (S fuel) s1 = Exited 127 cp /\
              errno cp = errno_val e /\
              written cp =
                <[id := default [] (written p !! id) ++ int_bytes (errno_val e)]>
                  (written p))
    as Hfail.
  { intros s1 Hw1 [e He] Hs1. rewrite child_fail_eq.
    destruct (released_facts s1) as (Her & _ & Hwr1 & _).
    rewrite Her, He.
    replace (negb (errno_val e =? 0)) with true
      by (pose proof (errno_val_pos e); symmetry;
          apply negb_true_iff, Z.eqb_neq; lia).
    unfold sync_at in Hs1. rewrite <-fd_sink_released in Hs1.
    rewrite (write_retry_ok _ _ _ _ _ Hs1).
    eexists _, e. split; [reflexivity|].
    split; [simpl; congruence|]. simpl. by rewrite Hwr1, Hw1. }
  destruct out as [[]|].
  - unfold sys_execve. destruct (fault (cproc s) Execve) as [e|]; simpl.
    + right. apply Hfail; [done | by exists e | done].
    + left. eexists. split; [reflexivity|]. done.
  - right. apply Hfail; [done| |done]. by apply (child_steps_fails _ _ _ _ _ _ _ Hs).
Qed.

(** The new image holds no descriptor of a description that only the
    child's [sync_pipes[1]] referred to. *)
Lemma execed_image_releases fuel sp exe args env fh cwd om attrs p cp o :
  in_range p ->
  (forall k d, fds p !! k = Some d -> fd_ofd d = o -> k = sp.2) ->
  child_handler fuel sp exe args env fh (Z.of_nat (length fh)) cwd om attrs p
    = Execed cp ->
  child_holds o (Execed cp) = false.
Proof.
  intros Hr Honly H.
  destruct (execed_image_table _ _ _ _ _ _ _ _ _ _ _ Hr H) as [Hsrc Hnone].
  apply bool_decide_eq_false. intros (k & d & Hk & Ho). simpl in Ho.
  destruct (decide (k < 0 \/ Z.of_nat (length fh) <= k)) as [Hout|Hin].
  { rewrite Hnone in Hk by done. done. }
  assert (exists h, fh !! Z.to_nat k = Some h) as [h Hh]
    by (apply lookup_lt_is_Some; lia).
  destruct (Hsrc _ _ Hh) as (d0 & Hd0 & _ & Hne & Hi).
  replace (Z.of_nat (Z.to_nat k)) with k in Hi by lia.
  rewrite Hk in Hi. injection Hi as ->. simpl in Ho.
  apply Hne. by eapply Honly.
Qed.

Lemma sys_pipe_in_range p r sp p1 :
  sys_pipe p = (r, Some sp, p1) -> in_range p -> in_range p1.
Proof.
  unfold sys_pipe, lowest_free.
  destruct (first_free (fds p) 0 _) as [r0|] eqn:E1; [|done].
  destruct (first_free (<[r0:=_]> (fds p)) 0 _) as [w0|] eqn:E2; [|done].
  intros [= _ <- <-] Hr k d. simpl.
  apply first_free_spec in E1 as [_ ?]. apply first_free_spec in E2 as [_ ?].
  intros Hk.
  apply lookup_insert_Some in Hk as [[<- _]|[_ Hk]]; [lia|].
  apply lookup_insert_Some in Hk as [[<- _]|[_ Hk]]; [lia|].
  by eapply Hr.
Qed.

(** The parent's half when the pipe is empty and no write end is left. *)
Lemma exec_command_parent_eof_returns sp pid om res c p id dR dW :
  fds p !! sp.1 = Some dR -> fd_ofd dR = PipeR id ->
  fds p !! sp.2 = Some dW -> sp.1 <> sp.2 ->
  pipe_data id c = [] -> child_holds (PipeW id) c = false ->
  exists p', exec_command_parent sp pid om res c p = Some (0, pid, p').
Proof.
  intros HR HRo HW Hne Hdata Hheld. unfold exec_command_parent, sys_close.
  rewrite HW. simpl. unfold sys_read_sync. simpl.
  rewrite lookup_delete_ne, HR, HRo by done.
  unfold pipe_data in Hdata. rewrite Hdata. simpl.
  rewrite Hheld. simpl.
  rewrite lookup_delete_ne, HR by done. simpl.
  rewrite exec_command_fail_eq. simpl. by eexists.
Qed.

(** X12: a spawn whose pipe and [fork] succeed, with a request list that
    is not longer than its highest source plus one (as is every list of
    distinct descriptors, [distinct_sources_fit]), always returns, and its
    return value tells what became of the child: 0 with the child's pid in
    [*result] exactly when the child runs the new image, and -1 with
    [*result] untouched exactly when the child failed at some step, wrote
    that step's errno code to the pipe and exited with status 127; the
    parent then leaves the code in [errno], unless [waitpid] itself
    failed.  The process is taken to start with its descriptors between 0
    and its limit and referring to objects that exist. *)
Theorem exec_command_reports_outcome
    fuel om res exe args envp fh wd attrs p :
  in_range p -> objects_known p ->
  (sys_pipe p).1.2 <> None -> fault p Fork = None ->
  Z.of_nat (length fh) <= max_fd fh + 1 ->
  exists r res' p' c,
    exec_command (S fuel) om res exe args envp fh (Z.of_nat (length fh)) wd attrs p
      = {| parent := Some (r, res', p'); child := Some c |} /\
    ((exists cp, c = Execed cp /\ r = 0 /\ res' = Z.pos (next_pid p)) \/
     (exists cp e, c = Exited 127 cp /\ errno cp = errno_val e /\
        r = -1 /\ res' = res /\
        (fault p Waitpid = None -> errno p' = errno_val e))).
Proof.
  intros Hrange Hknown Hpipe Hfork Hlen.
  destruct (sys_pipe p) as [[r0 [[rfd wfd]|]] p1] eqn:Epipe; [|done].
  clear Hpipe. pose proof Epipe as Hp1.
  pose proof (sys_pipe_in_range _ _ _ _ Epipe Hrange) as Hrange1.
  apply sys_pipe_ok in Hp1
    as (_ & Hne & HfR & HfW & Hfds & Hwr & _ & _ & Htr & Hfault & Hnp & _).
  assert (sys_fork (set_sigmask sigfillset p1) =
          (Z.pos (next_pid p),
           set_pids (self_pid p1) (Pos.succ (next_pid p)) (set_sigmask sigfillset p1),
           Some (set_trace []
                   (set_pids (next_pid p) (Pos.succ (next_pid p))
                      (set_sigmask sigfillset p1))))) as Efork.
  { unfold sys_fork; simpl. by rewrite Hfault, Hfork, Hnp. }
  rewrite (exec_command_forked _ _ _ _ _ _ _ _ _ _ _ _ _ _ _ _ _ Epipe Efork).
  set (cp0 := set_trace [] _).
  set (p3 := set_pids (self_pid p1) _ _).
  assert (fds p3 !! (rfd, wfd).1 =
          Some {| fd_ofd := PipeR (next_obj p); fd_cloexec := false |}) as HR
    by (simpl; rewrite Hfds, lookup_insert_ne, lookup_insert_eq; done).
  assert (fds p3 !! (rfd, wfd).2 =
          Some {| fd_ofd := PipeW (next_obj p); fd_cloexec := false |}) as HW
    by (simpl; rewrite Hfds, lookup_insert_eq; done).
  assert (written cp0 !! next_obj p = Some []) as Hempty
    by (simpl; rewrite Hwr, lookup_insert_eq; done).
  assert (fd_sink cp0 (rfd, wfd).2 = Some (next_obj p)) as Hsink
    by (unfold fd_sink; simpl; rewrite Hfds, lookup_insert_eq; done).
  assert (forall k d, fds cp0 !! k = Some d -> fd_ofd d = PipeW (next_obj p) ->
            k = (rfd, wfd).2) as Honly.
  { simpl. intros k d Hk Ho. rewrite Hfds in Hk.
    apply lookup_insert_Some in Hk as [[<- _]|[_ Hk]]; [done|].
    apply lookup_insert_Some in Hk as [[_ <-]|[_ Hk]]; [done|].
    apply Hknown in Hk. rewrite Ho in Hk. simpl in Hk. lia. }
  destruct (child_handler_settles fuel (rfd, wfd) exe args envp fh wd
              (sigmask p1) attrs cp0 (next_obj p) Hsink Hne Hlen)
    as [(cp & Hc & Hw)|(cp & e & Hc & He & Hw)].
  - pose proof (execed_image_releases _ _ _ _ _ _ _ _ _ _ _ _
                  (Hrange1 : in_range cp0) Honly Hc) as Hrel.
    rewrite Hc.
    destruct (exec_command_parent_eof_returns (rfd, wfd) (Z.pos (next_pid p))
                (sigmask p1) res (Execed cp) p3 _ _ _ HR eq_refl HW Hne)
      as [p' Hp']; [|exact Hrel|].
    + unfold pipe_data. simpl. by rewrite Hw, Hempty.
    + exists 0, (Z.pos (next_pid p)), p', (Execed cp).
      split; [by rewrite Hp'|]. left. by exists cp.
  - rewrite Hc.
    destruct (exec_command_parent_report (rfd, wfd) (Z.pos (next_pid p))
                (sigmask p1) res (Exited 127 cp) p3 _ _ _ e HR eq_refl HW Hne)
      as (p' & Hp' & _ & Herr).
    + unfold pipe_data. simpl. by rewrite Hw, lookup_insert_eq, Hempty.
    + exists (-1), res, p', (Exited 127 cp).
      split; [by rewrite Hp'|]. right. exists cp, e.
      split_and!; try done. intros Hwait. apply Herr. simpl. by rewrite Hfault.
Qed.

(** The sample process asks for its descriptors 5, 0 and 1 and [execve]
    fails with ENOENT: the parent returns -1. *)
Lemma exec_command_reports_outcome_witness :
  in_range (sample_proc 32 execve_enoent) /\
  objects_known (sample_proc 32 execve_enoent) /\
  Z.of_nat (length [5; 0; 1]) <= max_fd [5; 0; 1] + 1 /\
  exists r res' p' c,
    exec_command 1 0 77 "/bin/true" [] [] [5; 0; 1] (Z.of_nat (length [5; 0; 1]))
      None sample_attrs (sample_proc 32 execve_enoent)
      = {| parent := Some (r, res', p'); child := Some c |} /\
    ((exists cp, c = Execed cp /\ r = 0 /\ res' = 11) \/
     (exists cp e, c = Exited 127 cp /\ errno cp = errno_val e /\
        r = -1 /\ res' = 77 /\
        (@None errno_code = None -> errno p' = errno_val e))).
Proof.
  assert (in_range (sample_proc 32 execve_enoent)) as H1
    by (apply (bool_decide_unpack (in_range (sample_proc 32 execve_enoent)));
        vm_compute; exact I).
  assert (objects_known (sample_proc 32 execve_enoent)) as H2
    by (apply (bool_decide_unpack (objects_known (sample_proc 32 execve_enoent)));
        vm_compute; exact I).
  split; [exact H1|]. split; [exact H2|]. split; [vm_compute; discriminate|].
  apply (exec_command_reports_outcome 0 0 77 "/bin/true" [] [] [5; 0; 1] None
           sample_attrs (sample_proc 32 execve_enoent) H1 H2);
    [vm_compute; discriminate | reflexivity | vm_compute; discriminate].
Defined.

(** ** syscall2 *)

Lemma to_int32_range x : - 2 ^ 31 <= to_int32 x < 2 ^ 31.
Proof. unfold to_int32. pose proof (Z.mod_pos_bound (x + 2 ^ 31) (2 ^ 32)). lia. Qed.

Lemma to_int32_small x : - 2 ^ 31 <= x < 2 ^ 31 -> to_int32 x = x.
Proof. intros H. unfold to_int32. rewrite Z.mod_small by lia. lia. Qed.

Lemma to_int32_congruent x : (to_int32 x - x) mod 2 ^ 32 = 0.
Proof.
  unfold to_int32.
  replace ((x + 2 ^ 31) mod 2 ^ 32 - 2 ^ 31 - x)
    with ((x + 2 ^ 31) mod 2 ^ 32 - (x + 2 ^ 31)) by lia.
  rewrite Zminus_mod, Z.mod_mod, Z.sub_diag by lia. done.
Qed.

(** X13: [syscall2] has the effect of the system call and returns its
    result narrowed from [long] to [int]: a result that fits an [int]
    comes back unchanged, in particular the -1 of a failed call; any other
    result comes back as a different number with the same low 32 bits, so
    that the caller cannot tell it from a small one. *)
Theorem syscall2_narrows_result
    (world : Type) (syscall : Z -> Z -> Z -> world -> Z * world)
    (number arg1 arg2 : Z) (w : world) :
  (syscall2 world syscall number arg1 arg2 w).2 = (syscall number arg1 arg2 w).2 /\
  - 2 ^ 31 <= (syscall2 world syscall number arg1 arg2 w).1 < 2 ^ 31 /\
  ((syscall2 world syscall number arg1 arg2 w).1 - (syscall number arg1 arg2 w).1)
    mod 2 ^ 32 = 0 /\
  ((syscall2 world syscall number arg1 arg2 w).1 = (syscall number arg1 arg2 w).1 <->
   - 2 ^ 31 <= (syscall number arg1 arg2 w).1 < 2 ^ 31) /\
  ((syscall number arg1 arg2 w).1 = -1 ->
   (syscall2 world syscall number arg1 arg2 w).1 = -1).
Proof.
  unfold syscall2. simpl. set (x := (syscall number arg1 arg2 w).1).
  pose proof (to_int32_range x) as Hr.
  split; [done|]. split; [done|]. split; [apply to_int32_congruent|]. split.
  - split; [intros <-; done | apply to_int32_small].
  - intros ->. reflexivity.
Qed.

(** A result of 2^32 + 5 is returned as 5. *)
Example syscall2_loses_high_bits :
  (syscall2 unit echo_kernel 9 (2 ^ 32 + 5) 0 tt).1 = 5 /\
  (syscall2 unit echo_kernel 9 (-1) 0 tt).1 = -1.
Proof. split; reflexivity. Qed.

(** ** The signal mask around the fork *)

Lemma sys_read_sync_sigmask fd count c p out :
  sys_read_sync fd count c p = Some out -> sigmask out.2 = sigmask p.
Proof.
  unfold sys_read_sync. intros H.
  repeat case_match; simplify_eq; done.
Qed.

(** The parent's half reaches the [fail] label with the mask it started
    with. *)
Lemma exec_command_parent_mask sp pid om res c p out :
  exec_command_parent sp pid om res c p = Some out ->
  exists err res' px,
    out = exec_command_fail om err res' px /\ sigmask px = sigmask p.
Proof.
  unfold exec_command_parent.
  destruct (sys_close_frame sp.2 p) as [_ Hc1].
  destruct (_ <? 0); [intros [= <-]; by eexists _, _, _|].
  destruct (sys_read_sync _ _ _ _) as [[[size got] p2]|] eqn:Hread; [|done].
  apply sys_read_sync_sigmask in Hread. simpl in Hread.
  set (p3 := if negb (size =? 4) then p2 else _).
  assert (sigmask p3 = sigmask p) as H3.
  { subst p3. destruct (negb (size =? 4)); [congruence|].
    destruct (env_call_frame Waitpid pid (EvWaitpid pid)
                (set_errno (bytes_int (got ++ drop (length got) (int_bytes 0))) p2))
      as [[_ Hm] _].
    unfold sys_waitpid. rewrite Hm. simpl. congruence. }
  clearbody p3.
  destruct (sys_close_frame sp.1 p3) as [_ Hc2].
  destruct (_ <? 0); [intros [= <-]; eexists _, _, _; split; [done|congruence]|].
  destruct (negb (_ =? 0)); intros [= <-];
    eexists _, _, _; (split; [done|congruence]).
Qed.



(** ** Descriptors above the limit (lines 160-215) *)

(** The first pass makes its copies below the limit. *)
Lemma lift_sources_above n s u s' :
  0 <= n ->
  lift_sources n s = (Next u, s') ->
  rlim_cur (cproc s') = rlim_cur (cproc s) /\
  forall k, rlim_cur (cproc s) <= k -> fds (cproc s') !! k = fds (cproc s) !! k.
Proof.
  intros Hn H. unfold lift_sources in H.
  set (Inv := fun (j : Z) (st : cstate) =>
    rlim_cur (cproc st) = rlim_cur (cproc s) /\
    forall k, rlim_cur (cproc s) <= k -> fds (cproc st) !! k = fds (cproc s) !! k).
  apply (fun a b => for_range_next Inv 0 _ _ _ _ _ Hn a b H); clear H.
  - by split.
  - intros j s1 s2 Hj (Hlim & Hsame) Hb. cbv beta in Hb.
    apply bind_next in Hb as (v & s3 & Hv & Hb). injection Hv as <- <-.
    destruct (_ =? j); [by injection Hb as <-|].
    next_inv Hb; subst; simpl in *.
    destruct (sys_dup2_frame (array_get (default [] (fd_table s1)) j)
                (fd_index s1) (cproc s1)) as [(_ & Hl1 & _) _].
    destruct (sys_fcntl_setfd_frame (fd_index s1) FD_CLOEXEC
                (sys_dup2 (array_get (default [] (fd_table s1)) j)
                   (fd_index s1) (cproc s1)).2) as [(_ & Hl2 & _) _].
    apply sys_dup2_ok in Hok as (d & Hd & Hrange & Hdup).
    apply sys_fcntl_setfd_ok in Hok0 as (d1 & Hd1 & Hset).
    split; simpl; [congruence|].
    intros k Hk. rewrite Hset, lookup_insert_ne by lia.
    rewrite Hdup. case_decide; [by apply Hsame|].
    rewrite lookup_insert_ne by lia. by apply Hsame.
Qed.

(** The loop of lines 211-215 stops at the limit. *)
Lemma cloexec_rest_above n s u s' :
  0 <= n ->
  cloexec_rest n s = (Next u, s') ->
  forall k, rlim_cur (cproc s) < k -> fds (cproc s') !! k = fds (cproc s) !! k.
Proof.
  intros Hn H. unfold cloexec_rest in H.
  apply bind_next in H as (lim & s1 & Hlim & H).
  apply sys_out_next in Hlim as [-> ->].
  apply bind_next in H as ([] & s2 & Hok & H).
  apply fail_if_next in Hok as [Hok ->].
  unfold sys_getrlimit in *.
  destruct (fault (cproc s) Getrlimit); [done|]. simpl in H. clear Hok.
  replace (n <? 0) with false in H by (symmetry; apply Z.ltb_ge; lia).
  replace (set_cproc (cproc s) s) with s in H by (by destruct s).
  destruct (decide (n <= rlim_cur (cproc s) + 1)) as [Hle|Hgt].
  2: { rewrite for_range_empty in H by lia. by injection H as ? <-. }
  set (Inv := fun (i : Z) (st : cstate) =>
    forall k, rlim_cur (cproc s) < k -> fds (cproc st) !! k = fds (cproc s) !! k).
  apply (fun a b => for_range_next Inv n _ _ _ _ _ Hle a b H); clear H.
  - done.
  - intros j s3 s4 Hj Hsame Hb.
    apply bind_next in Hb as (r & s5 & Hr & Hb).
    apply sys_next in Hr as [-> ->].
    apply bind_next in Hb as (e & s6 & He & Hb). injection He as <- <-.
    apply fail_if_next in Hb as [_ ->].
    intros k Hk. unfold sys_fcntl_setfd; simpl.
    destruct (fds (cproc s3) !! j); simpl; [|by apply Hsame].
    rewrite lookup_insert_ne by lia. by apply Hsame.
Qed.

(** A sync pipe that has to move finds its new number below the limit. *)
Lemma child_sync_moved_room sp fh p u s' :
  child_sync_moved sp fh (Z.of_nat (length fh)) (child_entry sp p) = (Next u, s') ->
  sp.2 <> max_fd fh + 1 -> max_fd fh + 1 < rlim_cur p.
Proof.
  intros Hsync Hne. unfold child_sync_moved in Hsync.
  apply bind_next in Hsync as ([] & t1 & Ha & Hsync).
  apply bind_next in Hsync as ([] & t2 & Hr & Hsync).
  apply bind_next in Hsync as ([] & t3 & Hf & Hm).
  pose proof (preserves_run _ _ _ _ _ (alloc_fd_table_frame _) Ha) as Fa.
  pose proof (preserves_run _ _ _ _ _ (reset_signals_frame _) Hr) as Fr.
  pose proof (preserves_run _ _ _ _ _ (find_highest_frame _ _) Hf) as Ff.
  apply alloc_fd_table_next in Ha as (_ & Ha2 & Ha3 & Ha4 & _).
  apply reset_signals_next in Hr as (_ & _ & _ & Hr2 & Hr3 & Hr4).
  apply find_highest_next in Hf as (_ & Hf2 & Hf3 & _).
  - apply move_syncfd_room in Hm.
    + open_frames. simpl in *. rewrite Hf3 in Hm. congruence.
    + rewrite Hf2, Hf3, Hr4, Ha3. done.
  - simpl in *. congruence.
  - intros Hpos. rewrite Hr3, Ha4 by lia.
    eexists. split; [done|]. rewrite length_replicate. lia.
Qed.

(** C1 (the code departs above the descriptor limit): the request list
    [fh] has its targets 0..N-1 by position and any source values.  When
    the child gets through the renumbering (lines 59-215 return without a
    jump to [fail]), every source was an open descriptor of the process
    and descriptor [i] now refers to the open file description that source
    [fh[i]] referred to when the child started, with close-on-exec off.
    Of the descriptors from N upwards, those up to the descriptor limit
    are close-on-exec if they are open; the loop of lines 211-215 stops
    there, and a descriptor above the limit that is no end of the sync
    pipe is left as it was when the child started, open without
    close-on-exec if it was so. *)
Theorem renumbering_stops_at_limit sp fh attrs p u s' :
  child_renumbered sp fh (Z.of_nat (length fh)) attrs (child_entry sp p)
    = (Next u, s') ->
  (forall i h, fh !! i = Some h ->
     exists d, fds p !! h = Some d /\
       fds (cproc s') !! Z.of_nat i =
         Some {| fd_ofd := fd_ofd d; fd_cloexec := false |}) /\
  (forall k d, Z.of_nat (length fh) <= k <= rlim_cur p ->
     fds (cproc s') !! k = Some d -> fd_cloexec d = true) /\
  (forall k, Z.of_nat (length fh) <= k -> rlim_cur p < k ->
     k <> sp.1 -> k <> sp.2 ->
     fds (cproc s') !! k = fds p !! k).
Proof.
  intros H. unfold child_renumbered in H.
  apply bind_next in H as ([] & s4 & Hsync & H).
  apply bind_next in H as ([] & s5 & Hlift & H).
  apply bind_next in H as ([] & s6 & Hplace & H).
  apply bind_next in H as ([] & s7 & Hsess & H).
  pose proof (child_sync_moved_room _ _ _ _ _ Hsync) as Hroom.
  apply child_sync_moved_next in Hsync
    as (d0 & _ & _ & _ & Hsy & Hidx & Htab & Hlim4 & Hfds4).
  pose proof (lift_sources_above _ _ _ _ (Nat2Z.is_nonneg _) Hlift)
    as (Hlim5 & Habove5).
  apply lift_sources_next in Hlift as (Hlow5 & _ & t & Ht & Hlen & Hlifted);
    [|done|lia].
  pose proof (preserves_run _ _ _ _ _ (place_sources_frame _) Hplace) as Fp.
  apply (place_sources_next fh t (fds (cproc s4))) in Hplace
    as (Hplaced & Hhigh6); [|done|done|done].
  pose proof (preserves_run _ _ _ _ _ (apply_session_frame _) Hsess) as Fs.
  pose proof (preserves_run _ _ _ _ _ (cloexec_rest_frame _) H) as Fc.
  pose proof (cloexec_rest_above _ _ _ _ (Nat2Z.is_nonneg _) H) as Habove8.
  apply cloexec_rest_next in H as (Hlow8 & Hce); [|lia].
  open_frames. split; [|split].
  - intros i h Hh. destruct (Hplaced i h Hh) as (d & Hd & Hi).
    pose proof (lookup_lt_Some _ _ _ Hh). pose proof (max_fd_ge _ _ _ Hh).
    exists d. split.
    + rewrite Hfds4, lookup_insert_ne in Hd by lia.
      case_decide; repeat (apply lookup_delete_Some in Hd as [_ Hd]); done.
    + rewrite Hlow8 by lia. congruence.
  - intros k d Hk Hd. apply (Hce k d); [|done]. simpl in *. lia.
  - intros k Hk Hlim Hk1 Hk2. simpl in *.
    rewrite Habove8 by lia.
    replace (fds (cproc s7)) with (fds (cproc s6)) by congruence.
    rewrite Hhigh6, Habove5, Hfds4 by lia.
    case_decide.
    + rewrite lookup_insert_ne by lia. by rewrite lookup_delete_ne.
    + rewrite lookup_insert_ne by (specialize (Hroom ltac:(done)); lia).
      by rewrite !lookup_delete_ne.
Qed.

(** A child whose limit (16) was lowered below a descriptor it holds (20):
    the renumbering goes through, descriptor 20 keeps its flag, and the
    new image starts with it. *)
Lemma renumbering_stops_at_limit_witness :
  exists s' cp,
    child_renumbered (3, 4) [5; 0; 1] 3 sample_attrs
      (child_entry (3, 4) stretched_child) = (Next tt, s') /\
    rlim_cur stretched_child = 16 /\
    fds stretched_child !! 20 = Some (fd_rw 103) /\
    fd_cloexec (fd_rw 103) = false /\
    fds (cproc s') !! 20 = fds stretched_child !! 20 /\
    child_handler 1 (3, 4) "/bin/true" [] [] [5; 0; 1] 3 None 5 sample_attrs
      stretched_child = Execed cp /\
    fds cp !! 20 = Some (fd_rw 103).
Proof.
  eexists _, _. split; [vm_compute; reflexivity|].
  split; [reflexivity|]. split; [vm_compute; reflexivity|].
  split; [reflexivity|]. split.
  - apply (renumbering_stops_at_limit (3, 4) [5; 0; 1] sample_attrs
             stretched_child tt); [vm_compute; reflexivity|..];
      simpl; lia.
  - split; vm_compute; reflexivity.
Defined.

(** ** The report that does not reach the parent (lines 175-187 and 238-248) *)

(** C6 (the code departs when the list is longer than its highest source
    plus one): the sync pipe was moved to descriptor [max_fd fh + 1], and
    with [max_fd fh + 1 < N] that number is one of the targets, so the
    second pass puts the copy of a source there and the write end of the
    pipe is gone.  When [execve] then fails, the handler at the [fail]
    label writes the four bytes of [errno] to that source.  A source that
    is not open for writing refuses every [write] with EBADF, the loop of
    line 245 never ends and the child never exits; a source that is open
    for writing takes the four bytes at the first [write] and the child
    exits with status 127.  In both cases nothing was sent to the
    parent. *)
Theorem failure_report_misses_sync_pipe
    fuel sp exe args env fh cwd om attrs p s e :
  child_steps sp fh (Z.of_nat (length fh)) cwd attrs (child_entry sp p)
    = (Next tt, s) ->
  fault p Execve = Some e ->
  max_fd fh + 1 < Z.of_nat (length fh) ->
  exists h d,
    fh !! Z.to_nat (max_fd fh + 1) = Some h /\
    fds p !! h = Some d /\ h <> sp.2 /\
    syncfd s = max_fd fh + 1 /\
    fds (cproc s) !! syncfd s = Some {| fd_ofd := fd_ofd d; fd_cloexec := false |} /\
    match ofd_sink (fd_ofd d) with
    | None =>
        exists cp,
          child_handler fuel sp exe args env fh (Z.of_nat (length fh)) cwd om attrs p
            = Spinning cp /\
          written cp = written p
    | Some id =>
        exists cp,
          child_handler (S fuel) sp exe args env fh (Z.of_nat (length fh)) cwd om attrs p
            = Exited 127 cp /\
          written cp =
            <[id := default [] (written p !! id) ++ int_bytes (errno_val e)]>
              (written p)
    end.
Proof.
  intros Hsteps He Hlen.
  pose proof (preserves_run _ _ _ _ _ (child_steps_frame _ _ _ _ _) Hsteps)
    as (Hwr & _ & Hfault). simpl in Hwr, Hfault.
  pose proof Hsteps as H. unfold child_steps in H.
  apply bind_next in H as ([] & s7 & Hren & Hid).
  pose proof (keeps_syncfd_run _ _ _ _ (apply_identity_syncfd _ _) Hid) as Hsy8.
  pose proof (preserves_run _ _ _ _ _ (apply_identity_frame _ _) Hid)
    as [_ Hfds8]. simpl in Hfds8.
  pose proof (child_renumbered_next _ _ _ _ _ _ Hren) as (Hsrc & _).
  assert (syncfd s7 = max_fd fh + 1) as Hsy7.
  { unfold child_renumbered in Hren.
    apply bind_next in Hren as ([] & s4 & Hsync & H).
    apply bind_next in H as ([] & s5 & Hlift & H).
    apply bind_next in H as ([] & s6 & Hplace & H).
    apply bind_next in H as ([] & s6' & Hsess & H).
    apply child_sync_moved_next in Hsync as (_ & _ & _ & _ & Hsy4 & _).
    rewrite (keeps_syncfd_run _ _ _ _ (cloexec_rest_syncfd _) H),
      (keeps_syncfd_run _ _ _ _ (apply_session_syncfd _) Hsess),
      (keeps_syncfd_run _ _ _ _ (place_sources_syncfd _) Hplace),
      (keeps_syncfd_run _ _ _ _ (lift_sources_syncfd _) Hlift). done. }
  pose proof (max_fd_nonneg fh) as Hmax.
  destruct (lookup_lt_is_Some_2 fh (Z.to_nat (max_fd fh + 1)) ltac:(lia)) as [h Hh].
  destruct (Hsrc _ _ Hh) as (d & Hd & _ & Hh2 & Hpos).
  rewrite Z2Nat.id in Hpos by lia.
  assert (fds (cproc s) !! syncfd s
          = Some {| fd_ofd := fd_ofd d; fd_cloexec := false |}) as Hslot
    by (rewrite Hsy8, Hsy7, Hfds8; done).
  exists h, d. split_and!; [done|done|done|congruence|done|].
  set (sf := set_cproc (set_errno (errno_val e) (cproc s)) s).
  assert (forall n, child_handler n sp exe args env fh (Z.of_nat (length fh))
                      cwd om attrs p = child_fail n sf) as Hchild.
  { intros n. unfold child_handler. rewrite Hsteps. unfold sys_execve.
    by rewrite Hfault, He. }
  assert (fd_sink (released sf) (syncfd sf) = ofd_sink (fd_ofd d)) as Hsink.
  { rewrite fd_sink_released. unfold fd_sink. simpl. by rewrite Hslot. }
  destruct (released_facts sf) as (Her & _ & Hwr1 & _). simpl in Her, Hwr1.
  assert (negb (errno (released sf) =? 0) = true) as Hnz.
  { rewrite Her. pose proof (errno_val_pos e).
    apply negb_true_iff, Z.eqb_neq. lia. }
  destruct (ofd_sink (fd_ofd d)) as [id|].
  - eexists. rewrite Hchild, child_fail_eq, Hnz.
    rewrite (write_retry_ok _ _ _ _ _ Hsink). split; [reflexivity|].
    simpl. by rewrite Hwr1, Her, Hwr.
  - eexists. rewrite Hchild, child_fail_eq, Hnz.
    rewrite (write_retry_bad _ _ _ _ Hsink). split; [reflexivity|].
    destruct fuel; simpl; by rewrite Hwr1, Hwr.
Qed.

(** Descriptor 0, open read-only, is requested for both 0 and 1, and
    [execve] fails with ENOENT.  The pipe moved to descriptor 1 and was
    overwritten by the copy of 0: whatever the number of retries the child
    has not exited and has written nothing, and the parent has read
    end-of-file and returned success with the child's pid. *)
Lemma failure_report_misses_sync_pipe_witness :
  (exists s,
     child_steps (3, 4) [0; 0] 2 None sample_attrs
       (child_entry (3, 4) (forked_child (sample_proc 32 execve_enoent)))
       = (Next tt, s)) /\
  fds (forked_child (sample_proc 32 execve_enoent)) !! 0 = Some (fd_ro 100) /\
  (forall fuel, exists cp,
     child_handler fuel (3, 4) "/bin/true" [] [] [0; 0] 2 None 5 sample_attrs
       (forked_child (sample_proc 32 execve_enoent)) = Spinning cp /\
     written cp = written (forked_child (sample_proc 32 execve_enoent))) /\
  (exists cp p',
     exec_command 3 0 77 "/bin/true" [] [] [0; 0] 2 None sample_attrs
       (sample_proc 32 execve_enoent)
     = {| parent := Some (0, 11, p'); child := Some (Spinning cp) |}).
Proof.
  split; [eexists; vm_compute; reflexivity|].
  split; [vm_compute; reflexivity|].
  split; [|eexists _, _; vm_compute; reflexivity].
  intros fuel.
  destruct (failure_report_misses_sync_pipe fuel (3, 4) "/bin/true" [] [] [0; 0]
              None 5 sample_attrs (forked_child (sample_proc 32 execve_enoent))
              _ ENOENT ltac:(vm_compute; reflexivity) ltac:(reflexivity)
              ltac:(vm_compute; reflexivity))
    as (h & d & Hh & Hd & _ & _ & _ & Hout).
  vm_compute in Hh. injection Hh as <-.
  vm_compute in Hd. injection Hd as <-.
  exact Hout.
Defined.

(** Descriptor 1, open for writing, is requested for 0, 1 and 2: the pipe
    moved to descriptor 2 and was overwritten by the copy of 1.  The four
    bytes of ENOENT are in file 101, the child has exited with status 127,
    and the parent has read end-of-file and returned success with the pid
    of a child that never ran the program. *)
Example report_written_to_a_source :
  exists cp p',
    exec_command 3 0 77 "/bin/true" [] [] [1; 1; 1] 3 None sample_attrs
      (sample_proc 32 execve_enoent)
    = {| parent := Some (0, 11, p'); child := Some (Exited 127 cp) |} /\
    written cp !! 101 = Some [2; 0; 0; 0] /\
    written cp !! 200 = Some [].
Proof. eexists _, _. split_and!; vm_compute; reflexivity. Qed.

(** ** The write end of the sync pipe in the child (lines 59-235) *)

Lemma pwriters_refl id fd p : pwriters id fd p p.
Proof. intros H. exact H. Qed.

Lemma pwriters_trans id fd p1 p2 p3 :
  pwriters id fd p1 p2 -> pwriters id fd p2 p3 -> pwriters id fd p1 p3.
Proof. unfold pwriters. auto. Qed.

Lemma pframe_fds_writers id fd p p' : pframe_fds p p' -> pwriters id fd p p'.
Proof. intros [_ Hf] H k d. rewrite Hf. apply H. Qed.

Lemma fails_pwriters id fd e p : pwriters id fd p (fails e p).2.
Proof. intros H. exact H. Qed.

Lemma sys_close_pwriters id fd fd' p : pwriters id fd p (sys_close fd' p).2.
Proof.
  unfold sys_close. destruct (fds p !! fd'); [|apply fails_pwriters].
  intros H k d Hk. simpl in Hk. apply lookup_delete_Some in Hk as [_ Hk].
  by apply H.
Qed.

Lemma sys_fcntl_setfd_pwriters id fd fd' fl p :
  pwriters id fd p (sys_fcntl_setfd fd' fl p).2.
Proof.
  unfold sys_fcntl_setfd.
  destruct (fds p !! fd') as [d'|] eqn:E; [|apply fails_pwriters].
  intros H k d Hk. simpl in Hk.
  apply lookup_insert_Some in Hk as [[<- <-]|[_ Hk]]; [|by apply H].
  simpl. by apply H.
Qed.

Lemma env_call_pwriters id fd c r ev p : pwriters id fd p (env_call c r ev p).2.
Proof. apply pframe_fds_writers, env_call_frame. Qed.

Lemma sys_sigaction_dfl_pwriters id fd sig p :
  pwriters id fd p (sys_sigaction_dfl sig p).2.
Proof. apply pframe_fds_writers, sys_sigaction_dfl_frame. Qed.

Lemma sys_getrlimit_pwriters id fd p : pwriters id fd p (sys_getrlimit p).2.
Proof. apply pframe_fds_writers, sys_getrlimit_frame. Qed.

Lemma sys_calloc_pwriters id fd p : pwriters id fd p (sys_calloc p).2.
Proof. apply pframe_fds_writers, sys_calloc_frame. Qed.

Lemma sys_pthread_sigmask_pwriters id fd m p :
  pwriters id fd p (sys_pthread_sigmask m p).2.
Proof. intros H. exact H. Qed.

#[local] Hint Resolve pwriters_refl pwriters_trans sys_close_pwriters
  sys_fcntl_setfd_pwriters env_call_pwriters sys_sigaction_dfl_pwriters
  sys_getrlimit_pwriters sys_calloc_pwriters sys_pthread_sigmask_pwriters : frame.

Lemma alloc_fd_table_writers id fd n :
  preserves (lift_rel (pwriters id fd)) (alloc_fd_table n).
Proof. unfold alloc_fd_table. frame_steps. Qed.

Lemma reset_signals_writers id fd sp :
  preserves (lift_rel (pwriters id fd)) (reset_signals sp).
Proof. unfold reset_signals. frame_steps. Qed.

Lemma find_highest_writers id fd fh n :
  preserves (lift_rel (pwriters id fd)) (find_highest fh n).
Proof. unfold find_highest. frame_steps. Qed.

Lemma apply_session_writers id fd attrs :
  preserves (lift_rel (pwriters id fd)) (apply_session attrs).
Proof.
  unfold apply_session, sys_setsid, sys_setpgid, sys_ioctl_tiocsctty. frame_steps.
Qed.

Lemma cloexec_rest_writers id fd n :
  preserves (lift_rel (pwriters id fd)) (cloexec_rest n).
Proof. unfold cloexec_rest. frame_steps. Qed.

Lemma apply_identity_writers id fd cwd attrs :
  preserves (lift_rel (pwriters id fd)) (apply_identity cwd attrs).
Proof.
  unfold apply_identity, sys_setgid, sys_setreuid, sys_chdir.
  destruct cwd; frame_steps.
Qed.

(** A command that leaves [syncfd] alone and makes no new descriptor of
    the write end. *)
Lemma only_sync_step {A} id (m : C A) s out s' :
  m s = (out, s') ->
  keeps_syncfd m -> preserves (lift_rel (pwriters id (syncfd s))) m ->
  only_sync id s -> only_sync id s'.
Proof.
  intros H Hk Hp Hs. unfold only_sync.
  rewrite (keeps_syncfd_run _ _ _ _ Hk H).
  by apply (preserves_run _ _ _ _ _ Hp H).
Qed.

(** [dup2] of another descriptor than [fd] makes no copy of the write
    end. *)
Lemma sys_dup2_writers id fd o n p :
  o <> fd -> writers_at id fd p -> writers_at id fd (sys_dup2 o n p).2.
Proof.
  intros Hne H. unfold sys_dup2.
  destruct (fds p !! o) as [d0|] eqn:E; [|done].
  destruct ((n <? 0) || (rlim_cur p <=? n)); [done|].
  destruct (o =? n); [done|].
  intros k d Hk Ho. simpl in Hk.
  apply lookup_insert_Some in Hk as [[<- <-]|[_ Hk]]; [|by eapply H].
  simpl in Ho. exfalso. apply Hne. by eapply H.
Qed.

Lemma writers_at_fds id fd p p' :
  fds p' = fds p -> writers_at id fd p -> writers_at id fd p'.
Proof. intros Hf H k d. rewrite Hf. apply H. Qed.

Lemma sys_dup2_failed_fds o n p :
  ((sys_dup2 o n p).1 <? 0) = true -> fds (sys_dup2 o n p).2 = fds p.
Proof.
  unfold sys_dup2. destruct (fds p !! o); [|done].
  destruct ((n <? 0) || (rlim_cur p <=? n)) eqn:E; [done|].
  apply orb_false_iff in E as [E _]. apply Z.ltb_ge in E.
  destruct (o =? n); simpl; intros H; apply Z.ltb_lt in H; lia.
Qed.

(** Lines 140-158: one descriptor of the write end before, during and
    after the move. *)
Lemma move_syncfd_only id s out s' :
  move_syncfd s = (out, s') -> only_sync id s -> only_sync id s'.
Proof.
  unfold only_sync. intros H Hs. destruct out as [[]|].
  - apply move_syncfd_next in H as (d0 & Hd0 & Hsy & _ & _ & Hf).
    intros k d Hk Ho. rewrite Hsy. rewrite Hf in Hk.
    apply lookup_insert_Some in Hk as [[<- _]|[Hne Hk]]; [done|].
    case_decide as Hc.
    + rewrite <-Hc. by eapply Hs.
    + apply lookup_delete_Some in Hk as [Hne' Hk]. exfalso. apply Hne'.
      symmetry. by eapply Hs.
  - unfold move_syncfd in H. fail_inv H; subst; simpl in *.
    + by eapply writers_at_fds; [apply sys_dup2_failed_fds|].
    + exfalso. apply negb_true_iff, Z.eqb_neq in Hif.
      apply sys_dup2_ok in Hok as (d0 & Hd0 & _ & Hf).
      rewrite decide_False in Hf by done.
      unfold sys_close in Hbad. rewrite Hf, lookup_insert_ne, Hd0 in Hbad by done.
      done.
    + apply negb_true_iff, Z.eqb_neq in Hif.
      apply sys_fcntl_setfd_pwriters.
      apply sys_dup2_ok in Hok as (d0 & Hd0 & _ & Hf).
      rewrite decide_False in Hf by done.
      unfold sys_close. rewrite Hf, lookup_insert_ne, Hd0 by done. simpl.
      intros k d Hk Ho. simpl in Hk. rewrite ?Hf in Hk.
      apply lookup_delete_Some in Hk as [Hne Hk].
      apply lookup_insert_Some in Hk as [[<- _]|[_ Hk]]; [done|].
      exfalso. apply Hne. symmetry. by eapply Hs.
    + by apply sys_fcntl_setfd_pwriters.
Qed.

(** Lines 160-173: the sources are below the pipe and their copies go
    above it. *)
Lemma lift_sources_only id fh s out s' :
  lift_sources (Z.of_nat (length fh)) s = (out, s') ->
  ((0 < length fh)%nat -> fd_table s = Some fh) ->
  max_fd fh < syncfd s -> syncfd s < fd_index s ->
  only_sync id s -> only_sync id s'.
Proof.
  intros H Htab Hmax Hlt Hs. unfold lift_sources in H.
  destruct (decide (length fh = 0%nat)) as [Hz|Hnz].
  { rewrite Hz, for_range_empty in H by done. by injection H as _ <-. }
  specialize (Htab ltac:(lia)).
  set (Inv := fun (j : Z) (st : cstate) =>
    only_sync id st /\ syncfd st = syncfd s /\ syncfd st < fd_index st /\
    exists t, fd_table st = Some t /\
      forall i h, fh !! i = Some h -> j <= Z.of_nat i -> t !! i = Some h).
  assert (forall j s1 o s2, 0 <= j < Z.of_nat (length fh) ->
    (fun i : Z =>
       v <- load_fd_table i ;;
       if v =? i then ret tt
       else
         k <- get_fd_index ;;
         r <- sys (sys_dup2 v k) ;;
         fail_if (r <? 0) ;;
         r <- sys (sys_fcntl_setfd k FD_CLOEXEC) ;;
         fail_if (r =? -1) ;;
         store_fd_table i k ;;
         put_fd_index (k + 1)) j s1 = (o, s2) ->
    Inv j s1 -> only_sync id s2 /\ (o = Next tt -> Inv (j + 1) s2)) as Hbody.
  { intros j s1 o s2 Hj Hb (H1 & H2 & H3 & t & Ht & Hrest).
    unfold Inv, only_sync in *. cbv beta in Hb.
    pose proof (array_get_lookup fh j ltac:(lia)) as Hget.
    pose proof (Hrest _ _ Hget ltac:(lia)) as Htj.
    pose proof (max_fd_ge _ _ _ Hget) as Hle.
    assert (array_get (default [] (fd_table s1)) j = array_get fh j) as Hv
      by (unfold array_get at 1; rewrite Ht; simpl; by rewrite Htj).
    destruct o as [u|].
    - apply bind_next in Hb as (v & s3 & Hl & Hb). injection Hl as <- <-.
      rewrite Hv in Hb.
      destruct (array_get fh j =? j) eqn:Hsame.
      + injection Hb as <- <-. split; [done|]. intros _.
        split_and!; try done. exists t. split; [done|].
        intros i h Hh Hi. apply Hrest; [done | lia].
      + next_inv Hb; subst; simpl in *.
        assert (writers_at id (syncfd s1)
                  (sys_fcntl_setfd (fd_index s1) FD_CLOEXEC
                     (sys_dup2 (array_get fh j) (fd_index s1) (cproc s1)).2).2)
          as Hw by (apply sys_fcntl_setfd_pwriters, sys_dup2_writers; [lia | done]).
        split; [done|]. intros _. split_and!; try done; try lia.
        rewrite Ht. simpl. eexists. split; [reflexivity|].
        intros i h Hh Hi. rewrite list_lookup_insert_ne by lia.
        apply Hrest; [done | lia].
    - split; [|done].
      apply bind_fail in Hb as [Hb|(v & s3 & Hl & Hb)]; [done|].
      injection Hl as <- <-. rewrite Hv in Hb.
      destruct (array_get fh j =? j); [done|].
      fail_inv Hb; subst; simpl in *.
      + apply sys_dup2_writers; [lia | done].
      + apply sys_fcntl_setfd_pwriters, sys_dup2_writers; [lia | done]. }
  apply (for_range_run Inv) in H; [|lia| |].
  - destruct H as [[_ [? _]]|(_ & j & s1 & Hj & Hi & Hb)]; [done|].
    by apply Hbody in Hb as [? _].
  - unfold Inv. split_and!; try done. exists fh. split; [done|]. by intros.
  - intros j s1 s2 Hj Hi Hb. by apply Hbody in Hb as [_ Hb]; [apply Hb|..].
Qed.

(** Lines 175-187: what is copied to a target is a source that stayed in
    place or one of the copies above the pipe. *)
Lemma place_sources_only id n t s out s' :
  place_sources n s = (out, s') ->
  (0 < n -> fd_table s = Some t) ->
  (forall i, 0 <= i < n -> array_get t i = i \/ array_get t i <> syncfd s) ->
  only_sync id s -> only_sync id s'.
Proof.
  intros H Htab Hsrc Hs. unfold place_sources in H.
  destruct (decide (0 < n)) as [Hpos|Hgt].
  2: { rewrite for_range_empty in H by lia. by injection H as _ <-. }
  specialize (Htab Hpos).
  set (Inv := fun (_ : Z) (st : cstate) =>
    only_sync id st /\ syncfd st = syncfd s /\ fd_table st = Some t).
  assert (forall j s1 o s2, 0 <= j < n ->
    (fun i : Z =>
       v <- load_fd_table i ;;
       (if negb (v =? i) then
          r <- sys (sys_dup2 v i) ;;
          fail_if (r <? 0)
        else ret tt) ;;
       r <- sys (sys_fcntl_setfd i 0) ;;
       fail_if (r =? -1)) j s1 = (o, s2) ->
    Inv j s1 -> Inv (j + 1) s2) as Hbody.
  { intros j s1 o s2 Hj Hb (H1 & H2 & H3). unfold Inv, only_sync in *.
    cbv beta in Hb.
    assert (array_get (default [] (fd_table s1)) j <> j ->
            array_get (default [] (fd_table s1)) j <> syncfd s1) as Hv.
    { rewrite H3, H2. simpl. destruct (Hsrc j Hj); [done|]. by intros _. }
    destruct o as [u|].
    - next_inv Hb; subst; simpl in *.
      + apply negb_true_iff, Z.eqb_neq in Hif.
        split_and!; try done.
        apply sys_fcntl_setfd_pwriters, sys_dup2_writers; [by apply Hv | done].
      + split_and!; try done. by apply sys_fcntl_setfd_pwriters.
    - fail_inv Hb; subst; simpl in *.
      + apply negb_true_iff, Z.eqb_neq in Hif.
        split_and!; try done. apply sys_dup2_writers; [by apply Hv | done].
      + apply negb_true_iff, Z.eqb_neq in Hif.
        split_and!; try done.
        apply sys_fcntl_setfd_pwriters, sys_dup2_writers; [by apply Hv | done].
      + split_and!; try done. by apply sys_fcntl_setfd_pwriters. }
  apply (for_range_run Inv) in H; [|lia|done|].
  - destruct H as [[_ [? _]]|(_ & j & s1 & Hj & Hi & Hb)]; [done|].
    by apply Hbody in Hb as [? _].
  - intros j s1 s2 Hj Hi Hb. by apply Hbody in Hb.
Qed.

Lemma child_sync_moved_only id sp fh n p out s :
  child_sync_moved sp fh n (child_entry sp p) = (out, s) ->
  writers_at id sp.2 p -> only_sync id s.
Proof.
  intros H Hs. unfold child_sync_moved in H.
  assert (only_sync id (child_entry sp p)) as H0 by done.
  apply bind_run in H as [[_ H]|(? & s1 & H1 & H)].
  { eapply only_sync_step;
      [exact H | apply alloc_fd_table_syncfd | apply alloc_fd_table_writers | done]. }
  eapply only_sync_step in H0;
    [|exact H1 | apply alloc_fd_table_syncfd | apply alloc_fd_table_writers].
  apply bind_run in H as [[_ H]|(? & s2 & H2 & H)].
  { eapply only_sync_step;
      [exact H | apply reset_signals_syncfd | apply reset_signals_writers | done]. }
  eapply only_sync_step in H0;
    [|exact H2 | apply reset_signals_syncfd | apply reset_signals_writers].
  apply bind_run in H as [[_ H]|(? & s3 & H3 & H)].
  { eapply only_sync_step;
      [exact H | apply find_highest_syncfd | apply find_highest_writers | done]. }
  eapply only_sync_step in H0;
    [|exact H3 | apply find_highest_syncfd | apply find_highest_writers].
  by eapply move_syncfd_only.
Qed.

Lemma child_renumbered_only id sp fh attrs p out s :
  child_renumbered sp fh (Z.of_nat (length fh)) attrs (child_entry sp p) = (out, s) ->
  writers_at id sp.2 p -> only_sync id s.
Proof.
  intros H Hs. unfold child_renumbered in H.
  apply bind_run in H as [[-> H]|(? & s4 & H4 & H)].
  { by eapply child_sync_moved_only. }
  pose proof (child_sync_moved_only _ _ _ _ _ _ _ H4 Hs) as H0.
  apply child_sync_moved_next in H4 as (_ & _ & _ & _ & Hsy & Hidx & Htab & _).
  apply bind_run in H as [[-> H]|(? & s5 & H5 & H)].
  { eapply lift_sources_only; [exact H | done | lia | lia | done]. }
  eapply lift_sources_only in H0; [|exact H5 | done | lia | lia].
  pose proof (keeps_syncfd_run _ _ _ _ (lift_sources_syncfd _) H5) as E5.
  apply lift_sources_next in H5 as (_ & _ & t & Ht & Hlen & Hlifted);
    [|done|lia].
  assert (only_sync id s5 ->
          forall o s6, place_sources (Z.of_nat (length fh)) s5 = (o, s6) ->
                       only_sync id s6) as Hplace.
  { intros Ho o s6 H6. eapply (place_sources_only id _ t); [exact H6| | |done].
    - intros Hpos. apply Ht. lia.
    - intros i Hi. pose proof (array_get_lookup fh i ltac:(lia)) as Hget.
      destruct (Hlifted _ _ Hget) as (v & Hv & Hl).
      assert (array_get t i = v) as -> by (unfold array_get; by rewrite Hv).
      rewrite Z2Nat.id in Hl by lia.
      destruct Hl as [[-> ->]|(d & ? & ? & _)]; [by left | right; lia]. }
  apply bind_run in H as [[-> H]|(? & s6 & H6 & H)].
  { by eapply Hplace. }
  apply (Hplace H0) in H6 as H0'. clear H0 Hplace.
  apply bind_run in H as [[-> H]|(? & s7 & H7 & H)].
  { eapply only_sync_step;
      [exact H | apply apply_session_syncfd | apply apply_session_writers | done]. }
  eapply only_sync_step in H0';
    [|exact H7 | apply apply_session_syncfd | apply apply_session_writers].
  eapply only_sync_step;
    [exact H | apply cloexec_rest_syncfd | apply cloexec_rest_writers | done].
Qed.

(** Wherever the child stands in lines 59-235, no descriptor but [syncfd]
    refers to the write end of the sync pipe, whatever the request. *)
Lemma child_steps_only id sp fh cwd attrs p out s :
  child_steps sp fh (Z.of_nat (length fh)) cwd attrs (child_entry sp p) = (out, s) ->
  writers_at id sp.2 p -> only_sync id s.
Proof.
  intros H Hs. unfold child_steps in H.
  apply bind_run in H as [[-> H]|(? & s1 & H1 & H)].
  { by eapply child_renumbered_only. }
  eapply child_renumbered_only in H1; [|done].
  eapply only_sync_step;
    [exact H | apply apply_identity_syncfd | apply apply_identity_writers | done].
Qed.

(** [pipe] hands out descriptors below the limit. *)
Lemma sys_pipe_below_limit p r rfd wfd p1 :
  sys_pipe p = (r, Some (rfd, wfd), p1) -> 0 <= wfd < rlim_cur p.
Proof.
  unfold sys_pipe, lowest_free.
  destruct (first_free (fds p) 0 _) as [r0|] eqn:E1; [|done].
  destruct (first_free (<[r0:=_]> (fds p)) 0 _) as [w0|] eqn:E2; [|done].
  intros [= _ _ <- _]. apply first_free_spec in E2 as [_ ?]. lia.
Qed.

(** The renumbering done, [syncfd] is the number above the highest
    source. *)
Lemma child_renumbered_syncfd sp fh attrs p u s' :
  child_renumbered sp fh (Z.of_nat (length fh)) attrs (child_entry sp p)
    = (Next u, s') ->
  syncfd s' = max_fd fh + 1 /\ (sp.2 <> max_fd fh + 1 -> max_fd fh + 1 < rlim_cur p).
Proof.
  intros Hren. unfold child_renumbered in Hren.
  apply bind_next in Hren as ([] & s4 & Hsync & H).
  apply bind_next in H as ([] & s5 & Hlift & H).
  apply bind_next in H as ([] & s6 & Hplace & H).
  apply bind_next in H as ([] & s6' & Hsess & H).
  split; [|by eapply child_sync_moved_room].
  apply child_sync_moved_next in Hsync as (_ & _ & _ & _ & Hsy4 & _).
  rewrite (keeps_syncfd_run _ _ _ _ (cloexec_rest_syncfd _) H),
    (keeps_syncfd_run _ _ _ _ (apply_session_syncfd _) Hsess),
    (keeps_syncfd_run _ _ _ _ (place_sources_syncfd _) Hplace),
    (keeps_syncfd_run _ _ _ _ (lift_sources_syncfd _) Hlift). done.
Qed.

(** What the parent's [read] finds once the child has run and made at least
    one [write] if it reached the [fail] label: the pipe is empty and the
    child holds no write end of it any more, or the child has exited with
    status 127 and the pipe holds the four bytes of its errno code. *)
Lemma child_handler_outcome fuel sp exe args env fh cwd om attrs p id :
  written p !! id = Some [] ->
  writers_at id sp.2 p -> sp.2 <= rlim_cur p ->
  (pipe_data id (child_handler (S fuel) sp exe args env fh (Z.of_nat (length fh))
                   cwd om attrs p) = [] /\
   child_holds (PipeW id)
     (child_handler (S fuel) sp exe args env fh (Z.of_nat (length fh))
        cwd om attrs p) = false) \/
  exists e cp,
    child_handler (S fuel) sp exe args env fh (Z.of_nat (length fh)) cwd om attrs p
      = Exited 127 cp /\
    errno cp = errno_val e /\
    pipe_data id (child_handler (S fuel) sp exe args env fh (Z.of_nat (length fh))
                    cwd om attrs p) = int_bytes (errno_val e).
Proof.
  intros Hw Honly Hlim. unfold child_handler.
  destruct (child_steps _ _ _ _ _ _) as [out s] eqn:Hs.
  pose proof (preserves_run _ _ _ _ _ (child_steps_frame _ _ _ _ _) Hs)
    as (Hwr & _ & _). simpl in Hwr.
  pose proof (child_steps_only _ _ _ _ _ _ _ _ Hs Honly) as Hu.
  assert (forall s1, written (cproc s1) = written p -> only_sync id s1 ->
            errno_set (cproc s1) ->
            (pipe_data id (child_fail (S fuel) s1) = [] /\
             child_holds (PipeW id) (child_fail (S fuel) s1) = false) \/
            exists e cp, child_fail (S fuel) s1 = Exited 127 cp /\
              errno cp = errno_val e /\
              pipe_data id (child_fail (S fuel) s1) = int_bytes (errno_val e))
    as Hfail.
  { intros s1 Hw1 Hu1 [e He]. rewrite child_fail_eq.
    destruct (released_facts s1) as (Her & Hfd1 & Hwr1 & _).
    rewrite Her, He.
    replace (negb (errno_val e =? 0)) with true
      by (pose proof (errno_val_pos e); symmetry;
          apply negb_true_iff, Z.eqb_neq; lia).
    destruct (fd_sink (released s1) (syncfd s1)) as [id'|] eqn:Hsink.
    - rewrite (write_retry_ok _ _ _ _ _ Hsink).
      destruct (decide (id' = id)) as [->|Hne].
      + right. exists e. eexists. split; [reflexivity|].
        split; [simpl; congruence|].
        unfold pipe_data. simpl. rewrite lookup_insert_eq. simpl.
        by rewrite Hwr1, Hw1, Hw.
      + left. split; [|done].
        unfold pipe_data. simpl. rewrite lookup_insert_ne by done.
        by rewrite Hwr1, Hw1, Hw.
    - rewrite (write_retry_bad _ _ _ _ Hsink). left. split.
      + unfold pipe_data. simpl. by rewrite Hwr1, Hw1, Hw.
      + apply bool_decide_eq_false. intros (k & d & Hk & Ho).
        simpl in Hk, Ho. rewrite Hfd1 in Hk.
        pose proof (Hu1 _ _ Hk Ho) as ->.
        unfold fd_sink in Hsink. rewrite Hfd1, Hk, Ho in Hsink. done. }
  destruct out as [[]|].
  2: { apply Hfail; [done | done | by apply (child_steps_fails _ _ _ _ _ _ _ Hs)]. }
  unfold sys_execve. destruct (fault (cproc s) Execve) as [e|]; simpl.
  { apply Hfail; [done | done | by exists e]. }
  left. split; [unfold pipe_data; simpl; by rewrite Hwr, Hw|].
  apply bool_decide_eq_false. intros (k & d & Hk & Ho). simpl in Hk, Ho.
  apply map_lookup_filter_Some in Hk as [Hk Hce]. simpl in Hce.
  pose proof (Hu _ _ Hk Ho) as ->.
  unfold child_steps in Hs.
  apply bind_next in Hs as ([] & s7 & Hren & Hid).
  pose proof (keeps_syncfd_run _ _ _ _ (apply_identity_syncfd _ _) Hid) as Hsy8.
  pose proof (preserves_run _ _ _ _ _ (apply_identity_frame _ _) Hid)
    as [_ Hfds8]. simpl in Hfds8.
  pose proof (child_renumbered_syncfd _ _ _ _ _ _ Hren) as [Hsy7 Hroom].
  apply child_renumbered_next in Hren as (Hsrc & Hcloexec & _).
  rewrite Hsy8, Hsy7, Hfds8 in Hk.
  pose proof (max_fd_nonneg fh) as Hmax.
  destruct (decide (max_fd fh + 1 < Z.of_nat (length fh))) as [Hin|Hout].
  - destruct (lookup_lt_is_Some_2 fh (Z.to_nat (max_fd fh + 1)) ltac:(lia))
      as [h Hh].
    destruct (Hsrc _ _ Hh) as (d0 & Hd0 & _ & Hne & Hpos).
    rewrite Z2Nat.id in Hpos by lia. rewrite Hk in Hpos.
    injection Hpos as ->. simpl in Ho. apply Hne. by eapply Honly.
  - assert (max_fd fh + 1 <= rlim_cur p) as Hle.
    { destruct (decide (sp.2 = max_fd fh + 1)) as [<-|Hne]; [done|].
      specialize (Hroom Hne). lia. }
    pose proof (Hcloexec (max_fd fh + 1) d ltac:(lia) Hk) as Hflag.
    rewrite Hflag in Hce. done.
Qed.

(** The parent's [errno] after a report: the child's code when [waitpid]
    succeeded, and the code of [waitpid] when it failed. *)
Lemma exec_command_parent_report_errno sp pid om res c p id dR dW e p' :
  fds p !! sp.1 = Some dR -> fd_ofd dR = PipeR id ->
  fds p !! sp.2 = Some dW -> sp.1 <> sp.2 ->
  pipe_data id c = int_bytes (errno_val e) ->
  exec_command_parent sp pid om res c p = Some (-1, res, p') ->
  errno p' = match fault p Waitpid with
             | None => errno_val e
             | Some ew => errno_val ew
             end.
Proof.
  intros HR HRo HW Hne Hdata. unfold exec_command_parent, sys_close.
  rewrite HW. simpl. unfold sys_read_sync. simpl.
  rewrite lookup_delete_ne, HR, HRo by done.
  unfold pipe_data in Hdata. rewrite Hdata.
  cbn [take int_bytes length drop app Z.of_nat Pos.of_succ_nat Pos.succ].
  change (4 =? 4) with true. cbn [negb].
  fold (int_bytes (errno_val e)).
  rewrite bytes_int_int_bytes by (pose proof (errno_val_pos e); lia).
  unfold sys_waitpid, env_call. simpl.
  replace (negb (errno_val e =? 0)) with true
    by (pose proof (errno_val_pos e); symmetry;
        apply negb_true_iff, Z.eqb_neq; lia).
  destruct (fault p Waitpid) eqn:Hwait; simpl;
    rewrite lookup_delete_ne, HR by done; simpl;
    rewrite exec_command_fail_eq;
    replace (negb (errno_val e =? 0)) with true
      by (pose proof (errno_val_pos e); symmetry;
          apply negb_true_iff, Z.eqb_neq; lia);
    by intros [= <-].
Qed.



